(** * hypercontent: content synthesis and navigation reconstruction

    A shallow embedding of the string-level and list-level algorithms of
    - [cms/modules/generate-content/index.ts]
      (block serializer, entity placeholder expander, [buildPages],
      [generateContent]),
    - [base/modules/generate-content/index.ts] ([resolvePlaceholders],
      the serializer [json2mdc], the resolver name of a path),
    - [cms/composables/useHcNavigation.ts] ([_loadNavigation], the
      lookups [getPageByPath] and [currentPage], and [useHcLangs]),
    - [cms/modules/hypercontent.ts] (the [ready] hook),
    followed by the properties established about them.

    Conventions.
    - A JavaScript string is a [string], a sequence of code units, each
      an [ascii]; the code units from 128 on are outside every character
      class the sources use, as in JavaScript (code units above 255 are
      not represented).
    - [undefined] is [None]; [null] is not told apart from it.
    - A JavaScript number that holds an integer is that integer, a [Z];
      sums are rounded as sums of doubles are, and a number is printed
      as [Number.prototype.toString] prints it.
    - A plain object is given by its own properties; a read of a
      property it does not have itself finds the member of
      [Object.prototype] of that name, if there is one.
    - A run either returns or throws an [error]: an [Error] the module
      makes, with its message, or a [TypeError] of the engine, told by
      its cause.
    - File and network primitives are recorded as a trace of [event]s; a
      primitive that fails (transport, file system, JSON syntax) is
      outside the model.  The path handed to a file primitive is the text
      [join] of node's [path] returns, normalised; the file tree resolves
      it against the working directory.
    - What the sources import without defining (the HTTP transport, the
      JSON codec, the endpoint table and the helpers module) is a field
      of the class [Collaborators].
    - The objects of the navigation array are shared with the page array
      in [buildPages], but the fields written through one ([localPath],
      [localSortedPath], [hasDynamicContent]) are never read through the
      other, which reads [sortedPath] only: pages are values there.  In
      [_loadNavigation] the parent object is shared with the array and
      written through the cursor: objects live in a heap.
    - The lookups read the stored pages through [Object.values], whose
      order depends on the form of the keys: they take the list of
      values as an argument. *)

From Stdlib Require Import String Ascii List ZArith Lia Bool Arith.
From Stdlib Require Import DecimalString Sorted.
From stdpp Require Import gmap strings list.

Set Warnings "-register-all".

(** String concatenation computes under [simpl] in this development. *)
#[local] Arguments append (s1 s2)%_string_scope : simpl nomatch.

(* ================================================================== *)
(** * What a run throws *)
(* ================================================================== *)

(** The cause of a [TypeError] of the engine: a call of something that
    is not a function, named as the source spells it, or a method of
    [Object.prototype] called without an object to act on. *)
Inductive type_error : Type :=
| NotAFunction (callee : string)
| NoReceiver (method : string).

(** [Error (message)] is what [throw new Error(message)] throws. *)
Inductive error : Type :=
| Error (message : string)
| TypeError (cause : type_error).

(* ================================================================== *)
(** * JavaScript primitives *)
(* ================================================================== *)

Module Js.

(** Truthiness of a string: only the empty string is falsy. *)
Definition truthy (s : string) : bool :=
  match s with EmptyString => false | String _ _ => true end.

(** [a || b] on strings. *)
Definition or_else (a b : string) : string := if truthy a then a else b.

(** String conversion of a possibly undefined value (template literals,
    [+], and the replacement argument of [replaceAll]). *)
Definition toString (o : option string) : string :=
  match o with Some s => s | None => "undefined" end.

Definition is_lower (c : ascii) : bool :=
  let n := nat_of_ascii c in Nat.leb 97 n && Nat.leb n 122.
Definition is_upper (c : ascii) : bool :=
  let n := nat_of_ascii c in Nat.leb 65 n && Nat.leb n 90.
Definition is_digit (c : ascii) : bool :=
  let n := nat_of_ascii c in Nat.leb 48 n && Nat.leb n 57.

(** The class [\w] (the [i] flag does not change it without [u]). *)
Definition is_word (c : ascii) : bool :=
  is_lower c || is_upper c || is_digit c || Ascii.eqb c "_".

(** [s.startsWith(p)]. *)
Fixpoint startsWith (s p : string) {struct p} : bool :=
  match p, s with
  | EmptyString, _ => true
  | String _ _, EmptyString => false
  | String a p', String b s' => Ascii.eqb a b && startsWith s' p'
  end.

(** [s.includes(p)]: [p] occurs somewhere in [s]. *)
Fixpoint includes (s p : string) : bool :=
  startsWith s p ||
  match s with
  | EmptyString => false
  | String _ s' => includes s' p
  end.

(** [s.slice(n)] for [n >= 0]. *)
Fixpoint drop (n : nat) (s : string) : string :=
  match n, s with
  | O, _ => s
  | S _, EmptyString => EmptyString
  | S k, String _ s' => drop k s'
  end.

(** Longest prefix of [s] made of characters satisfying [f], and the rest. *)
Fixpoint span (f : ascii -> bool) (s : string) : string * string :=
  match s with
  | EmptyString => (EmptyString, EmptyString)
  | String c s' =>
      if f c then let '(a, b) := span f s' in (String c a, b)
      else (EmptyString, s)
  end.

(** [s.split(sep)] for a one-character separator. *)
Fixpoint split (sep : ascii) (s : string) : list string :=
  match s with
  | EmptyString => [EmptyString]
  | String c s' =>
      if Ascii.eqb c sep then EmptyString :: split sep s'
      else match split sep s' with
           | [] => [String c EmptyString]
           | seg :: segs => String c seg :: segs
           end
  end.

(** [xs.join(sep)]. *)
Fixpoint join (sep : string) (xs : list string) : string :=
  match xs with
  | [] => EmptyString
  | [x] => x
  | x :: rest => x +:+ sep +:+ join sep rest
  end.

(** The first [n] characters of the endless repetition of [pad]
    ([cur] is what is left of the current copy). *)
Fixpoint fill (pad cur : string) (n : nat) : string :=
  match n with
  | O => EmptyString
  | S k =>
      match cur with
      | String c rest => String c (fill pad rest k)
      | EmptyString =>
          match pad with
          | String c rest => String c (fill pad rest k)
          | EmptyString => EmptyString
          end
      end
  end.

(** [s.padStart(target, pad)] and [s.padEnd(target, pad)]: [target] is the
    length of the result, not a number of copies of [pad]. *)
Definition padStart (s : string) (target : nat) (pad : string) : string :=
  fill pad pad (target - String.length s) +:+ s.
Definition padEnd (s : string) (target : nat) (pad : string) : string :=
  s +:+ fill pad pad (target - String.length s).

(** [GetSubstitution] for a string pattern (no captures): in the
    replacement text [$$] is a dollar, [$&] the matched text, [$`] what
    precedes the match and [$'] what follows it; every other [$] is
    literal. *)
Fixpoint getSubstitution (matched before after r : string) : string :=
  match r with
  | EmptyString => EmptyString
  | String c r' =>
      if Ascii.eqb c "$" then
        match r' with
        | String d r'' =>
            if Ascii.eqb d "$" then
              String "$" (getSubstitution matched before after r'')
            else if Ascii.eqb d "&" then
              matched +:+ getSubstitution matched before after r''
            else if Ascii.eqb d "`" then
              before +:+ getSubstitution matched before after r''
            else if Ascii.eqb d "'" then
              after +:+ getSubstitution matched before after r''
            else String c (getSubstitution matched before after r')
        | EmptyString => String c EmptyString
        end
      else String c (getSubstitution matched before after r')
  end.

(** The scan of [replaceAll]: [before] is the part of the subject already
    passed, [skip] the number of characters of the current match still to
    be dropped. *)
Fixpoint replaceAll_go (p r before s : string) (skip : nat) : string :=
  match s with
  | EmptyString =>
      match skip, p with
      | O, EmptyString => getSubstitution p before EmptyString r
      | _, _ => EmptyString
      end
  | String c s' =>
      match skip with
      | S k => replaceAll_go p r (before +:+ String c EmptyString) s' k
      | O =>
          if startsWith s p then
            getSubstitution p before (drop (String.length p) s) r
            +:+ match p with
                | EmptyString =>
                    String c (replaceAll_go p r (before +:+ String c EmptyString) s' 0)
                | String _ p' =>
                    replaceAll_go p r (before +:+ String c EmptyString) s'
                                  (String.length p')
                end
          else String c (replaceAll_go p r (before +:+ String c EmptyString) s' 0)
      end
  end.

(** [s.replaceAll(p, r)] for a string pattern [p]. *)
Definition replaceAll (s p r : string) : string :=
  replaceAll_go p r EmptyString s 0.

(** The scan of [replace] with a string pattern: the first occurrence only. *)
Fixpoint replace_go (p r before s : string) : string :=
  if startsWith s p then
    getSubstitution p before (drop (String.length p) s) r
    +:+ drop (String.length p) s
  else
    match s with
    | EmptyString => EmptyString
    | String c s' => String c (replace_go p r (before +:+ String c EmptyString) s')
    end.

(** [s.replace(p, r)] for a string pattern [p]. *)
Definition replace (s p r : string) : string :=
  replace_go p r EmptyString s.

(** Every character of [s] satisfies [f]. *)
Fixpoint all (f : ascii -> bool) (s : string) : bool :=
  match s with
  | EmptyString => true
  | String c s' => f c && all f s'
  end.

(** [n] copies of a character. *)
Fixpoint copies (c : ascii) (n : nat) : string :=
  match n with
  | O => EmptyString
  | S k => String c (copies c k)
  end.

(** Decimal digits of an integer. *)
Definition show_int (z : Z) : string :=
  NilZero.string_of_int (Z.to_int z).

(** ** Replacement by a value of any kind *)

(** The second argument of [replaceAll].  A function is called for each
    match with the matched text (then the position and the subject,
    which no function met here reads), [this] being undefined, and what
    it returns is put in as it is.  Any other value is turned into a
    string, which is read as a replacement pattern. *)
Inductive replacement : Type :=
| Pattern (r : string)
| Replacer (f : string -> error + string).

(** The scan of [replaceAll] with a function. *)
Fixpoint replaceAll_fn_go (p : string) (f : string -> error + string)
    (s : string) (skip : nat) : error + string :=
  match s with
  | EmptyString =>
      match skip, p with
      | O, EmptyString => f p
      | _, _ => inr EmptyString
      end
  | String c s' =>
      match skip with
      | S k => replaceAll_fn_go p f s' k
      | O =>
          if startsWith s p then
            match f p with
            | inl e => inl e
            | inr t =>
                match match p with
                      | EmptyString =>
                          match replaceAll_fn_go p f s' 0 with
                          | inl e => inl e
                          | inr rest => inr (String c rest)
                          end
                      | String _ p' => replaceAll_fn_go p f s' (String.length p')
                      end with
                | inl e => inl e
                | inr rest => inr (t +:+ rest)
                end
            end
          else
            match replaceAll_fn_go p f s' 0 with
            | inl e => inl e
            | inr rest => inr (String c rest)
            end
      end
  end.

(** [s.replaceAll(p, value)] for a string pattern [p]. *)
Definition replaceAll_value (s p : string) (value : replacement) : error + string :=
  match value with
  | Pattern r => inr (replaceAll s p r)
  | Replacer f => replaceAll_fn_go p f s 0
  end.

(** ** Plain objects *)

(** The string-keyed members of [Object.prototype], as a read hands them
    to [replaceAll].  Called without [this], [constructor] wraps the
    matched text in a String object, whose string form is that text,
    [toString] gives the tag of undefined and [isPrototypeOf] gives
    false; the other methods turn [this] into an object first, which
    throws.  [__proto__] reads as the prototype itself, an object that is
    not a function. *)
Definition Object_prototype (key : string) : option replacement :=
  if String.eqb key "constructor" then Some (Replacer (fun matched => inr matched))
  else if String.eqb key "toString" then
    Some (Replacer (fun _ => inr "[object Undefined]"%string))
  else if String.eqb key "isPrototypeOf" then Some (Replacer (fun _ => inr "false"%string))
  else if existsb (String.eqb key)
            ["valueOf"; "hasOwnProperty"; "propertyIsEnumerable"; "toLocaleString";
             "__defineGetter__"; "__defineSetter__";
             "__lookupGetter__"; "__lookupSetter__"]%string
  then Some (Replacer (fun _ => inl (TypeError (NoReceiver key))))
  else if String.eqb key "__proto__" then Some (Pattern "[object Object]")
  else None.

(** [key] names a member of [Object.prototype]. *)
Definition inherited (key : string) : bool :=
  match Object_prototype key with Some _ => true | None => false end.

(** The value of a run of decimal digits. *)
Definition digits_value (s : string) : Z :=
  fold_left (fun acc c => (10 * acc + (Z.of_nat (nat_of_ascii c) - 48))%Z)
            (list_ascii_of_string s) 0%Z.

(** [key] is an array index: the decimal form, without sign or leading
    zero, of an integer from 0 to 2^32 - 2. *)
Definition is_array_index (key : string) : bool :=
  truthy key && all is_digit key
  && (String.eqb key "0" || negb (startsWith key "0"))
  && Nat.leb (String.length key) 10
  && Z.leb (digits_value key) 4294967294.

Section Objects.
Context {V : Type}.

(** The own properties of an object as [Object.entries] and
    [JSON.stringify] read them: the array indices first, ascending, then
    the other keys in the order of their creation. *)
Fixpoint insert_index (key : string) (v : V) (o : list (string * V)) : list (string * V) :=
  match o with
  | [] => [(key, v)]
  | (k, w) :: rest =>
      if is_array_index k && Z.ltb (digits_value k) (digits_value key)
      then (k, w) :: insert_index key v rest
      else (key, v) :: o
  end.

(** [o[key] = v] on an object made by a literal: an own property is
    written in place, a new one is created, and [__proto__] goes to the
    setter of [Object.prototype], which creates no property. *)
Definition obj_set (o : list (string * V)) (key : string) (v : V) : list (string * V) :=
  if String.eqb key "__proto__" then o
  else if existsb (fun kw => String.eqb (fst kw) key) o then
    map (fun kw => if String.eqb (fst kw) key then (key, v) else kw) o
  else if is_array_index key then insert_index key v o
  else o ++ [(key, v)].

End Objects.

(** ** Numbers *)

(** The double nearest to an integer, ties going to the even
    significand of 53 bits (the integer is below 2^1024, where doubles
    end, in absolute value). *)
Definition round53 (z : Z) : Z :=
  let a := Z.abs z in
  if (a <? 2 ^ 53)%Z then z
  else
    let e := (Z.log2 a - 52)%Z in
    let q := Z.shiftr a e in
    let r := (a - Z.shiftl q e)%Z in
    let half := Z.shiftl 1 (e - 1) in
    let q' :=
      if (r <? half)%Z then q
      else if (half <? r)%Z then (q + 1)%Z
      else if Z.even q then q else (q + 1)%Z in
    (Z.sgn z * Z.shiftl q' e)%Z.

(** [a + b] for two numbers that hold integers (an integer that no
    double holds stands for the double nearest to it, as the parser of
    the response reads it). *)
Definition plus (a b : Z) : Z := round53 (round53 a + round53 b).

(** The integer with the fewest significant digits that reads back as
    the positive double [v]; when two do with the same number of digits,
    the nearer one, and the even one when they are as near. *)
Definition shortest (v : Z) : Z :=
  let D := Z.of_nat (String.length (show_int v)) in
  (fix search (fuel : nat) (k : Z) {struct fuel} : Z :=
     match fuel with
     | O => v
     | S fuel' =>
         let m := (D - k)%Z in
         if (m <=? 0)%Z then v
         else
           let unit := (10 ^ m)%Z in
           let lo := (v / unit * unit)%Z in
           let hi := (lo + unit)%Z in
           match Z.eqb (round53 lo) v, Z.eqb (round53 hi) v with
           | true, true =>
               if (v - lo <? hi - v)%Z then lo
               else if (hi - v <? v - lo)%Z then hi
               else if Z.even (lo / unit) then lo else hi
           | true, false => lo
           | false, true => hi
           | false, false => search fuel' (k + 1)%Z
           end
     end) 17%nat 1%Z.

(** A run of digits without its trailing zeros. *)
Fixpoint strip_zeros (s : string) : string :=
  match s with
  | EmptyString => EmptyString
  | String c s' =>
      match strip_zeros s' with
      | EmptyString => if Ascii.eqb c "0" then EmptyString else String c EmptyString
      | String _ _ as t => String c t
      end
  end.

(** [Number.prototype.toString] on a number that holds an integer: the
    digits of the integer below 2^53; beyond, the shortest digits that
    read back as the number, filled with zeros, and in exponent form
    from 10^21 on. *)
Definition number_toString (v : Z) : string :=
  if (Z.abs v <? 2 ^ 53)%Z then show_int v
  else
    let c := shortest (Z.abs v) in
    let sign := if (v <? 0)%Z then "-"%string else ""%string in
    if (c <? 10 ^ 21)%Z then sign +:+ show_int c
    else
      let all_digits := show_int c in
      let e := show_int (Z.of_nat (String.length all_digits) - 1) in
      match strip_zeros all_digits with
      | String d EmptyString => sign +:+ String d EmptyString +:+ "e+" +:+ e
      | String d rest => sign +:+ String d EmptyString +:+ "." +:+ rest +:+ "e+" +:+ e
      | EmptyString => sign +:+ all_digits
      end.

End Js.

(* ================================================================== *)
(** * node's path: join *)
(* ================================================================== *)

Module Path.

(** One segment met by [normalize]: an empty segment and [.] are passed
    over, [..] takes the last segment back unless none is left or the
    last is [..] itself (then it is kept, in a relative path only), any
    other segment is added.  The segments are held last first. *)
Definition normalize_step (allowAboveRoot : bool) (res : list string) (seg : string)
    : list string :=
  if String.eqb seg "" || String.eqb seg "." then res
  else if String.eqb seg ".." then
    match res with
    | top :: below =>
        if String.eqb top ".." then (if allowAboveRoot then seg :: res else res)
        else below
    | [] => if allowAboveRoot then [seg] else []
    end
  else seg :: res.

Definition normalize_segments (allowAboveRoot : bool) (segs : list string) : list string :=
  rev (fold_left (normalize_step allowAboveRoot) segs []).

Definition ends_with_slash (path : string) : bool :=
  match rev (list_ascii_of_string path) with
  | c :: _ => Ascii.eqb c "/"
  | [] => false
  end.

(** [normalize(path)]. *)
Definition normalize (path : string) : string :=
  match path with
  | EmptyString => "."
  | String _ _ =>
      let isAbsolute := Js.startsWith path "/" in
      let trailingSeparator := ends_with_slash path in
      let res :=
        Js.join "/" (normalize_segments (negb isAbsolute) (Js.split "/" path)) in
      match res with
      | EmptyString =>
          if isAbsolute then "/" else if trailingSeparator then "./" else "."
      | String _ _ =>
          (if isAbsolute then "/" else "") +:+ res
          +:+ (if trailingSeparator then "/" else "")
      end
  end.

(** [join(...segments)]: the segments that are not empty, joined by
    slashes and normalised. *)
Definition join (segments : list string) : string :=
  match List.filter Js.truthy segments with
  | [] => "."
  | parts => normalize (Js.join "/" parts)
  end.

(** The segments of the absolute path a file primitive reaches through
    [path], from the working directory [cwd] when [path] is relative. *)
Definition resolve (cwd path : string) : list string :=
  normalize_segments false
    (Js.split "/" (if Js.startsWith path "/" then path else cwd +:+ "/" +:+ path)).

End Path.

(* ================================================================== *)
(** * Effects: the trace of file and network primitives *)
(* ================================================================== *)

(** A path is the list of segments handed to [join]. *)
Inductive event : Type :=
| Rm (target : list string)                      (* rm(..., recursive, force) *)
| Mkdir (target : list string)                   (* mkdir(..., recursive)     *)
| WriteFile (target : list string) (content : string)
| Fetch (url : string).

(** A computation appends events to the trace and either throws or
    returns. *)
Record outcome (A : Type) : Type := Outcome {
  trace : list event;
  result : error + A
}.
Arguments Outcome {A} _ _.
Arguments trace {A} _.
Arguments result {A} _.

Definition ret {A} (a : A) : outcome A := Outcome [] (inr a).
Definition throw {A} (e : error) : outcome A := Outcome [] (inl e).

(** A computation without events, run inside one with events. *)
Definition lift {A} (r : error + A) : outcome A := Outcome [] r.
Definition emit (e : event) : outcome unit := Outcome [e] (inr tt).
Definition bind {A B} (m : outcome A) (f : A -> outcome B) : outcome B :=
  match result m with
  | inl e => Outcome (trace m) (inl e)
  | inr a => let r := f a in Outcome (trace m ++ trace r) (result r)
  end.

Declare Scope effect_scope.
Delimit Scope effect_scope with eff.
Notation "x <- m ;; k" := (bind m (fun x => k))
  (at level 100, m at next level, right associativity) : effect_scope.
Notation "m ;;; k" := (bind m (fun _ => k))
  (at level 100, right associativity) : effect_scope.

(* ================================================================== *)
(** * cms/modules/generate-content/index.ts *)
(* ================================================================== *)

Module Cms.

Definition dquote : string := String (ascii_of_nat 34) EmptyString.
Definition backslash : string := String (ascii_of_nat 92) EmptyString.
Definition newline : string := String (ascii_of_nat 10) EmptyString.

(** ** Data model *)

(** A property value of a block: a primitive (string, number or boolean)
    is kept by its [String(value)] form, a value whose [typeof] is
    ['object'] (objects, arrays, [null]) by its [JSON.stringify] form. *)
Inductive PropValue : Type :=
| Primitive (s : string)
| ObjectValue (json : string).

(** [HcPageBlock]: [type], [text], [data.props] (its entries, in
    [Object.entries] order) and [children]; an absent [children] and an
    empty one are both [[]], which every use in the source identifies. *)
Inductive HcPageBlock : Type :=
| Block (type : option string) (text : option string)
        (props : list (string * PropValue)) (children : list HcPageBlock).

Definition type (b : HcPageBlock) := let '(Block t _ _ _) := b in t.
Definition text (b : HcPageBlock) := let '(Block _ t _ _) := b in t.
Definition props (b : HcPageBlock) := let '(Block _ _ p _) := b in p.
Definition children (b : HcPageBlock) := let '(Block _ _ _ c) := b in c.

Record HcPageContent : Type := {
  state : string;
  blocks : list HcPageBlock
}.

(** An entity record, a plain object of data: the [String] form of each
    own property, and the [JSON.stringify] form of the whole record. *)
Record Entity : Type := {
  entity_get : gmap string string;
  entity_json : string
}.

Record ImportingPage : Type := {
  id : Z;
  path : string;
  sortedPath : string;
  label : string;
  sort : Z;
  show : string;
  access : option string;
  localPath : option string;
  localSortedPath : option string;
  hasDynamicContent : option bool;
  entity : option (string * Entity)
}.

Definition set_hasDynamicContent (b : bool) (p : ImportingPage) : ImportingPage :=
  {| id := id p; path := path p; sortedPath := sortedPath p; label := label p;
     sort := sort p; show := show p; access := access p;
     localPath := localPath p; localSortedPath := localSortedPath p;
     hasDynamicContent := Some b; entity := entity p |}.

Definition set_localSortedPath (s : string) (p : ImportingPage) : ImportingPage :=
  {| id := id p; path := path p; sortedPath := sortedPath p; label := label p;
     sort := sort p; show := show p; access := access p;
     localPath := localPath p; localSortedPath := Some s;
     hasDynamicContent := hasDynamicContent p; entity := entity p |}.

Definition set_localPath (s : string) (p : ImportingPage) : ImportingPage :=
  {| id := id p; path := path p; sortedPath := sortedPath p; label := label p;
     sort := sort p; show := show p; access := access p;
     localPath := Some s; localSortedPath := localSortedPath p;
     hasDynamicContent := hasDynamicContent p; entity := entity p |}.

Record Config : Type := {
  apiBasePath : list string;
  apiBaseUrl : string;
  contentBasePath : list string
}.

Record DynamicContentEntityDef : Type := {
  name : string;
  field : option string
}.

(** The module-level [config] as it is when the module is loaded. *)
Definition config : Config :=
  {| apiBasePath := ["_hc"; "api"]; apiBaseUrl := ""; contentBasePath := ["content"] |}.

(** What the module imports or calls without defining: the HTTP
    transport, the JSON codec and the typed views of its values, the
    endpoint table [HC_ENDPOINTS] resolved by
    [resolveEndpointDefPlaceholders], and [pascalToKebab]. *)
Class Collaborators : Type := {
  Json : Type;
  HcLang : Type;
  lang_code : HcLang -> string;
  (* fetch(url) followed by response.json() *)
  http_json : string -> Json;
  JSON_stringify : Json -> string;
  JSON_parse : string -> Json;
  (* JSON.stringify of the object that has these own properties, in
     this order *)
  stringify_entries : list (string * Json) -> string;
  (* json.items, and json.items[0].expand.Content *)
  json_items : Json -> Json;
  json_detail_content : Json -> Json;
  as_langs : Json -> list HcLang;
  (* Object.values(labels), each with its key and its value *)
  as_labels : Json -> list (string * Json);
  as_navigation : Json -> list ImportingPage;
  (* None when the value is falsy *)
  as_content : Json -> option HcPageContent;
  lang_list_path : string;
  label_list_path : HcLang -> string;
  navigation_list_path : HcLang -> string;
  content_detail_path : ImportingPage -> string;
  pascalToKebab : option string -> string
}.

Section WithCollaborators.
Context `{Collaborators}.

Record DynamicPageResolver : Type := {
  endpoint_path : string;
  endpoint_queryParams : option (list (string * string));
  response : Json;
  resolve : Json -> list Entity
}.

(** ** Patterns *)

(** [DYNAMIC_ENTITY_PLACEHOLDER_PATTERN = /:(\w+)\.(\w+)/gim] tried at the
    start of [s]: both runs are greedy and nothing else can match, so the
    groups are the two longest runs of word characters. *)
Definition match_placeholder (s : string) : option (string * string) :=
  match s with
  | String c rest =>
      if Ascii.eqb c ":" then
        let '(g1, r1) := Js.span Js.is_word rest in
        match g1, r1 with
        | String _ _, String d r2 =>
            if Ascii.eqb d "." then
              let '(g2, _) := Js.span Js.is_word r2 in
              match g2 with
              | String _ _ => Some (g1, g2)
              | EmptyString => None
              end
            else None
        | _, _ => None
        end
      else None
  | EmptyString => None
  end.

(** The subject cut at the successive matches of the pattern. *)
Inductive piece : Type :=
| Text (c : ascii)
| Placeholder (g1 g2 : string).

Fixpoint pieces_go (s : string) (skip : nat) : list piece :=
  match s with
  | EmptyString => []
  | String c s' =>
      match skip with
      | S k => pieces_go s' k
      | O =>
          match match_placeholder s with
          | Some (g1, g2) =>
              Placeholder g1 g2
              :: pieces_go s' (String.length g1 + 1 + String.length g2)
          | None => Text c :: pieces_go s' 0
          end
      end
  end.

Definition pieces (s : string) : list piece := pieces_go s 0.

Definition placeholder_text (g1 g2 : string) : string :=
  ":" +:+ g1 +:+ "." +:+ g2.

(** [input.match(DYNAMIC_ENTITY_PLACEHOLDER_PATTERN)]; [[]] stands for
    [null]. *)
Definition match_placeholders (input : string) : list string :=
  flat_map (fun pc => match pc with
                      | Text _ => []
                      | Placeholder g1 g2 => [placeholder_text g1 g2]
                      end) (pieces input).

(** [s.replace(DYNAMIC_ENTITY_PLACEHOLDER_PATTERN, (_, g1, g2) => f g1 g2)]. *)
Definition replace_placeholders (f : string -> string -> string) (s : string) : string :=
  fold_right (fun pc acc => match pc with
                            | Text c => String c acc
                            | Placeholder g1 g2 => f g1 g2 +:+ acc
                            end) EmptyString (pieces s).

(** [PATH_CHECK_PATTERN = /[/:.a-z0-9-_]+/gm]: the class holds the slash,
    the colon, the dot, lower-case letters, digits, the hyphen and the
    underscore. *)
Definition PATH_CHECK_PATTERN : string := "/[/:.a-z0-9-_]+/gm".

Definition is_path_char (c : ascii) : bool :=
  Ascii.eqb c "/" || Ascii.eqb c ":" || Ascii.eqb c "." ||
  Js.is_lower c || Js.is_digit c || Ascii.eqb c "-" || Ascii.eqb c "_".

Fixpoint path_check_go (s : string) (skip : nat) : list string :=
  match s with
  | EmptyString => []
  | String c s' =>
      match skip with
      | S k => path_check_go s' k
      | O =>
          if is_path_char c then
            let run := fst (Js.span is_path_char s) in
            run :: path_check_go s' (String.length run - 1)
          else path_check_go s' 0
      end
  end.

(** [s.match(PATH_CHECK_PATTERN)]: the maximal runs of allowed characters,
    [None] for [null]. *)
Definition match_path_check (s : string) : option (list string) :=
  match path_check_go s 0 with
  | [] => None
  | ms => Some ms
  end.

(** ** File and network primitives *)

Definition endsWith (s suffix : string) : bool :=
  Js.startsWith
    (Js.drop (String.length s - String.length suffix) s) suffix
  && Nat.leb (String.length suffix) (String.length s).

Definition nonempty (s : string) : bool := Js.truthy s.

Definition dumpFile (cfg : Config) (content path fileExtension : string) : outcome unit :=
  let filePath :=
    contentBasePath cfg
    ++ List.filter nonempty (Js.split "/" (path +:+ "." +:+ fileExtension)) in
  (emit (Mkdir (List.filter (fun p => negb (endsWith p ("." +:+ fileExtension))) filePath)) ;;;
   emit (WriteFile filePath content))%eff.

Definition dumpJson (cfg : Config) (json : string) (path : string) : outcome unit :=
  dumpFile cfg json path "json".

Definition fetchEndpoint (cfg : Config) (path query : string) : outcome (Json * string) :=
  let url := apiBaseUrl cfg +:+ path +:+ query in
  (emit (Fetch url) ;;; ret (http_json url, url))%eff.

(** ** Front matter *)

Definition getFrontMatter (page : ImportingPage) (apiUrl : string) : string :=
  let ymlContent := "---" +:+ newline in
  let ymlContent :=
    if negb (String.eqb (show page) "always")
    then ymlContent +:+ "navigation: false" +:+ newline
    else ymlContent in
  let ymlContent :=
    ymlContent +:+ "access: "
    +:+ Js.or_else (default EmptyString (access page)) "all" +:+ newline in
  let ymlContent := ymlContent +:+ "apiUrl: " +:+ apiUrl +:+ newline in
  ymlContent +:+ "---" +:+ newline +:+ newline.

(** ** Block serializer *)

Definition isInlineComponent (block : HcPageBlock) : bool :=
  match children block with [] => true | _ :: _ => false end.

Definition mdComponentName (block : HcPageBlock) (depth : nat) : string :=
  let prefix := if isInlineComponent block then ":"
                else Js.padEnd "" (depth + 2) ":" in
  prefix +:+ pascalToKebab (type block).

Definition indent (depth : nat) : string := Js.padStart "" depth "  ".

Definition is_space (c : ascii) : bool :=
  let n := nat_of_ascii c in
  Nat.eqb n 32 || Nat.eqb n 160 || (Nat.leb 9 n && Nat.leb n 13).

Fixpoint trimStart (s : string) : string :=
  match s with
  | String c s' => if is_space c then trimStart s' else s
  | EmptyString => EmptyString
  end.

Definition is_hex (c : ascii) : bool :=
  let n := nat_of_ascii c in
  Js.is_digit c || (Nat.leb 97 n && Nat.leb n 102) || (Nat.leb 65 n && Nat.leb n 70).

(** [isNaN(parseInt(s))]: after leading white space and a sign, no digit
    can be read (hexadecimal digits after [0x]). *)
Definition parseInt_isNaN (s : string) : bool :=
  let t := trimStart s in
  let t := match t with
           | String c t' => if Ascii.eqb c "+" || Ascii.eqb c "-" then t' else t
           | EmptyString => t
           end in
  match t with
  | String c (String x rest) =>
      if Ascii.eqb c "0" && (Ascii.eqb x "x" || Ascii.eqb x "X") then
        match rest with
        | String h _ => negb (is_hex h)
        | EmptyString => true
        end
      else negb (Js.is_digit c)
  | String c EmptyString => negb (Js.is_digit c)
  | EmptyString => true
  end.

Definition lower_char (c : ascii) : ascii :=
  if Js.is_upper c then ascii_of_nat (nat_of_ascii c + 32) else c.

Fixpoint toLowerCase (s : string) : string :=
  match s with
  | EmptyString => EmptyString
  | String c s' => String (lower_char c) (toLowerCase s')
  end.

Definition isBooleanOrNumber (value : PropValue) : bool :=
  match value with
  | ObjectValue _ => false
  | Primitive s =>
      let l := toLowerCase s in
      String.eqb l "true" || String.eqb l "false" || negb (parseInt_isNaN s)
  end.

Definition is_object (value : PropValue) : bool :=
  match value with ObjectValue _ => true | Primitive _ => false end.

Definition value_text (value : PropValue) : string :=
  match value with ObjectValue json => json | Primitive s => s end.

Definition componentProp (key : string) (value : PropValue) : string :=
  let componentProp := if is_object value then ":" else "" in
  if isBooleanOrNumber value then
    componentProp +:+ ":" +:+ key +:+ "=" +:+ value_text value
  else
    let componentProp := componentProp +:+ key +:+ "=" in
    let componentProp := componentProp +:+ (if is_object value then "'" else dquote) in
    let componentProp := componentProp +:+ value_text value in
    componentProp +:+ (if is_object value then "'" else dquote).

Definition processBlockProps (block : HcPageBlock) : string :=
  let componentProps := map (fun kv => componentProp (fst kv) (snd kv)) (props block) in
  match componentProps with
  | [] => ""
  | _ => "{" +:+ Js.join " " componentProps +:+ "}"
  end.

Definition is_raw_text (block : HcPageBlock) : bool :=
  match type block, text block with
  | None, Some t => Js.truthy t
  | _, _ => false
  end.

Fixpoint processBlock (block : HcPageBlock) (depth : nat) : list string :=
  match block with
  | Block _ _ _ kids =>
      if is_raw_text block then [default EmptyString (text block)]
      else
        let componentName := mdComponentName block depth in
        let propsPart := processBlockProps block in
        let indentation := indent depth in
        let lines := [indentation +:+ componentName +:+ propsPart] in
        if negb (isInlineComponent block) then
          (lines ++ flat_map (fun childBlock => processBlock childBlock (depth + 1)) kids)
          ++ [indentation +:+ Js.padEnd "" (depth + 2) ":"]
        else lines
  end.

Definition json2mdc (content : option HcPageContent)
    (dynamicPageEntityDef : option DynamicContentEntityDef) : option string :=
  match content with
  | None => None
  | Some content =>
      if negb (String.eqb (state content) "published") then None
      else
        let mdContentLines :=
          match dynamicPageEntityDef with
          | Some d =>
              ["::hc-dynamic-content{entity=" +:+ dquote +:+ name d +:+ dquote
               +:+ " field=" +:+ dquote +:+ Js.toString (field d) +:+ dquote +:+ "}"]
          | None => []
          end in
        let depth := 0 in
        let mdContentLines :=
          fold_left (fun acc block => acc ++ processBlock block depth)
                    (blocks content) mdContentLines in
        let mdContentLines :=
          match dynamicPageEntityDef with
          | Some _ => mdContentLines ++ ["::"]
          | None => mdContentLines
          end in
        Some (Js.join newline mdContentLines)
  end.

(** ** Entity placeholder expansion *)

(** [entity[entityProp]] as [replaceAll] gets it: an own property by its
    string form, otherwise the member of [Object.prototype] of that name,
    otherwise [undefined]. *)
Definition entity_prop (entity : Entity) (entityProp : string) : Js.replacement :=
  match entity_get entity !! entityProp with
  | Some s => Js.Pattern s
  | None =>
      match Js.Object_prototype entityProp with
      | Some member => member
      | None => Js.Pattern (Js.toString None)
      end
  end.

Definition resolveInputWithEntity (input entityName : string) (entity : Entity)
    : error + string :=
  match match_placeholders input with
  | [] => inr input
  | placeHolderMatches =>
      fold_left
        (fun resolvedInput placeHolder =>
           match resolvedInput with
           | inl e => inl e
           | inr resolvedInput =>
               let entityProp := Js.replace placeHolder (":" +:+ entityName +:+ ".") "" in
               Js.replaceAll_value (Js.or_else resolvedInput input) placeHolder
                                   (entity_prop entity entityProp)
           end)
        placeHolderMatches (inr EmptyString)
  end.

(** ** buildPages *)

Definition getEntityDefFromPath (pagePath : string) : DynamicContentEntityDef :=
  fold_left
    (fun (acc : DynamicContentEntityDef) p =>
       let parts := Js.split "." (Js.drop 1 p) in
       {| name := default EmptyString (parts !! 0); field := parts !! 1 |})
    (List.filter (fun p => Js.includes p ":") (Js.split "/" pagePath))
    {| name := ""; field := Some EmptyString |}.

(** The object literal of [resolvePageWithEntity]: the label, the path
    and the sorted path are resolved in this order. *)
Definition resolvePageWithEntity (entityName : string) (page : ImportingPage)
    (entity : Entity) : error + ImportingPage :=
  match resolveInputWithEntity (label page) entityName entity with
  | inl e => inl e
  | inr label' =>
      match resolveInputWithEntity (path page) entityName entity with
      | inl e => inl e
      | inr path' =>
          match resolveInputWithEntity (sortedPath page) entityName entity with
          | inl e => inl e
          | inr sortedPath' =>
              inr {| id := id page;
                     path := path';
                     sortedPath := sortedPath';
                     label := label';
                     sort := sort page; show := show page; access := access page;
                     localPath := localPath page;
                     localSortedPath := localSortedPath page;
                     hasDynamicContent := hasDynamicContent page;
                     entity := Some (entityName, entity) |}
          end
      end
  end.

(** A loop that stops at the first error. *)
Fixpoint for_each {A B} (f : A -> error + B) (xs : list A) : error + list B :=
  match xs with
  | [] => inr []
  | x :: rest =>
      match f x with
      | inl e => inl e
      | inr y =>
          match for_each f rest with
          | inl e => inl e
          | inr ys => inr (y :: ys)
          end
      end
  end.

(** One iteration of the first loop: the pages pushed for one navigation
    entry.  [dynamicPageResolvers[entityName]] finds a resolver the table
    holds, or else the member of [Object.prototype] of that name, which
    has no [resolve] to call. *)
Definition expandPage (dynamicPageResolvers : gmap string DynamicPageResolver)
    (page : ImportingPage) : error + list ImportingPage :=
  let page := set_hasDynamicContent false page in
  if negb (Js.includes (path page) ":") then inr [page]
  else
    let entityName := name (getEntityDefFromPath (path page)) in
    match dynamicPageResolvers !! entityName with
    | Some resolver =>
        for_each (resolvePageWithEntity entityName page)
                 (resolve resolver (response resolver))
    | None =>
        if Js.inherited entityName
        then inl (TypeError (NotAFunction "resolver.resolve"))
        else inr [set_hasDynamicContent true page]
    end.

Definition expandPages (dynamicPageResolvers : gmap string DynamicPageResolver)
    (navigation : list ImportingPage) : error + list ImportingPage :=
  match for_each (expandPage dynamicPageResolvers) navigation with
  | inl e => inl e
  | inr pushed => inr (concat pushed)
  end.

(** Without a resolver a navigation entry gives one page, itself, marked
    as holding dynamic content when its path has a colon. *)
Definition mark (page : ImportingPage) : ImportingPage :=
  if Js.includes (path page) ":"
  then set_hasDynamicContent true (set_hasDynamicContent false page)
  else set_hasDynamicContent false page.

(** [!pathCheck || pathCheck[0] !== page.path]. *)
Definition path_invalid (p : string) : bool :=
  match match_path_check p with
  | None => true
  | Some ms => negb (String.eqb (default EmptyString (ms !! 0)) p)
  end.

Definition path_error (p : string) : string :=
  "Page path " +:+ p
  +:+ " contains invalid character(s) => path check pattern: "
  +:+ PATH_CHECK_PATTERN.

(** [nextPage && nextPage.sortedPath.includes(page.sortedPath)] with
    [nextPage = i < navigation.length && navigation[i + 1]]: the lookahead
    reads the navigation array at the index of the page in [pages]. *)
Definition nextPage (navigation : list ImportingPage) (i : nat) : option ImportingPage :=
  if Nat.ltb i (length navigation) then navigation !! (i + 1) else None.

Definition createDir (navigation : list ImportingPage) (i : nat)
    (page : ImportingPage) : bool :=
  match nextPage navigation i with
  | Some next => Js.includes (sortedPath next) (sortedPath page)
  | None => false
  end.

(** The content of a page: fetched, then, for a page bound to an entity,
    rewritten as text and parsed back. *)
Definition resolveContent (page : ImportingPage) (content : Json) : error + Json :=
  match entity page with
  | Some (entityName, value) =>
      match resolveInputWithEntity (JSON_stringify content) entityName value with
      | inl e => inl e
      | inr resolvedContentStr =>
          let resolvedContentStr :=
            Js.replaceAll resolvedContentStr
              (backslash +:+ dquote +:+ ":" +:+ entityName +:+ backslash +:+ dquote)
              (Js.replaceAll (entity_json value) dquote (backslash +:+ dquote)) in
          inr (JSON_parse resolvedContentStr)
      end
  | None => inr content
  end.

(** [sortedPath.replace(DYNAMIC_ENTITY_PLACEHOLDER_PATTERN, ...)]: every
    dynamic segment is rewritten between double underscores. *)
Definition localSortedPath_of (sortedPath : string) : string :=
  replace_placeholders (fun g1 g2 => "__" +:+ g1 +:+ "." +:+ g2 +:+ "__") sortedPath.

(** The request of a page and the text of its markup file. *)
Definition page_url (cfg : Config) (page : ImportingPage) : string :=
  apiBaseUrl cfg
  +:+ content_detail_path
        (set_localSortedPath (localSortedPath_of (sortedPath page)) page)
  +:+ "".

(** What the serializer returns for the page, when its content is
    resolved without error. *)
Definition page_markup (cfg : Config) (page : ImportingPage) : error + option string :=
  match resolveContent page (json_detail_content (http_json (page_url cfg page))) with
  | inl e => inl e
  | inr content =>
      inr (json2mdc (as_content content)
             (if default false (hasDynamicContent page)
              then Some (getEntityDefFromPath (path page)) else None))
  end.

(** One iteration of the second loop, for [pages[i]]. *)
Definition processPage (cfg : Config) (navigation : list ImportingPage) (i : nat)
    (page : ImportingPage) : outcome ImportingPage :=
  (if path_invalid (path page) then throw (Error (path_error (path page)))
   else
     let lsp := localSortedPath_of (sortedPath page) in
     let page := set_localSortedPath lsp page in
     endpoint <- fetchEndpoint cfg (content_detail_path page) "" ;;
     let content := json_detail_content (fst endpoint) in
     let pageApiUrl := snd endpoint in
     content <- lift (resolveContent page content) ;;
     let createDir := createDir navigation i page in
     (if String.eqb (show page) "never" && createDir
      then dumpFile cfg "navigation: false" (lsp +:+ "/_dir") "yml"
      else ret tt) ;;;
     let page :=
       if createDir
       then set_localPath (lsp +:+ "/0.index") (set_localSortedPath (lsp +:+ "/0.index") page)
       else set_localPath lsp page in
     let localPath := default EmptyString (localPath page) in
     let mdContent :=
       getFrontMatter page pageApiUrl
       +:+ Js.toString
             (json2mdc (as_content content)
                (if default false (hasDynamicContent page)
                 then Some (getEntityDefFromPath (path page)) else None)) in
     (if Js.truthy mdContent then dumpFile cfg mdContent localPath "md" else ret tt) ;;;
     ret (set_localPath
            (Js.replace
               (Js.replace localPath
                  ("/" +:+ Js.number_toString (Js.plus (sort page) 1) +:+ ".") "/")
               "/0.index" "")
            page))%eff.

Fixpoint processPages (cfg : Config) (navigation : list ImportingPage) (i : nat)
    (pages : list ImportingPage) : outcome (list ImportingPage) :=
  match pages with
  | [] => ret []
  | page :: rest =>
      (page' <- processPage cfg navigation i page ;;
       rest' <- processPages cfg navigation (S i) rest ;;
       ret (page' :: rest'))%eff
  end.

Definition buildPages (cfg : Config) (navigation : list ImportingPage)
    (dynamicPageResolvers : gmap string DynamicPageResolver)
    : outcome (list ImportingPage) :=
  (pages <- lift (expandPages dynamicPageResolvers navigation) ;;
   processPages cfg navigation 0 pages)%eff.

(** ** generateContent *)

(** The rewriting of a label in the site index ([label.replace] with a
    global pattern: a colon, any characters of the line, a dot): on each
    line the text between the first colon and the last dot after it is
    wrapped in double underscores. *)
Definition is_line_terminator (c : ascii) : bool :=
  let n := nat_of_ascii c in Nat.eqb n 10 || Nat.eqb n 13.

(** Position of the last dot of the current line, counted from the start
    of [s], if the line has one. *)
Fixpoint last_dot (s : string) (pos : nat) : option nat :=
  match s with
  | EmptyString => None
  | String c s' =>
      if is_line_terminator c then None
      else match last_dot s' (S pos) with
           | Some k => Some k
           | None => if Ascii.eqb c "." then Some pos else None
           end
  end.

Fixpoint take (n : nat) (s : string) : string :=
  match n, s with
  | O, _ => EmptyString
  | S _, EmptyString => EmptyString
  | S k, String c s' => String c (take k s')
  end.

Fixpoint label_link_go (s : string) (skip : nat) : string :=
  match s with
  | EmptyString => EmptyString
  | String c s' =>
      match skip with
      | S k => label_link_go s' k
      | O =>
          if Ascii.eqb c ":" then
            match last_dot s' 0 with
            | Some k => "__" +:+ take k s' +:+ "__." +:+ label_link_go s' (S k)
            | None => String c (label_link_go s' 0)
            end
          else String c (label_link_go s' 0)
      end
  end.

Definition label_link (s : string) : string := label_link_go s 0.

(** The configuration after the two assignments that open
    [generateContent]. *)
Definition configure (cfg : Config) (apiBaseUrl' : string)
    (contentRootFolder : option string) : Config :=
  {| apiBasePath := apiBasePath cfg;
     apiBaseUrl := apiBaseUrl';
     contentBasePath :=
       match contentRootFolder with
       | Some root => if Js.truthy root then [root] else contentBasePath cfg
       | None => contentBasePath cfg
       end |}.

(** [join(...segments)] of node's [path]. *)
Definition path_join (segments : list string) : string := Path.join segments.

(** The body of the loop over the languages; [pageLinks] is threaded. *)
Definition generateLang (cfg : Config) (_excludeLabelKeyPrefixes : list string)
    (pageLinks : list string) (lang : HcLang) : outcome (list string) :=
  (emit (Mkdir (contentBasePath cfg ++ [lang_code lang])) ;;;
   labels <- fetchEndpoint cfg (label_list_path lang) "" ;;
   let labels := as_labels (json_items (fst labels)) in
   let filteredLabels :=
     fold_left
       (fun acc item =>
          if negb (existsb (fun prefix => Js.startsWith (fst item) prefix)
                           _excludeLabelKeyPrefixes)
          then Js.obj_set acc (fst item) (snd item)
          else acc)
       labels [] in
   dumpJson cfg (stringify_entries filteredLabels)
            (path_join (apiBasePath cfg ++ [lang_code lang; "labels"%string])) ;;;
   navigation <- fetchEndpoint cfg (navigation_list_path lang) "" ;;
   let navigation := json_items (fst navigation) in
   dumpJson cfg (JSON_stringify navigation)
            (path_join (apiBasePath cfg ++ [lang_code lang; "navigation"%string])) ;;;
   let dynamicPageResolvers : gmap string DynamicPageResolver := ∅ in
   pages <- buildPages cfg (as_navigation navigation) dynamicPageResolvers ;;
   ret (pageLinks
        ++ map (fun page =>
                  "- [" +:+ label_link (label page) +:+ "]("
                  +:+ Js.toString (localPath page) +:+ ")") pages))%eff.

Fixpoint generateLangs (cfg : Config) (_excludeLabelKeyPrefixes : list string)
    (pageLinks : list string) (langs : list HcLang) : outcome (list string) :=
  match langs with
  | [] => ret pageLinks
  | lang :: rest =>
      (pageLinks' <- generateLang cfg _excludeLabelKeyPrefixes pageLinks lang ;;
       generateLangs cfg _excludeLabelKeyPrefixes pageLinks' rest)%eff
  end.

(** [generateContent], run with the module configuration [cfg0]; the
    configuration it leaves behind is [configure cfg0 ...]. *)
Definition generateContent (cfg0 : Config) (apiBaseUrl' : string)
    (contentRootFolder : option string)
    (excludeLabelKeyPrefixes : option (list string)) : outcome unit :=
  let cfg := configure cfg0 apiBaseUrl' contentRootFolder in
  let _excludeLabelKeyPrefixes :=
    "hc_"%string :: default [] excludeLabelKeyPrefixes in
  (emit (Rm (contentBasePath cfg)) ;;;
   langs <- fetchEndpoint cfg lang_list_path "" ;;
   let langs := json_items (fst langs) in
   dumpJson cfg (JSON_stringify langs) (path_join (apiBasePath cfg ++ ["langs"%string])) ;;;
   pageLinks <- generateLangs cfg _excludeLabelKeyPrefixes [] (as_langs langs) ;;
   dumpFile cfg (Js.join newline pageLinks) "index" "md")%eff.

End WithCollaborators.

End Cms.

(* ================================================================== *)
(** * base/modules/generate-content/index.ts: resolvePlaceholders *)
(* ================================================================== *)

Module Base.

(** The input of [resolvePlaceholders]: a string, or an object given by
    its entries (a query-parameter template). *)
Inductive Input : Type :=
| Str (s : string)
| Obj (entries : list (string * string)).

(** What follows the opening brace of a token, in the language of
    [(\w+\.?)+\w+]: word characters and single dots, starting and ending
    with a word character, at least two characters. *)
Fixpoint body_tail (s : string) (prev_dot : bool) : bool :=
  match s with
  | EmptyString => negb prev_dot
  | String c s' =>
      if Js.is_word c then body_tail s' false
      else if Ascii.eqb c "." then negb prev_dot && body_tail s' true
      else false
  end.

Definition token_body (s : string) : bool :=
  match s with
  | String c s' => Js.is_word c && Js.truthy s' && body_tail s' false
  | EmptyString => false
  end.

Definition is_body_char (c : ascii) : bool := Js.is_word c || Ascii.eqb c ".".

(** The token pattern tried at the start of [s]: the characters between
    the braces are exactly the longest run of word characters and dots. *)
Definition match_token (s : string) : option string :=
  match s with
  | String c rest =>
      if Ascii.eqb c "{" then
        let '(body, r) := Js.span is_body_char rest in
        match r with
        | String d _ =>
            if Ascii.eqb d "}" && token_body body then Some body else None
        | EmptyString => None
        end
      else None
  | EmptyString => None
  end.

Fixpoint tokens_go (s : string) (skip : nat) : list string :=
  match s with
  | EmptyString => []
  | String c s' =>
      match skip with
      | S k => tokens_go s' k
      | O =>
          match match_token s with
          | Some body => body :: tokens_go s' (String.length body + 1)
          | None => tokens_go s' 0
          end
      end
  end.

(** The bodies of the matches of the token pattern in [input], in order;
    the matched text of a body is [token_text body]. *)
Definition tokens (input : string) : list string := tokens_go input 0.

Definition token_text (body : string) : string := "{" +:+ body +:+ "}".

Section WithValues.

(** [get] of the helpers module, applied to the context, a dotted path
    and the default [''], and converted to a string. *)
Variable Values : Type.
Variable get : Values -> string -> string.

Definition replaceInString (values : Values) (input : string) : string :=
  fold_left
    (fun input body => Js.replaceAll input (token_text body) (get values body))
    (tokens input) input.

Definition resolvePlaceholders (input : Input) (values : Values) : string :=
  match input with
  | Obj entries =>
      fold_left
        (fun acc kv =>
           let replaced := replaceInString values (snd kv) in
           if negb (Js.truthy replaced) then acc
           else
             let acc := acc +:+ (if Js.truthy acc then "&" else "?") in
             acc +:+ fst kv +:+ "=" +:+ replaced)
        entries EmptyString
  | Str s => if Js.truthy s then replaceInString values s else s
  end.

End WithValues.

End Base.

(* ================================================================== *)
(** * cms/composables/useHcNavigation.ts: _loadNavigation *)
(* ================================================================== *)

Module Navigation.

Record HcPage : Type := {
  id : Z;
  path : string;
  label : string;
  sort : Z;
  show : string
}.

Inductive NavigationItem : Type :=
| NavItem (pageId : Z) (path label : string) (sort : Z) (show : string)
          (children : option (list NavigationItem)).

Definition pageId (n : NavigationItem) := let '(NavItem i _ _ _ _ _) := n in i.
Definition item_path (n : NavigationItem) := let '(NavItem _ p _ _ _ _) := n in p.
Definition children (n : NavigationItem) := let '(NavItem _ _ _ _ _ c) := n in c.

(** The object literal built from a page, without [children]. *)
Definition item_of (page : HcPage) : NavigationItem :=
  NavItem (id page) (path page) (label page) (sort page) (show page) None.

(** [if (!o.children) o.children = []; o.children.push(child)]. *)
Definition push_child (child : NavigationItem) (o : NavigationItem) : NavigationItem :=
  let '(NavItem i p l s sh c) := o in
  NavItem i p l s sh (Some (default [] c ++ [child])).

Definition hasChild (page next : HcPage) : bool :=
  negb (String.eqb (path next) (path page))
  && Nat.ltb (String.length (path page)) (String.length (path next))
  && Js.includes (path next) (path page).

Definition isFirstLevel (page : HcPage) : bool :=
  Nat.eqb (length (Js.split "/" (path page))) 3.

(** The objects the loop shares: [heap] holds every object that is an
    element of [_navigation] or the target of [parent], by address;
    [_navigation] is the array of addresses; [minus_one] is the property
    ["-1"] that [_navigation[parentIndex] = parent] sets on the array
    when [findIndex] returns [-1] (not an element of the array). *)
Record Loop : Type := {
  heap : list NavigationItem;
  _navigation : list nat;
  minus_one : option nat;
  parent : option nat
}.

Definition Loop_init : Loop :=
  {| heap := []; _navigation := []; minus_one := None; parent := None |}.

(** [_navigation.findIndex(n => n.pageId === i)]. *)
Fixpoint findIndex (h : list NavigationItem) (i : Z) (nav : list nat) (k : nat) : option nat :=
  match nav with
  | [] => None
  | a :: rest =>
      if match h !! a with Some n => Z.eqb (pageId n) i | None => false end
      then Some k else findIndex h i rest (S k)
  end.

(** [index < pageList.length && pageList[index + 1]]. *)
Definition lookahead (pageList : list HcPage) (index : nat) : option HcPage :=
  if Nat.ltb index (length pageList) then pageList !! (index + 1) else None.

Definition reassigns (page : HcPage) (next : option HcPage) : bool :=
  match next with
  | Some n => hasChild page n
  | None => false
  end.

(** The page is added under the parent, or at the top level. *)
Definition place (page : HcPage) (st : Loop) : Loop :=
  let parent1 := if isFirstLevel page then None else parent st in
  match parent1 with
  | Some a =>
      {| heap := alter (push_child (item_of page)) a (heap st);
         _navigation := _navigation st;
         minus_one := minus_one st;
         parent := parent1 |}
  | None =>
      {| heap := heap st ++ [item_of page];
         _navigation := _navigation st ++ [length (heap st)];
         minus_one := minus_one st;
         parent := parent1 |}
  end.

(** The page becomes the parent: a new object, stored in the array where
    an element with its [pageId] is found. *)
Definition adopt (page : HcPage) (st : Loop) : Loop :=
  let a := length (heap st) in
  let h := heap st ++ [item_of page] in
  match findIndex h (id page) (_navigation st) 0 with
  | Some parentIndex =>
      {| heap := h;
         _navigation := <[parentIndex := a]> (_navigation st);
         minus_one := minus_one st;
         parent := Some a |}
  | None =>
      {| heap := h;
         _navigation := _navigation st;
         minus_one := Some a;
         parent := Some a |}
  end.

(** One iteration of the loop. *)
Definition step (pageList : list HcPage) (st : Loop) (index : nat) : Loop :=
  match pageList !! index with
  | None => st
  | Some page =>
      let next := lookahead pageList index in
      let st := place page st in
      if reassigns page next then adopt page st else st
  end.

Definition run_loop (pageList : list HcPage) : Loop :=
  fold_left (step pageList) (seq 1 (length pageList - 1)) Loop_init.

(** The state before the iteration of index [index]. *)
Definition state_before (pageList : list HcPage) (index : nat) : Loop :=
  fold_left (step pageList) (seq 1 (index - 1)) Loop_init.

(** Addresses held by the loop point into the heap. *)
Definition well_formed (st : Loop) : Prop :=
  Forall (fun a => a < length (heap st)) (_navigation st)
  /\ (forall a, parent st = Some a -> a < length (heap st)).

(** The array read back: each element with the children it has got. *)
Definition snapshot (st : Loop) : list NavigationItem :=
  omap (fun a => heap st !! a) (_navigation st).

(** The three pieces of shared state of the composable. *)
Record Store : Type := {
  homePage : option HcPage;
  navigation : list NavigationItem;
  pages : gmap Z HcPage
}.

(** [_loadNavigation] on the page list found ([None] when the query finds
    nothing); the result is [None] when reading [pageList[0].id] of an
    empty list throws. *)
Definition _loadNavigation (found : option (list HcPage)) (st : Store) : option Store :=
  match found with
  | None => Some {| homePage := homePage st; navigation := []; pages := ∅ |}
  | Some pageList =>
      match pageList with
      | [] => None
      | home :: _ =>
          Some {| homePage := Some home;
                  navigation := snapshot (run_loop pageList);
                  pages := fold_left (fun m page => <[id page := page]> m)
                                     pageList (pages st) |}
      end
  end.

End Navigation.
(* ================================================================== *)
(** * The file tree a trace acts on *)
(* ================================================================== *)

Module Fs.

(** A file is told by the segments of its absolute path; the path a
    primitive is handed is resolved against the working directory [cwd].
    [p] is [root] or lies beneath it. *)
Fixpoint under (root p : list string) : bool :=
  match root, p with
  | [], _ => true
  | r :: root', q :: p' => String.eqb r q && under root' p'
  | _ :: _, [] => false
  end.

(** [rm] with [recursive] and [force] removes the target and everything
    beneath it; [writeFile] sets the text of one file; [mkdir] and
    [fetch] leave the files as they are. *)
Definition apply_event (cwd : string) (files : gmap (list string) string) (e : event)
    : gmap (list string) string :=
  match e with
  | Rm target =>
      filter (fun kv => under (Path.resolve cwd (Cms.path_join target)) (fst kv) = false)
             files
  | WriteFile target content =>
      <[Path.resolve cwd (Cms.path_join target) := content]> files
  | Mkdir _ => files
  | Fetch _ => files
  end.

Definition apply_trace (cwd : string) (t : list event) (files : gmap (list string) string)
    : gmap (list string) string :=
  fold_left (apply_event cwd) t files.

(** The files a trace writes, in order. *)
Definition written (t : list event) : list (list string) :=
  flat_map (fun e => match e with WriteFile target _ => [target] | _ => [] end) t.

End Fs.

(* ================================================================== *)
(** * A concrete set of collaborators

    Used to run the models on concrete inputs.  JSON values are reduced
    to an optional page content; a URL containing [draft] serves a
    draft, every other URL a published page with one container block. *)
(* ================================================================== *)

Module Demo.

Import Cms.

Definition hero : HcPageBlock :=
  Block (Some "Hero"%string) None
        [("title"%string, Primitive "Hi"); ("n"%string, Primitive "12")]
        [Block None (Some "hello"%string) [] [];
         Block (Some "Card"%string) None [] []].

Definition published : HcPageContent :=
  {| state := "published"; blocks := [hero] |}.

Definition draft : HcPageContent :=
  {| state := "draft"; blocks := [hero] |}.

#[export] Instance collaborators : Collaborators := {|
  Json := option HcPageContent;
  HcLang := string;
  lang_code := fun code => code;
  http_json := fun url => if Js.includes url "draft" then Some draft else Some published;
  JSON_stringify := fun _ => "{}"%string;
  JSON_parse := fun _ => None;
  stringify_entries := fun _ => "{}"%string;
  json_items := fun j => j;
  json_detail_content := fun j => j;
  as_langs := fun _ => ["en"%string];
  as_labels := fun _ => [];
  as_navigation := fun _ => [];
  as_content := fun j => j;
  lang_list_path := "/langs";
  label_list_path := fun code => "/labels/" +:+ code;
  navigation_list_path := fun code => "/navigation/" +:+ code;
  content_detail_path := fun page => "/content" +:+ path page;
  pascalToKebab := fun t => toLowerCase (Js.toString t)
|}.

Definition page (p sp sh : string) : ImportingPage :=
  {| id := 0; path := p; sortedPath := sp; label := p; sort := 0; show := sh;
     access := None; localPath := None; localSortedPath := None;
     hasDynamicContent := None; entity := None |}.

(** A page of the navigation listing. *)
Definition nav_page (i : Z) (p : string) : Navigation.HcPage :=
  {| Navigation.id := i; Navigation.path := p; Navigation.label := p;
     Navigation.sort := i; Navigation.show := "always" |}.

(** The city of Lausanne, and a city whose slug is a dollar sign
    followed by a backtick. *)
Definition lausanne : Entity :=
  {| entity_get := {[ "slug"%string := "lausanne"%string;
                      "label"%string := "Lausanne"%string ]};
     entity_json := "{}" |}.

Definition backtick_city : Entity :=
  {| entity_get := {[ "slug"%string := "$`"%string ]}; entity_json := "{}" |}.

Definition geneva : Entity :=
  {| entity_get := {[ "slug"%string := "geneva"%string;
                      "label"%string := "Geneva"%string ]};
     entity_json := "{}" |}.

(** A city whose price range is two dollar signs. *)
Definition pricey : Entity :=
  {| entity_get := {[ "slug"%string := "zug"%string;
                      "price"%string := "$$"%string ]};
     entity_json := "{}" |}.

(** The city of Bern, which opens at eight. *)
Definition bern : Entity :=
  {| entity_get := {[ "slug"%string := "bern"%string;
                      "label"%string := "Bern"%string;
                      "opens"%string := "8:00"%string ]};
     entity_json := "{}" |}.

(** A record with the short fields [a], [ab], [b], the field [next]
    that holds the beginning of a placeholder, and the empty fields [e]
    and [f]. *)
Definition letters : Entity :=
  {| entity_get := {[ "a"%string := "1"%string; "ab"%string := "2"%string;
                      "b"%string := "x"%string; "next"%string := ":city"%string;
                      "e"%string := ""%string; "f"%string := ""%string ]};
     entity_json := "{}" |}.

(** A resolver of the entity [city] that yields the two cities. *)
Definition resolvers : gmap string DynamicPageResolver :=
  {[ "city"%string :=
       {| endpoint_path := "/cities"; endpoint_queryParams := None;
          response := None; resolve := fun _ => [lausanne; geneva] |} ]}.

(** A context where [page.id] is [42] and nothing else is defined. *)
Definition lookup_demo (_ : unit) (body : string) : string :=
  if String.eqb body "page.id" then "42"%string else ""%string.

End Demo.

(* ================================================================== *)
(** * The notions the specification uses *)
(* ================================================================== *)

Module Spec.


(** [n] is a strict, longer, path-segment-prefixed extension of [p]: [p]
    followed by a separator and further segments. *)
Definition segment_extension (p n : string) : Prop :=
  exists rest, n = p +:+ "/" +:+ rest.



(** [s] contains the pattern colon, identifier, dot, identifier. *)
Definition has_placeholder (s : string) : Prop :=
  exists pre g1 g2 post,
    s = pre +:+ ":" +:+ g1 +:+ "." +:+ g2 +:+ post
    /\ g1 <> ""%string /\ g2 <> ""%string
    /\ Js.all Js.is_word g1 = true /\ Js.all Js.is_word g2 = true.

(** [s] is made of word characters. *)
Definition word (s : string) : Prop := Js.all Js.is_word s = true.

(** [s] holds no colon; [s] holds no dollar sign. *)
Definition no_colon (s : string) : Prop :=
  Js.all (fun c => negb (Ascii.eqb c ":")) s = true.
Definition no_dollar (s : string) : Prop :=
  Js.all (fun c => negb (Ascii.eqb c "$")) s = true.

(** [s] does not start with a word character (it is empty, or starts
    with another character). *)
Definition starts_nonword (s : string) : Prop :=
  match s with
  | String c _ => Js.is_word c = false
  | EmptyString => True
  end.

(** The value of a field of an entity record, as a text: the string
    form of the own property of that name, [undefined] when the record
    has none. *)
Definition value (entity : Cms.Entity) (fld : string) : string :=
  Js.toString (Cms.entity_get entity !! fld).

(** The field is read from the record itself, or is found nowhere: its
    name is an own property, or not the name of a member of
    [Object.prototype]. *)
Definition plain_field (entity : Cms.Entity) (fld : string) : Prop :=
  is_Some (Cms.entity_get entity !! fld) \/ Js.inherited fld = false.

(** The expansion as the specification words it: every occurrence of a
    placeholder gives way to the entity's value of its field. *)
Definition expand (entity : Cms.Entity) (s : string) : string :=
  Cms.replace_placeholders (fun _ fld => value entity fld) s.

(** A cut text put together again, the placeholders listed in [done]
    having given way to their values, the others standing. *)
Definition expand_only (done : list string) (entity : Cms.Entity)
    (ps : list Cms.piece) : string :=
  fold_right
    (fun pc acc =>
       match pc with
       | Cms.Text c => String c acc
       | Cms.Placeholder g1 g2 =>
           (if existsb (String.eqb (Cms.placeholder_text g1 g2)) done
            then value entity g2
            else Cms.placeholder_text g1 g2) +:+ acc
       end) EmptyString ps.

(** [w] and [k] part: neither is the beginning of the other. *)
Definition apart (w k : string) : bool :=
  negb (Js.startsWith w k) && negb (Js.startsWith k w).

(** No colon of [u] begins [:k], nor a beginning of [:k] that runs to
    the end of [u]: what follows each colon of [u], up to the end of
    [u], parts from [k]. *)
Fixpoint clear (k u : string) : bool :=
  match u with
  | EmptyString => true
  | String c u' => (if Ascii.eqb c ":" then apart u' k else true) && clear k u'
  end.

(** The text that runs up to the next placeholder of a cut text. *)
Fixpoint text_run (ps : list Cms.piece) : string :=
  match ps with
  | Cms.Text c :: ps' => String c (text_run ps')
  | _ => EmptyString
  end.

(** The same for the colons a cut text holds outside its placeholders:
    what follows each, up to the next placeholder, parts from [k]. *)
Fixpoint clear_text (k : string) (ps : list Cms.piece) : bool :=
  match ps with
  | [] => true
  | Cms.Text c :: ps' =>
      (if Ascii.eqb c ":" then apart (text_run ps') k else true) && clear_text k ps'
  | Cms.Placeholder _ _ :: ps' => clear_text k ps'
  end.

(** Every placeholder of a cut text is one of the entity [name], and its
    field is read as a text, which holds no dollar sign and no colon that
    could begin a placeholder of the entity. *)
Definition bound_piece (name : string) (entity : Cms.Entity) (pc : Cms.piece) : Prop :=
  match pc with
  | Cms.Text _ => True
  | Cms.Placeholder g1 g2 =>
      g1 = name
      /\ plain_field entity g2
      /\ no_dollar (value entity g2)
      /\ clear (name +:+ ".") (value entity g2) = true
  end.

(** No placeholder of the list is the beginning of another one. *)
Definition prefix_free (ms : list string) : Prop :=
  forall q q', In q ms -> In q' ms -> Js.startsWith q' q = true -> q = q'.

(** [s] contains a brace-delimited dotted-path token. *)
Definition has_token (s : string) : Prop :=
  exists pre body post,
    s = pre +:+ "{" +:+ body +:+ "}" +:+ post /\ Base.token_body body = true.

(** Number of colons that open a line, after its indentation. *)
Fixpoint leading (c : ascii) (s : string) : nat :=
  match s with
  | String d s' => if Ascii.eqb d c then S (leading c s') else 0
  | EmptyString => 0
  end.

Definition colon_run (line : string) : nat :=
  leading ":" (Js.drop (leading " " line) line).

(** The layout of a container block as the specification words it: an
    opening line, the children serialized one level deeper with every
    line indented by two spaces per level, a closing line, both fences
    with [D + 2] colons. *)
Definition claimed_container_layout `{Cms.Collaborators}
    (block : Cms.HcPageBlock) (D : nat) : Prop :=
  let inner :=
    flat_map (fun child => Cms.processBlock child (D + 1)) (Cms.children block) in
  exists opening closing,
    Cms.processBlock block D = opening :: inner ++ [closing]
    /\ colon_run opening = D + 2
    /\ colon_run closing = D + 2
    /\ Forall (fun line => Js.startsWith line (Js.copies " " (2 * (D + 1))) = true) inner.

(** A child of this node has no children of its own. *)
Definition flat (n : Navigation.NavigationItem) : Prop :=
  match Navigation.children n with
  | Some cs => Forall (fun c => Navigation.children c = None) cs
  | None => True
  end.

End Spec.

(* ================================================================== *)
(** * cms/composables/useHcNavigation.ts: the page lookups *)
(* ================================================================== *)

Module Lookup.

Import Navigation.

(** [stripTrailingSlash]: the pattern (any characters of one line, a
    slash, the end of the text) matches exactly when the path ends with
    a slash, and the replacement puts back what precedes that slash: one
    trailing slash is dropped. *)
Fixpoint stripTrailingSlash (path : string) : string :=
  match path with
  | EmptyString => EmptyString
  | String c rest =>
      match rest with
      | EmptyString => if Ascii.eqb c "/" then EmptyString else path
      | String _ _ => String c (stripTrailingSlash rest)
      end
  end.

(** [getPageByPath], over [values = Object.values(pages.value)]. *)
Definition getPageByPath (values : list HcPage) (path : string) : option HcPage :=
  List.find
    (fun page =>
       String.eqb (stripTrailingSlash (Js.or_else (Navigation.path page) ""))
                  (stripTrailingSlash path))
    values.

(** [s.lastIndexOf(c)], counted from [pos]; [None] for [-1]. *)
Fixpoint lastIndexOf (s : string) (c : ascii) (pos : nat) : option nat :=
  match s with
  | EmptyString => None
  | String d s' =>
      match lastIndexOf s' c (S pos) with
      | Some k => Some k
      | None => if Ascii.eqb d c then Some pos else None
      end
  end.

(** [path.substring(0, path.lastIndexOf('/')) + '/:'] ([substring]
    takes a negative end for zero). *)
Definition stripPathDown (path : string) : string :=
  match lastIndexOf path "/" 0 with
  | Some k => Cms.take k path
  | None => EmptyString
  end +:+ "/:".

(** [s.match] with the pattern of a colon followed by one or more
    characters other than the slash: the index of the first such colon
    and the longest run after it. *)
Fixpoint match_dynamic (s : string) (pos : nat) : option (nat * string) :=
  match s with
  | EmptyString => None
  | String c s' =>
      if Ascii.eqb c ":" then
        match fst (Js.span (fun d => negb (Ascii.eqb d "/")) s') with
        | EmptyString => match_dynamic s' (S pos)
        | String _ _ as g => Some (pos, g)
        end
      else match_dynamic s' (S pos)
  end.

(** [resolveDynamicPage]: [None] stands for the empty object. *)
Definition resolveDynamicPage (path : string) (page : HcPage) : option (string * string) :=
  match match_dynamic (Navigation.path page) 0 with
  | Some (index, g) =>
      if negb (Nat.eqb index 0)
         && String.eqb (stripPathDown path)
                       (Js.replace (Navigation.path page) (":" +:+ g) ":")
      then Some (g, Js.drop index path)
      else None
  | None => None
  end.

(** The value of [currentPage]: a page, and the [resolveSlug] the
    resolution of a dynamic page adds to it. *)
Record CurrentPage : Type := {
  page : HcPage;
  resolveSlug : option string
}.

(** The loop over the pages that ends [currentPage]. *)
Fixpoint resolveDynamic (route : string) (values : list HcPage) : option CurrentPage :=
  match values with
  | [] => None
  | page :: rest =>
      match resolveDynamicPage route page with
      | Some (key, value) =>
          if Js.truthy key && Js.truthy value then
            Some {| page := {| id := id page; path := Navigation.path page;
                               label := value; sort := sort page; show := show page |};
                    resolveSlug := Some (key +:+ "=" +:+ value) |}
          else resolveDynamic route rest
      | None => resolveDynamic route rest
      end
  end.

Definition currentPage (values : list HcPage) (route : string) : option CurrentPage :=
  match getPageByPath values route with
  | Some staticPage => Some {| page := staticPage; resolveSlug := None |}
  | None => resolveDynamic route values
  end.

End Lookup.

(* ================================================================== *)
(** * cms/composables/useHcNavigation.ts: useHcLangs *)
(* ================================================================== *)

Module Langs.

Record Lang : Type := {
  code : string;
  isDefault : bool
}.

Record LangStore : Type := {
  langs : list Lang;
  defaultLang : option Lang
}.

(** [_loadLangs] on the list found ([None] when the query finds
    nothing). *)
Definition _loadLangs (found : option (list Lang)) (st : LangStore) : LangStore :=
  let langs1 := match found with Some l => l | None => langs st end in
  {| langs := langs1;
     defaultLang := match List.find isDefault langs1 with
                    | Some defaultLangItem => Some defaultLangItem
                    | None => defaultLang st
                    end |}.

(** [route.path.split('/')[1]]. *)
Definition currentLangCode (route : string) : option string :=
  Js.split "/" route !! 1.

Definition currentLang (st : LangStore) (route : string) : option Lang :=
  match List.find (fun lang => match currentLangCode route with
                               | Some c => String.eqb (code lang) c
                               | None => false
                               end) (langs st) with
  | Some lang => Some lang
  | None => defaultLang st
  end.

(** The language code [_loadNavigation] asks the navigation for:
    [currentLangCode.value || defaultLang.value?.code || 'en']. *)
Definition langCode (st : LangStore) (route : string) : string :=
  Js.or_else (default EmptyString (currentLangCode route))
    (Js.or_else (default EmptyString (code <$> defaultLang st)) "en").

End Langs.

(* ================================================================== *)
(** * cms/modules/hypercontent.ts: the [ready] hook *)
(* ================================================================== *)

Module Hook.

Import Cms.

(** [options.generateContent]; [customContentApiEndpoints] is handed to
    [generateContent], which does not read it. *)
Record GenerateContentOptions : Type := {
  enabled : option bool;
  apiBaseUrl : option string;
  contentRootFolder : option string;
  excludeLabelKeyPrefixes : option (list string)
}.

Definition defaults : GenerateContentOptions :=
  {| enabled := Some false;
     apiBaseUrl := Some "http://localhost:8090/api"%string;
     contentRootFolder := Some "content"%string;
     excludeLabelKeyPrefixes := Some [] |}.

Section WithCollaborators.
Context `{Collaborators}.

Definition ready (cfg0 : Config) (options : GenerateContentOptions) : outcome unit :=
  if default false (enabled options) then
    if Js.truthy (default EmptyString (apiBaseUrl options)) then
      generateContent cfg0 (default EmptyString (apiBaseUrl options))
                      (contentRootFolder options) (excludeLabelKeyPrefixes options)
    else ret tt
  else ret tt.

End WithCollaborators.

End Hook.

(* ================================================================== *)
(** * base/modules/generate-content/index.ts: the serializer, the front
      matter and the resolver name of a path *)
(* ================================================================== *)

Module BasePages.

(** A block as [json2mdc] reads it: [type], [data?.text] and the
    entries of [data?.props || {}]. *)
Record Block : Type := {
  type : option string;
  data_text : option string;
  data_props : list (string * Cms.PropValue)
}.

(** [json.contents[0]], with [blocks] as [JSON.parse] returns it. *)
Record Content : Type := {
  state : string;
  blocks : list Block
}.

Section WithHelpers.

(** [pascalToKebab] of the helpers module. *)
Variable pascalToKebab : option string -> string.

(** What one block adds to [mdContent]; the loop over the properties is
    the one of [processBlockProps]. *)
Definition block_text (block : Block) : string :=
  if match type block with Some t => String.eqb t "paragraph" | None => false end then
    "::block-p" +:+ Cms.newline +:+ Js.toString (data_text block) +:+ Cms.newline
    +:+ "::" +:+ Cms.newline
  else
    let componentName := ":" +:+ pascalToKebab (type block) in
    let componentName :=
      if Js.startsWith componentName ":session"
      then Js.replace componentName ":session" ":event"
      else componentName in
    let componentProps :=
      map (fun kv => Cms.componentProp (fst kv) (snd kv)) (data_props block) in
    let mdContent := componentName in
    let mdContent :=
      match componentProps with
      | [] => mdContent
      | _ :: _ => mdContent +:+ "{" +:+ Js.join " " componentProps +:+ "}"
      end in
    mdContent +:+ Cms.newline.

Definition json2mdc (content : option Content) : option string :=
  match content with
  | None => None
  | Some content =>
      if negb (String.eqb (state content) "published") then None
      else Some (fold_left (fun mdContent block => mdContent +:+ block_text block)
                           (blocks content) EmptyString)
  end.

End WithHelpers.

(** The fields of a page that [getFrontMatter] reads. *)
Record Page : Type := {
  show : string;
  access : option string
}.

(** [getFrontMatter] of the base module: the access level is printed as
    it is. *)
Definition getFrontMatter (page : Page) (apiUrl : string) : string :=
  let ymlContent := "---" +:+ Cms.newline in
  let ymlContent :=
    if negb (String.eqb (show page) "always")
    then ymlContent +:+ "navigation: false" +:+ Cms.newline
    else ymlContent in
  let ymlContent :=
    ymlContent +:+ "access: " +:+ Js.toString (access page) +:+ Cms.newline in
  let ymlContent := ymlContent +:+ "apiUrl: " +:+ apiUrl +:+ Cms.newline in
  ymlContent +:+ "---" +:+ Cms.newline +:+ Cms.newline.

(** The resolver name [buildPages] derives from a page path: the entity
    names of all its dynamic segments, joined. *)
Definition entityName (pagePath : string) : string :=
  Js.join ""
    (map (fun p => default EmptyString (Js.split "." (Js.drop 1 p) !! 0))
         (List.filter (fun p => Js.includes p ":") (Js.split "/" pagePath))).

End BasePages.

(* ================================================================== *)
(** * Notions used by the further properties *)
(* ================================================================== *)

Module Notions.

(** The character [c] does not occur in [s]. *)
Definition lacks (c : ascii) (s : string) : Prop :=
  Js.all (fun d => negb (Ascii.eqb d c)) s = true.

(** Number of lines a block gives: one for a raw text or a block
    without children, two fences around the lines of the children
    otherwise. *)
Fixpoint line_count (block : Cms.HcPageBlock) : nat :=
  match block with
  | Cms.Block _ _ _ kids =>
      if Cms.is_raw_text block then 1
      else match kids with
           | [] => 1
           | _ :: _ => 2 + list_sum (map line_count kids)
           end
  end.

(** What the reducer of [getEntityDefFromPath] reads from one segment. *)
Definition segment_def (p : string) : Cms.DynamicContentEntityDef :=
  let parts := Js.split "." (Js.drop 1 p) in
  {| Cms.name := default EmptyString (parts !! 0); Cms.field := parts !! 1 |}.

(** An event that stays within the configuration: a removal of the
    content root itself, a write beneath the content root, a request to
    the API base URL. *)
Definition confined (cfg : Cms.Config) (e : event) : Prop :=
  match e with
  | Rm target => target = Cms.contentBasePath cfg
  | WriteFile target _ =>
      exists rest, rest <> [] /\ target = Cms.contentBasePath cfg ++ rest
  | Mkdir _ => True
  | Fetch url => Js.startsWith url (Cms.apiBaseUrl cfg) = true
  end.

Definition is_rm (e : event) : bool :=
  match e with Rm _ => true | _ => false end.

(** The query string of the pairs kept by [resolvePlaceholders]. *)
Definition query_string (kept : list (string * string)) : string :=
  match kept with
  | [] => EmptyString
  | _ :: _ => "?" +:+ Js.join "&" (map (fun kv => fst kv +:+ "=" +:+ snd kv) kept)
  end.

(** The fields of a page that [buildPages] leaves as they are. *)
Definition same_page (p q : Cms.ImportingPage) : Prop :=
  Cms.id p = Cms.id q /\ Cms.path p = Cms.path q
  /\ Cms.sortedPath p = Cms.sortedPath q /\ Cms.label p = Cms.label q
  /\ Cms.sort p = Cms.sort q /\ Cms.show p = Cms.show q
  /\ Cms.access p = Cms.access q
  /\ Cms.hasDynamicContent p = Cms.hasDynamicContent q
  /\ Cms.entity p = Cms.entity q.

(** The line feed, and the lines of a text. *)
Definition line_feed : ascii := ascii_of_nat 10.
Definition lines (s : string) : list string := Js.split line_feed s.

(** Number of occurrences of the character [c] in [s]. *)
Fixpoint occurrences (c : ascii) (s : string) : nat :=
  match s with
  | EmptyString => 0
  | String d s' => (if Ascii.eqb d c then 1 else 0) + occurrences c s'
  end.

(** The label filter of [generateContent]: the labels whose key starts
    with none of the prefixes. *)
Definition kept_labels {V : Type} (prefixes : list string) (labels : list (string * V))
    : list (string * V) :=
  List.filter
    (fun item => negb (existsb (fun prefix => Js.startsWith (fst item) prefix) prefixes))
    labels.

(** The identifiers at the top level of the navigation array. *)
Definition ids (st : Navigation.Loop) : list Z :=
  map Navigation.pageId (Navigation.snapshot st).

(** The state of the loop after the pages [done]: the identifiers at
    the top level are those of some of these pages, in order, all the
    first-level ones among them. *)
Definition top_level (st : Navigation.Loop) (done : list Navigation.HcPage) : Prop :=
  Navigation.well_formed st
  /\ exists l, ids st = map Navigation.id l
               /\ sublist l done
               /\ sublist (List.filter Navigation.isFirstLevel done) l.




(** The value a key was given last in a list of writes. *)
Definition last_value {V : Type} (writes : list (string * V)) (key : string) : option V :=
  snd <$> List.find (fun item => String.eqb (fst item) key) (rev writes).

(** The object a list of writes [o[key] = value] leaves, from the empty
    object. *)
Definition written_object {V : Type} (writes : list (string * V)) : list (string * V) :=
  fold_left (fun acc item => Js.obj_set acc (fst item) (snd item)) writes [].


(** A component of a path that [normalize] passes over: the empty one
    and the dot. *)
Definition passed_over (seg : string) : bool :=
  String.eqb seg "" || String.eqb seg ".".

(** A component that [normalize] adds to the path it builds. *)
Definition plain_segment (seg : string) : bool :=
  negb (passed_over seg) && negb (String.eqb seg "..").

(** The components, between slashes, of the segments [join] is handed. *)
Definition components (segments : list string) : list string :=
  flat_map (Js.split "/") (List.filter Js.truthy segments).

(** No component is the step to the parent directory. *)
Definition no_up (segments : list string) : bool :=
  forallb (fun c => negb (String.eqb c "..")) (components segments).

(** What the segments of a written file add to the content root holds
    no step to the parent directory. *)
Definition keeps_below (cfg : Cms.Config) (t : list event) : bool :=
  forallb (fun target => no_up (drop (length (Cms.contentBasePath cfg)) target))
          (Fs.written t).

(** Where a path given by segments starts from: the root when it is
    absolute, the working directory otherwise. *)
Definition origin (cwd : string) (segments : list string) : list string :=
  if Js.startsWith (Js.join "/" (List.filter Js.truthy segments)) "/" then []
  else Js.split "/" cwd.

(** An event of the body of a run: no removal, and within the
    configuration. *)
Definition quiet (cfg : Cms.Config) (e : event) : Prop :=
  is_rm e = false /\ confined cfg e.

End Notions.

(* ================================================================== *)
(** * Further sample values *)
(* ================================================================== *)

Module Samples.

Import Cms.

(** The template of the city pages. *)
Definition city_template : ImportingPage :=
  {| id := 7; path := "/en/cities/:city.slug";
     sortedPath := "/en/1.cities/1.:city.slug"; label := ":city.label";
     sort := 0; show := "always"; access := None; localPath := None;
     localSortedPath := None; hasDynamicContent := None; entity := None |}.

Definition nav_list : list Navigation.HcPage :=
  [Demo.nav_page 1 "/en"; Demo.nav_page 2 "/en/a"; Demo.nav_page 3 "/en/a/x";
   Demo.nav_page 4 "/en/b"; Demo.nav_page 5 "/en/cities/:city.slug"].

Definition empty_store : Navigation.Store :=
  {| Navigation.homePage := None; Navigation.navigation := [];
     Navigation.pages := ∅ |}.

Definition english : Langs.Lang := {| Langs.code := "en"; Langs.isDefault := true |}.
Definition french : Langs.Lang := {| Langs.code := "fr"; Langs.isDefault := false |}.

Definition session_block : BasePages.Block :=
  {| BasePages.type := Some "SessionList"%string; BasePages.data_text := None;
     BasePages.data_props := [("n"%string, Primitive "3")] |}.

(** A stand-in for [pascalToKebab]: a hyphen before every capital but
    the first, then lower case. *)
Fixpoint kebab_go (first : bool) (s : string) : string :=
  match s with
  | EmptyString => EmptyString
  | String c s' =>
      if Js.is_upper c && negb first
      then String "-" (String (lower_char c) (kebab_go false s'))
      else String (lower_char c) (kebab_go false s')
  end.

Definition kebab (t : option string) : string := kebab_go true (Js.toString t).

End Samples.

(* ================================================================== *)
(** * Facts about the string primitives *)
(* ================================================================== *)

Module JsFacts.

Import Js.

Lemma app_nil_r (s : string) : s +:+ "" = s.
Proof. induction s as [|c s IH]; simpl; [reflexivity | now rewrite IH]. Qed.

Lemma app_assoc (a b c : string) : (a +:+ b) +:+ c = a +:+ (b +:+ c).
Proof. induction a as [|x a IH]; simpl; [reflexivity | now rewrite IH]. Qed.

Lemma length_app (a b : string) :
  String.length (a +:+ b) = String.length a + String.length b.
Proof. induction a as [|x a IH]; simpl; [reflexivity | now rewrite IH]. Qed.

Lemma all_app f a b : all f (a +:+ b) = all f a && all f b.
Proof.
  induction a as [|x a IH]; simpl; [reflexivity|].
  now rewrite IH, andb_assoc.
Qed.

Lemma length_copies c n : String.length (copies c n) = n.
Proof. induction n; simpl; congruence. Qed.

Lemma fill_single c cur n :
  cur = "" \/ cur = String c "" ->
  fill (String c "") cur n = copies c n.
Proof.
  revert cur; induction n as [|n IH]; intros cur Hc; [reflexivity|].
  destruct Hc as [-> | ->]; simpl; f_equal; apply IH; auto.
Qed.

Lemma padEnd_colons n : padEnd "" n ":" = copies ":" n.
Proof.
  unfold padEnd; simpl. rewrite Nat.sub_0_r. apply fill_single; auto.
Qed.

Lemma fill_spaces cur n :
  all (Ascii.eqb " ") cur = true ->
  fill "  " cur n = copies " " n.
Proof.
  revert cur; induction n as [|n IH]; intros cur Hc; [reflexivity|].
  destruct cur as [|c cur]; simpl.
  - f_equal. apply IH. reflexivity.
  - cbn [all] in Hc. apply andb_prop in Hc as [Hc1 Hc2].
    apply Ascii.eqb_eq in Hc1 as <-. f_equal. now apply IH.
Qed.

Lemma startsWith_app (p s : string) : startsWith (p +:+ s) p = true.
Proof.
  induction p as [|c p IH]; simpl; [reflexivity|].
  now rewrite Ascii.eqb_refl.
Qed.

Lemma startsWith_refl (s : string) : startsWith s s = true.
Proof. induction s as [|c s IH]; simpl; [reflexivity | now rewrite Ascii.eqb_refl]. Qed.

Lemma startsWith_split (s p : string) :
  startsWith s p = true -> exists rest, s = p +:+ rest.
Proof.
  revert s; induction p as [|c p IH]; intros s Hs.
  - now exists s.
  - destruct s as [|d s]; simpl in Hs; [discriminate|].
    apply andb_prop in Hs as [Hc Hs]. apply Ascii.eqb_eq in Hc as ->.
    destruct (IH _ Hs) as [rest ->]. now exists rest.
Qed.

Lemma drop_app (a b : string) : drop (String.length a) (a +:+ b) = b.
Proof. induction a as [|c a IH]; simpl; [now destruct b | exact IH]. Qed.

Lemma includes_unfold (s p : string) :
  includes s p =
  startsWith s p || match s with EmptyString => false | String _ s' => includes s' p end.
Proof. now destruct s. Qed.

Lemma includes_app (pre p post : string) : includes (pre +:+ p +:+ post) p = true.
Proof.
  induction pre as [|c pre IH]; simpl.
  - now rewrite includes_unfold, startsWith_app.
  - rewrite IH. apply orb_true_r.
Qed.

Lemma includes_split (s p : string) :
  includes s p = true -> exists pre post, s = pre +:+ p +:+ post.
Proof.
  induction s as [|c s IH]; simpl; intros Hs.
  - rewrite orb_false_r in Hs. apply startsWith_split in Hs as [rest ->].
    now exists ""%string, rest.
  - apply orb_prop in Hs as [Hs | Hs].
    + apply startsWith_split in Hs as [rest ->]. now exists ""%string, rest.
    + destruct (IH Hs) as (pre & post & ->). now exists (String c pre), post.
Qed.

(** [includes] is the substring relation. *)
Lemma includes_spec (s p : string) :
  includes s p = true <-> exists pre post, s = pre +:+ p +:+ post.
Proof.
  split; [apply includes_split|]. intros (pre & post & ->). apply includes_app.
Qed.

Lemma span_all f s : all f (fst (span f s)) = true.
Proof.
  induction s as [|c s IH]; simpl; [reflexivity|].
  destruct (f c) eqn:E; [|reflexivity].
  destruct (span f s); simpl in *. now rewrite E.
Qed.

Lemma span_app f s : fst (span f s) +:+ snd (span f s) = s.
Proof.
  induction s as [|c s IH]; simpl; [reflexivity|].
  destruct (f c); [|reflexivity].
  destruct (span f s); simpl in *. now rewrite IH.
Qed.

Lemma span_whole f s : all f s = true -> fst (span f s) = s.
Proof.
  induction s as [|c s IH]; simpl; intros Hs; [reflexivity|].
  apply andb_prop in Hs as [-> Hs]. specialize (IH Hs).
  destruct (span f s); simpl in *. now rewrite IH.
Qed.

(** A run followed by a character outside the class is the span. *)
Lemma span_stop f a rest :
  all f a = true ->
  match rest with String c _ => f c = false | EmptyString => True end ->
  span f (a +:+ rest) = (a, rest).
Proof.
  intros Ha Hr. induction a as [|c a IH]; simpl.
  - destruct rest as [|c rest]; simpl; [reflexivity | now rewrite Hr].
  - simpl in Ha. apply andb_prop in Ha as [-> Ha]. now rewrite (IH Ha).
Qed.

Lemma truthy_false s : truthy s = false -> s = ""%string.
Proof. now destruct s. Qed.

Lemma or_else_nonempty a b : a <> ""%string -> or_else a b = a.
Proof. destruct a; [congruence | reflexivity]. Qed.

(** Without a dollar sign the replacement text is taken literally. *)
Lemma getSubstitution_plain m b a r :
  all (fun c => negb (Ascii.eqb c "$")) r = true ->
  getSubstitution m b a r = r.
Proof.
  induction r as [|c r IH]; simpl; intros Hr; [reflexivity|].
  apply andb_prop in Hr as [Hc Hr]. apply negb_true_iff in Hc.
  rewrite Hc. now rewrite (IH Hr).
Qed.

Example padStart_counts_characters : padStart "" 3 "  " = "   "%string.
Proof. reflexivity. Qed.
Example replaceAll_dollar : replaceAll "a-b-c" "-" "$$+" = "a$+b$+c"%string.
Proof. reflexivity. Qed.
Example replaceAll_empty_pattern : replaceAll "abc" "" "-" = "-a-b-c-"%string.
Proof. reflexivity. Qed.
Example replaceAll_no_overlap : replaceAll "aaa" "aa" "b" = "ba"%string.
Proof. reflexivity. Qed.
Example replace_first_only : replace "/1.a/1.b" "/1." "/" = "/a/1.b"%string.
Proof. reflexivity. Qed.
Example split_keeps_empty_segments : split "/" "/en/a" = [""; "en"; "a"]%string.
Proof. reflexivity. Qed.

End JsFacts.

(* ================================================================== *)
(** * The block serializer *)
(* ================================================================== *)

Module BlockFacts.

Import Cms.

Section WithCollaborators.
Context `{Collaborators}.

Lemma indent_spaces (depth : nat) : indent depth = Js.copies " " depth.
Proof.
  unfold indent, Js.padStart. simpl. rewrite Nat.sub_0_r, JsFacts.app_nil_r.
  now apply JsFacts.fill_spaces.
Qed.

Lemma processBlock_unfold (block : HcPageBlock) (depth : nat) :
  processBlock block depth =
  if is_raw_text block then [default EmptyString (text block)]
  else
    let first :=
      indent depth +:+ mdComponentName block depth +:+ processBlockProps block in
    if negb (isInlineComponent block) then
      ([first] ++ flat_map (fun child => processBlock child (depth + 1)) (children block))
      ++ [indent depth +:+ Js.padEnd "" (depth + 2) ":"]
    else [first].
Proof. destruct block; reflexivity. Qed.

(** C3, as the code has it.  A container block that is not raw text,
    serialized at depth [D], gives an opening line made of the
    indentation of depth [D], a run of [D + 2] colons, the component name
    and its properties; then the serialization of its children at depth
    [D + 1], in order; then a closing line made of the same indentation
    and the same run of [D + 2] colons.  A block without children gives
    exactly one line.  A raw text block gives its text as one line
    whatever its depth and children.  The indentation holds spaces
    only. *)
Theorem processBlock_layout :
  (forall ty tx pr kids D,
      kids <> [] ->
      is_raw_text (Block ty tx pr kids) = false ->
      processBlock (Block ty tx pr kids) D =
      (indent D +:+ Js.copies ":" (D + 2) +:+ pascalToKebab ty
       +:+ processBlockProps (Block ty tx pr kids))
      :: flat_map (fun child => processBlock child (D + 1)) kids
      ++ [indent D +:+ Js.copies ":" (D + 2)])
  /\ (forall block D, children block = [] -> length (processBlock block D) = 1)
  /\ (forall block D,
        is_raw_text block = true ->
        processBlock block D = [default EmptyString (text block)])
  /\ (forall D, Js.all (Ascii.eqb " ") (indent D) = true).
Proof.
  repeat split.
  - intros ty tx pr kids D Hk Hraw.
    rewrite processBlock_unfold, Hraw.
    unfold isInlineComponent, mdComponentName, isInlineComponent.
    cbn [children type]. destruct kids as [|k kids]; [congruence|].
    cbn [negb]. cbv zeta. rewrite JsFacts.padEnd_colons.
    rewrite JsFacts.app_assoc. reflexivity.
  - intros block D Hk. rewrite processBlock_unfold.
    destruct (is_raw_text block); [reflexivity|].
    unfold isInlineComponent. rewrite Hk. reflexivity.
  - intros block D Hraw. now rewrite processBlock_unfold, Hraw.
  - intros D. rewrite indent_spaces. induction D; simpl; auto.
Qed.

End WithCollaborators.

#[local] Existing Instance Demo.collaborators.

(** The layout on the demo block, through the theorem. *)
Lemma processBlock_layout_witness :
  processBlock Demo.hero 0
  = ["::hero{title=" +:+ dquote +:+ "Hi" +:+ dquote +:+ " :n=12}";
     "hello"; " :card"; "::"]%string
  /\ length (processBlock (Block (Some "Card"%string) None [] []) 1) = 1
  /\ processBlock (Block None (Some "hello"%string) [] []) 1 = ["hello"%string].
Proof.
  destruct (processBlock_layout (H := Demo.collaborators)) as (Hc & Hi & Hr & _).
  split; [|split].
  - unfold Demo.hero. rewrite Hc; [reflexivity | discriminate | reflexivity].
  - apply Hi. reflexivity.
  - apply (Hr (Block None (Some "hello"%string) [] []) 1). reflexivity.
Defined.

(** C3 as worded fails: a raw text block with children has no fences;
    the raw text child of the demo block is not indented; and the fence
    of depth 0 has two colons, not three. *)
Lemma claimed_container_layout_fails :
  ~ Spec.claimed_container_layout
      (Block None (Some "hi"%string) [] [Block (Some "Card"%string) None [] []]) 0
  /\ ~ Spec.claimed_container_layout Demo.hero 0
  /\ (exists rest,
        processBlock Demo.hero 0 = ("::hero" +:+ rest) :: ["hello"; " :card"; "::"]%string
        /\ Spec.colon_run ("::hero" +:+ rest) = 2).
Proof.
  split; [|split].
  - intros (opening & closing & Heq & _). vm_compute in Heq. discriminate.
  - intros (opening & closing & _ & _ & _ & Hind).
    vm_compute in Hind. inversion Hind as [|? ? Hfirst _]. discriminate.
  - eexists. split; reflexivity.
Qed.

End BlockFacts.

(* ================================================================== *)
(** * The navigation tree reconstructor *)
(* ================================================================== *)

Module NavigationFacts.

Import Navigation.

Lemma place_well_formed page st : well_formed st -> well_formed (place page st).
Proof.
  intros [Hn Hp]. unfold place.
  destruct (isFirstLevel page); [|destruct (parent st) as [a|] eqn:Ep];
    split; cbn [heap _navigation parent].
  - rewrite length_app. simpl. apply Forall_app. split.
    + eapply Forall_impl; [exact Hn|]. intros; simpl in *; lia.
    + repeat constructor. lia.
  - discriminate.
  - now rewrite length_alter.
  - intros b [= <-]. rewrite length_alter. now apply Hp.
  - rewrite length_app. simpl. apply Forall_app. split.
    + eapply Forall_impl; [exact Hn|]. intros; simpl in *; lia.
    + repeat constructor. lia.
  - discriminate.
Qed.

Lemma adopt_well_formed page st : well_formed st -> well_formed (adopt page st).
Proof.
  intros [Hn Hp]. unfold adopt.
  assert (Hn' : Forall (fun a => a < length (heap st ++ [item_of page])) (_navigation st)).
  { eapply Forall_impl; [exact Hn|]. intros a Ha. rewrite length_app. simpl in *. lia. }
  destruct (findIndex _ _ _ _); split; cbn [heap _navigation parent].
  - apply Forall_insert; [exact Hn'|]. rewrite length_app. simpl. lia.
  - intros b [= <-]. rewrite length_app. simpl. lia.
  - exact Hn'.
  - intros b [= <-]. rewrite length_app. simpl. lia.
Qed.

Lemma step_well_formed pageList st index :
  well_formed st -> well_formed (step pageList st index).
Proof.
  intros Hw. unfold step. destruct (pageList !! index) as [page|]; [|exact Hw].
  destruct (reassigns _ _).
  - now apply adopt_well_formed, place_well_formed.
  - now apply place_well_formed.
Qed.

Lemma fold_step_invariant (P : Loop -> Prop) pageList :
  (forall st index, P st -> P (step pageList st index)) ->
  forall indices st, P st -> P (fold_left (step pageList) indices st).
Proof.
  intros Hstep indices. induction indices as [|i indices IH]; intros st Hst.
  - exact Hst.
  - simpl. apply IH, Hstep, Hst.
Qed.

Lemma init_well_formed : well_formed Loop_init.
Proof. split; [constructor | discriminate]. Qed.

Lemma state_before_well_formed pageList index :
  well_formed (state_before pageList index).
Proof.
  unfold state_before.
  apply (fold_step_invariant well_formed); [|exact init_well_formed].
  intros; now apply step_well_formed.
Qed.

Lemma hasChild_spec page next :
  hasChild page next = true <->
  path next <> path page
  /\ String.length (path page) < String.length (path next)
  /\ Js.includes (path next) (path page) = true.
Proof.
  unfold hasChild. rewrite !andb_true_iff, negb_true_iff.
  rewrite String.eqb_neq, Nat.ltb_lt. tauto.
Qed.





(** A path-segment extension is always recognised. *)
Lemma segment_extension_hasChild page next :
  Spec.segment_extension (path page) (path next) -> hasChild page next = true.
Proof.
  intros (rest & Hr). apply hasChild_spec. rewrite Hr. repeat split.
  - intros Heq. apply (f_equal String.length) in Heq.
    rewrite JsFacts.length_app in Heq. simpl in Heq. lia.
  - rewrite JsFacts.length_app. simpl. lia.
  - exact (JsFacts.includes_app "" (path page) ("/" +:+ rest)).
Qed.

(** C6.  On the list [/en, /en/a, /en/a/x, /en/b], whatever the
    identifiers, labels, sort keys and visibility of the four pages, the
    navigation is the forest of [a] with the single child [x], then [b]:
    the root is left out, [/en/a] and [/en/b] are first-level pages
    (two separators), [/en/a/x] is not. *)
Theorem navigation_of_example
    (i0 i1 i2 i3 : Z) (l0 l1 l2 l3 : string) (s0 s1 s2 s3 : Z)
    (h0 h1 h2 h3 : string) (st : Store) :
  let root := {| id := i0; path := "/en"; label := l0; sort := s0; show := h0 |} in
  let a := {| id := i1; path := "/en/a"; label := l1; sort := s1; show := h1 |} in
  let x := {| id := i2; path := "/en/a/x"; label := l2; sort := s2; show := h2 |} in
  let b := {| id := i3; path := "/en/b"; label := l3; sort := s3; show := h3 |} in
  (navigation <$> _loadNavigation (Some [root; a; x; b]) st)
  = Some [NavItem i1 "/en/a" l1 s1 h1 (Some [NavItem i2 "/en/a/x" l2 s2 h2 None]);
          NavItem i3 "/en/b" l3 s3 h3 None]
  /\ isFirstLevel root = false /\ isFirstLevel a = true
  /\ isFirstLevel x = false /\ isFirstLevel b = true.
Proof.
  cbv zeta. split; [|repeat split].
  unfold _loadNavigation, run_loop. cbn [fmap option_fmap option_map navigation].
  f_equal. cbn [length seq Nat.sub fold_left].
  unfold step at 3. cbn [lookup list_lookup].
  unfold lookahead, place, adopt, reassigns, hasChild, isFirstLevel.
  cbn -[Z.eqb].
  rewrite Z.eqb_refl. cbn -[Z.eqb].
  reflexivity.
Qed.

Lemma place_flat page st :
  Forall Spec.flat (heap st) -> Forall Spec.flat (heap (place page st)).
Proof.
  intros Hh. unfold place.
  destruct (isFirstLevel page); [|destruct (parent st) as [a|]]; cbn [heap].
  - apply Forall_app. split; [exact Hh|]. repeat constructor.
  - apply Forall_alter; [exact Hh|].
    intros [i p l s sh c] _ Hf. unfold Spec.flat in *. cbn in *.
    apply Forall_app. split.
    + destruct c; [exact Hf | constructor].
    + repeat constructor.
  - apply Forall_app. split; [exact Hh|]. repeat constructor.
Qed.

Lemma adopt_flat page st :
  Forall Spec.flat (heap st) -> Forall Spec.flat (heap (adopt page st)).
Proof.
  intros Hh. unfold adopt. destruct (findIndex _ _ _ _); cbn [heap];
    (apply Forall_app; split; [exact Hh | repeat constructor]).
Qed.

Lemma step_flat pageList st index :
  Forall Spec.flat (heap st) -> Forall Spec.flat (heap (step pageList st index)).
Proof.
  intros Hh. unfold step. destruct (pageList !! index); [|exact Hh].
  destruct (reassigns _ _).
  - now apply adopt_flat, place_flat.
  - now apply place_flat.
Qed.

Lemma snapshot_flat st : Forall Spec.flat (heap st) -> Forall Spec.flat (snapshot st).
Proof.
  intros Hh. unfold snapshot. apply Forall_forall. intros n Hn.
  apply list_elem_of_omap in Hn as (a & _ & Ha).
  eapply Forall_lookup_1; eauto.
Qed.

Lemma snapshot_place_detached child st a :
  isFirstLevel child = false ->
  parent st = Some a ->
  a ∉ _navigation st ->
  snapshot (place child st) = snapshot st.
Proof.
  intros Hc Hp Ha. unfold place. rewrite Hc, Hp. unfold snapshot. cbn [heap _navigation].
  induction (_navigation st) as [|b nav IH]; [reflexivity|].
  apply not_elem_of_cons in Ha as [Hab Ha]. cbn [omap list_omap].
  rewrite list_lookup_alter_ne by congruence.
  now rewrite <- (IH Ha).
Qed.

End NavigationFacts.

(* ================================================================== *)
(** * The placeholder resolver *)
(* ================================================================== *)

Module BaseFacts.

Import Base.

Lemma body_tail_chars s d : body_tail s d = true -> Js.all is_body_char s = true.
Proof.
  revert d; induction s as [|c s IH]; intros d; cbn [body_tail Js.all]; [reflexivity|].
  unfold is_body_char at 1.
  destruct (Js.is_word c); cbn [orb andb]; [apply IH|].
  destruct (Ascii.eqb c "."); [|discriminate].
  intros Hd. apply andb_prop in Hd as [_ Hd]. now apply IH in Hd.
Qed.

Lemma token_body_chars body : token_body body = true -> Js.all is_body_char body = true.
Proof.
  destruct body as [|c s]; [discriminate|]. unfold token_body.
  intros Hb. apply andb_prop in Hb as [Hb Ht]. apply andb_prop in Hb as [Hc _].
  cbn [Js.all]. unfold is_body_char at 1. rewrite Hc. cbn [orb andb].
  now apply body_tail_chars in Ht.
Qed.

Lemma match_token_sound s body :
  match_token s = Some body ->
  exists rest, s = "{" +:+ body +:+ "}" +:+ rest /\ token_body body = true.
Proof.
  destruct s as [|c s]; [discriminate|]. unfold match_token.
  destruct (Ascii.eqb_spec c "{") as [->|]; [|discriminate].
  pose proof (JsFacts.span_app is_body_char s) as Happ.
  destruct (Js.span is_body_char s) as [b r]. cbn [fst snd] in Happ.
  destruct r as [|d r]; [discriminate|].
  destruct (Ascii.eqb_spec d "}") as [->|]; [|discriminate]. cbn [andb].
  destruct (token_body b) eqn:Eb; [|discriminate]. intros [= <-].
  exists r. split; [|exact Eb]. simpl. now rewrite Happ.
Qed.

Lemma match_token_complete body post :
  token_body body = true ->
  match_token ("{" +:+ body +:+ "}" +:+ post) = Some body.
Proof.
  intros Hb. cbn [append match_token]. rewrite Ascii.eqb_refl.
  rewrite (JsFacts.span_stop is_body_char body (String "}" post)).
  - simpl. now rewrite Hb.
  - now apply token_body_chars.
  - reflexivity.
Qed.

Lemma tokens_go_sound s skip body :
  In body (tokens_go s skip) ->
  exists pre post, s = pre +:+ "{" +:+ body +:+ "}" +:+ post /\ token_body body = true.
Proof.
  revert skip; induction s as [|c s IH]; intros skip Hin; [destruct Hin|].
  cbn [tokens_go] in Hin.
  assert (Hrec : forall k, In body (tokens_go s k) ->
                 exists pre post, String c s = pre +:+ "{" +:+ body +:+ "}" +:+ post
                                  /\ token_body body = true).
  { intros k Hk. destruct (IH k Hk) as (pre & post & -> & Hb).
    now exists (String c pre), post. }
  destruct skip as [|k]; [|now apply (Hrec k)].
  destruct (match_token (String c s)) as [b|] eqn:Em; [|now apply (Hrec 0)].
  destruct Hin as [<- | Hin]; [|now apply (Hrec _ Hin)].
  apply match_token_sound in Em as (rest & -> & Hb).
  now exists ""%string, rest.
Qed.

Lemma tokens_go_complete pre body post skip :
  token_body body = true ->
  skip <= String.length pre ->
  tokens_go (pre +:+ "{" +:+ body +:+ "}" +:+ post) skip <> [].
Proof.
  intros Hb. revert skip; induction pre as [|c pre IH]; intros skip Hs.
  - assert (skip = 0) as -> by (simpl in Hs; lia).
    pose proof (match_token_complete body post Hb) as Hm.
    cbn [append] in *. cbn [tokens_go]. rewrite Hm. discriminate.
  - cbn [append tokens_go]. destruct skip as [|k].
    + destruct (match_token _); [discriminate | apply IH; lia].
    + apply IH. simpl in Hs. lia.
Qed.

(** The scan finds a token exactly when the text contains one. *)
Lemma tokens_nil_iff s : tokens s = [] <-> ~ Spec.has_token s.
Proof.
  split.
  - intros Hn (pre & body & post & -> & Hb).
    apply (tokens_go_complete pre body post 0 Hb); [lia | exact Hn].
  - intros Hn. unfold tokens. destruct (tokens_go s 0) as [|b l] eqn:E; [reflexivity|].
    exfalso. apply Hn.
    destruct (tokens_go_sound s 0 b) as (pre & post & Hs & Hb); [rewrite E; now left|].
    now exists pre, b, post.
Qed.

Section WithValues.
Variable Values : Type.
Variable get : Values -> string -> string.

(** C8.  For every template string and context, if the output of
    [resolvePlaceholders] contains no token, then running
    [resolvePlaceholders] on that output with the same context returns
    it unchanged.  (The scan finds no match exactly when the text
    contains no token.) *)
Theorem resolvePlaceholders_idempotent (template : string) (values : Values) :
  let output := resolvePlaceholders Values get (Str template) values in
  ~ Spec.has_token output ->
  resolvePlaceholders Values get (Str output) values = output.
Proof.
  intros output Hno. apply tokens_nil_iff in Hno.
  unfold resolvePlaceholders at 1. destruct (Js.truthy output); [|reflexivity].
  unfold replaceInString. now rewrite Hno.
Qed.

End WithValues.

(** The template [/pages/{page.id}?lang={lang.code}] in a context where
    [page.id] is [42] and nothing else is defined. *)
Lemma resolvePlaceholders_idempotent_witness :
  resolvePlaceholders unit Demo.lookup_demo (Str "/pages/{page.id}?lang={lang.code}") tt
  = "/pages/42?lang="%string
  /\ resolvePlaceholders unit Demo.lookup_demo (Str "/pages/42?lang=") tt
     = "/pages/42?lang="%string.
Proof.
  split; [reflexivity|].
  apply (resolvePlaceholders_idempotent unit Demo.lookup_demo
           "/pages/{page.id}?lang={lang.code}" tt).
  apply tokens_nil_iff. reflexivity.
Defined.

End BaseFacts.

(* ================================================================== *)
(** * Effects: sequencing *)
(* ================================================================== *)

Module EffectFacts.



Lemma bind_lift_inr {A B} (a : A) (f : A -> outcome B) :
  bind (lift (inr a)) f = f a.
Proof. unfold bind, lift. cbn. now destruct (f a). Qed.

Lemma bind_lift_inl {A B} (e : error) (f : A -> outcome B) :
  bind (lift (inl e)) f = Outcome [] (inl e).
Proof. reflexivity. Qed.

Lemma bind_emit {B} e (f : unit -> outcome B) :
  bind (emit e) f = Outcome (e :: trace (f tt)) (result (f tt)).
Proof. reflexivity. Qed.

Lemma outcome_eta {A} (m : outcome A) : Outcome (trace m) (result m) = m.
Proof. now destruct m. Qed.

End EffectFacts.

(* ================================================================== *)
(** * generateContent: the clean-up comes first *)
(* ================================================================== *)

Module GenerateFacts.

Import Cms.

Lemma apply_trace_local (cwd : string) (t : list event)
    (f1 f2 : gmap (list string) string) (p : list string) :
  f1 !! p = f2 !! p ->
  Fs.apply_trace cwd t f1 !! p = Fs.apply_trace cwd t f2 !! p.
Proof.
  revert f1 f2; induction t as [|e t IH]; intros f1 f2 Hp; [exact Hp|].
  cbn [Fs.apply_trace fold_left]. apply IH.
  destruct e as [target | target | target content | url]; cbn [Fs.apply_event]; auto.
  - rewrite !map_lookup_filter, Hp. reflexivity.
  - destruct (decide (Path.resolve cwd (path_join target) = p)) as [->|Hne].
    + now rewrite !lookup_insert_eq.
    + now rewrite !lookup_insert_ne.
Qed.

Lemma rm_under (cwd : string) (target : list string)
    (files : gmap (list string) string) (p : list string) :
  Fs.under (Path.resolve cwd (path_join target)) p = true ->
  Fs.apply_event cwd files (Rm target) !! p = None.
Proof.
  intros Hu. cbn [Fs.apply_event]. revert Hu.
  generalize (Path.resolve cwd (path_join target)). intros root Hu.
  rewrite map_lookup_filter.
  destruct (files !! p) as [c|]; [|reflexivity]. cbn.
  rewrite Hu. reflexivity.
Qed.

Section WithCollaborators.
Context `{Collaborators}.

(** C10.  Every run of [generateContent] starts with the recursive
    removal of the content root, before any request and any write; so a
    file beneath the content root exists after the run only as far as
    this run wrote it, whatever was there before.  The content root is
    the folder given, and otherwise the one of the configuration, which
    is [content] when the module is loaded. *)
Theorem generateContent_removes_content_root_first
    (cfg0 : Config) (apiBaseUrl' : string) (contentRootFolder : option string)
    (excludeLabelKeyPrefixes : option (list string)) :
  let cfg := configure cfg0 apiBaseUrl' contentRootFolder in
  let run := generateContent cfg0 apiBaseUrl' contentRootFolder excludeLabelKeyPrefixes in
  (exists rest,
      trace run = Rm (contentBasePath cfg) :: rest
      /\ forall (cwd : string) (files : gmap (list string) string) (p : list string),
          Fs.under (Path.resolve cwd (path_join (contentBasePath cfg))) p = true ->
          Fs.apply_trace cwd (trace run) files !! p = Fs.apply_trace cwd rest ∅ !! p)
  /\ (forall root, Js.truthy root = true ->
                   contentRootFolder = Some root -> contentBasePath cfg = [root])
  /\ (contentRootFolder = None -> contentBasePath cfg = contentBasePath cfg0)
  /\ contentBasePath config = ["content"%string].
Proof.
  intros cfg run. split; [|split; [|split]].
  - subst run. unfold generateContent. fold cfg.
    rewrite EffectFacts.bind_emit. cbn [trace].
    eexists. split; [reflexivity|].
    intros cwd files p Hu. cbn [Fs.apply_trace fold_left].
    apply apply_trace_local.
    rewrite (rm_under _ _ _ _ Hu). now rewrite lookup_empty.
  - intros root Hr ->. subst cfg. unfold configure. cbn. now rewrite Hr.
  - intros ->. reflexivity.
  - reflexivity.
Qed.

End WithCollaborators.

#[local] Existing Instance Demo.collaborators.

(** A run into the folder [out], from the working directory [/srv/site],
    over a tree that holds a stale page. *)
Lemma generateContent_removes_content_root_first_witness :
  let run := generateContent config "http://cms" (Some "out"%string) None in
  let stale := ["srv"; "site"; "out"; "en"; "9.old.md"]%string in
  let files : gmap (list string) string := {[ stale := "stale"%string ]} in
  (exists rest, trace run = Rm ["out"%string] :: rest)
  /\ Fs.apply_trace "/srv/site" (trace run) files !! stale = None.
Proof.
  intros run stale files.
  destruct (generateContent_removes_content_root_first
              config "http://cms" (Some "out"%string) None) as ((rest & Ht & Hfs) & _).
  subst run files. split.
  - exists rest. exact Ht.
  - rewrite (Hfs "/srv/site"%string _ stale eq_refl).
    vm_compute in Ht. injection Ht as <-. vm_compute. reflexivity.
Defined.

End GenerateFacts.

(* ================================================================== *)
(** * The entity placeholder expander *)
(* ================================================================== *)

Module EntityFacts.

Import Cms.

(** ** The pattern *)

Lemma span_word_nonempty g post :
  g <> ""%string -> Spec.word g -> fst (Js.span Js.is_word (g +:+ post)) <> ""%string.
Proof.
  destruct g as [|c g]; [congruence|]. intros _ Hw. unfold Spec.word in Hw.
  cbn [Js.all] in Hw. apply andb_prop in Hw as [Hc _].
  cbn [append Js.span]. rewrite Hc. destruct (Js.span _ _). discriminate.
Qed.

Lemma match_placeholder_sound s g1 g2 :
  match_placeholder s = Some (g1, g2) ->
  exists rest,
    s = ":" +:+ g1 +:+ "." +:+ g2 +:+ rest
    /\ g1 <> ""%string /\ g2 <> ""%string /\ Spec.word g1 /\ Spec.word g2.
Proof.
  destruct s as [|c s]; [discriminate|]. unfold match_placeholder.
  destruct (Ascii.eqb_spec c ":") as [->|]; [|discriminate].
  pose proof (JsFacts.span_app Js.is_word s) as Happ1.
  pose proof (JsFacts.span_all Js.is_word s) as Hall1.
  destruct (Js.span Js.is_word s) as [a r1]. cbn [fst snd] in *.
  destruct a as [|a0 a]; [discriminate|].
  destruct r1 as [|d r2]; [discriminate|].
  destruct (Ascii.eqb_spec d ".") as [->|]; [|discriminate].
  pose proof (JsFacts.span_app Js.is_word r2) as Happ2.
  pose proof (JsFacts.span_all Js.is_word r2) as Hall2.
  destruct (Js.span Js.is_word r2) as [b r3]. cbn [fst snd] in *.
  destruct b as [|b0 b]; [discriminate|]. intros [= <- <-].
  exists r3. repeat split; try discriminate; try assumption.
  rewrite <- Happ1, <- Happ2. reflexivity.
Qed.

Lemma match_placeholder_found g1 g2 post :
  g1 <> ""%string -> g2 <> ""%string -> Spec.word g1 -> Spec.word g2 ->
  exists g2', match_placeholder (":" +:+ g1 +:+ "." +:+ g2 +:+ post) = Some (g1, g2').
Proof.
  intros Hn1 Hn2 Hw1 Hw2. cbn [append match_placeholder]. rewrite Ascii.eqb_refl.
  rewrite (JsFacts.span_stop Js.is_word g1 (String "." (g2 +:+ post)) Hw1 eq_refl).
  destruct g1 as [|c1 g1]; [congruence|]. rewrite Ascii.eqb_refl.
  pose proof (span_word_nonempty g2 post Hn2 Hw2) as Hne.
  destruct (Js.span Js.is_word (g2 +:+ post)) as [b r]. cbn [fst] in Hne.
  destruct b as [|b0 b]; [congruence|]. now eexists.
Qed.

(** With no word character after it, the placeholder is matched whole. *)
Lemma match_placeholder_exact g1 g2 post :
  g1 <> ""%string -> g2 <> ""%string -> Spec.word g1 -> Spec.word g2 ->
  Spec.starts_nonword post ->
  match_placeholder (":" +:+ g1 +:+ "." +:+ g2 +:+ post) = Some (g1, g2).
Proof.
  intros Hn1 Hn2 Hw1 Hw2 Hpost. cbn [append match_placeholder]. rewrite Ascii.eqb_refl.
  rewrite (JsFacts.span_stop Js.is_word g1 (String "." (g2 +:+ post)) Hw1 eq_refl).
  destruct g1 as [|c1 g1]; [congruence|]. rewrite Ascii.eqb_refl.
  rewrite (JsFacts.span_stop Js.is_word g2 post Hw2).
  - destruct g2; [congruence | reflexivity].
  - destruct post; [exact I | exact Hpost].
Qed.

Lemma pieces_go_sound s skip g1 g2 :
  In (Placeholder g1 g2) (pieces_go s skip) ->
  exists pre post,
    s = pre +:+ ":" +:+ g1 +:+ "." +:+ g2 +:+ post
    /\ g1 <> ""%string /\ g2 <> ""%string /\ Spec.word g1 /\ Spec.word g2.
Proof.
  revert skip; induction s as [|c s IH]; intros skip Hin; [destruct Hin|].
  cbn [pieces_go] in Hin.
  assert (Hrec : forall k, In (Placeholder g1 g2) (pieces_go s k) ->
     exists pre post,
       String c s = pre +:+ ":" +:+ g1 +:+ "." +:+ g2 +:+ post
       /\ g1 <> ""%string /\ g2 <> ""%string /\ Spec.word g1 /\ Spec.word g2).
  { intros k Hk. destruct (IH k Hk) as (pre & post & -> & Hc).
    now exists (String c pre), post. }
  destruct skip as [|k]; [|now apply (Hrec k)].
  destruct (match_placeholder (String c s)) as [[a b]|] eqn:Em.
  - destruct Hin as [[= <- <-] | Hin]; [|now apply (Hrec _ Hin)].
    apply match_placeholder_sound in Em as (rest & -> & Hc).
    now exists ""%string, rest.
  - destruct Hin as [Hin | Hin]; [discriminate | now apply (Hrec 0)].
Qed.

Lemma pieces_go_found pre g1 g2 post skip :
  g1 <> ""%string -> g2 <> ""%string -> Spec.word g1 -> Spec.word g2 ->
  skip <= String.length pre ->
  exists a b, In (Placeholder a b)
                 (pieces_go (pre +:+ ":" +:+ g1 +:+ "." +:+ g2 +:+ post) skip).
Proof.
  intros Hn1 Hn2 Hw1 Hw2. revert skip; induction pre as [|c pre IH]; intros skip Hs.
  - assert (skip = 0) as -> by (simpl in Hs; lia).
    destruct (match_placeholder_found g1 g2 post Hn1 Hn2 Hw1 Hw2) as (g2' & Hm).
    cbn [append] in *. cbn [pieces_go]. rewrite Hm. exists g1, g2'. now left.
  - cbn [append pieces_go]. destruct skip as [|k].
    + destruct (match_placeholder _) as [[a b]|].
      * exists a, b. now left.
      * destruct (IH 0) as (a & b & Hab); [lia|]. exists a, b. now right.
    + apply IH. simpl in Hs. lia.
Qed.

Lemma match_placeholders_nil s :
  match_placeholders s = [] <-> forall g1 g2, ~ In (Placeholder g1 g2) (pieces s).
Proof.
  unfold match_placeholders. induction (pieces s) as [|pc l IH]; cbn [flat_map].
  - split; [intros _ g1 g2 [] | reflexivity].
  - destruct pc as [c | a b]; cbn [app].
    + rewrite IH. split.
      * intros Hl g1 g2 [Hh | Ht]; [discriminate | now apply (Hl g1 g2)].
      * intros Hl g1 g2 Ht. apply (Hl g1 g2). now right.
    + split; [discriminate|]. intros Hl. exfalso. apply (Hl a b). now left.
Qed.

(** The scan finds a match exactly when the text contains the pattern. *)
Lemma match_placeholders_nil_iff s :
  match_placeholders s = [] <-> ~ Spec.has_placeholder s.
Proof.
  rewrite match_placeholders_nil. split.
  - intros Hno (pre & g1 & g2 & post & -> & Hn1 & Hn2 & Hw1 & Hw2).
    destruct (pieces_go_found pre g1 g2 post 0 Hn1 Hn2 Hw1 Hw2) as (a & b & Hab); [lia|].
    now apply (Hno a b).
  - intros Hno g1 g2 Hin. apply Hno.
    apply pieces_go_sound in Hin as (pre & post & Hs & Hc).
    now exists pre, g1, g2, post.
Qed.

(** ** One placeholder, several occurrences *)

Section OnePlaceholder.

Variables name fld v : string.
Hypothesis name_nonempty : name <> ""%string.
Hypothesis fld_nonempty : fld <> ""%string.
Hypothesis name_word : Spec.word name.
Hypothesis fld_word : Spec.word fld.
Hypothesis v_no_dollar : Spec.no_dollar v.
Hypothesis v_no_colon : Spec.no_colon v.

Let p : string := placeholder_text name fld.

Lemma p_cons : p = String ":" (name +:+ "." +:+ fld).
Proof. reflexivity. Qed.

Lemma p_app rest : p +:+ rest = String ":" ((name +:+ "." +:+ fld) +:+ rest).
Proof. reflexivity. Qed.

Lemma match_text x rest :
  Spec.no_colon x -> match_placeholders (x +:+ rest) = match_placeholders rest.
Proof.
  unfold match_placeholders, pieces.
  induction x as [|c x IH]; intros Hx; [reflexivity|].
  unfold Spec.no_colon in Hx. cbn [Js.all] in Hx. apply andb_prop in Hx as [Hc Hx].
  apply negb_true_iff in Hc.
  cbn [append pieces_go]. unfold match_placeholder. rewrite Hc.
  cbn [flat_map app]. now apply IH.
Qed.

Lemma pieces_skip x rest :
  pieces_go (x +:+ rest) (String.length x) = pieces_go rest 0.
Proof. induction x as [|c x IH]; [reflexivity | exact IH]. Qed.

Lemma match_occurrence rest :
  Spec.starts_nonword rest ->
  match_placeholders (p +:+ rest) = p :: match_placeholders rest.
Proof.
  intros Hrest. unfold match_placeholders, pieces. rewrite p_app.
  cbn [pieces_go].
  replace (match_placeholder (String ":" ((name +:+ "." +:+ fld) +:+ rest)))
    with (Some (name, fld)).
  2:{ symmetry. rewrite !JsFacts.app_assoc.
      now apply (match_placeholder_exact name fld rest). }
  cbn [flat_map app]. f_equal.
  replace (String.length name + 1 + String.length fld)
    with (String.length (name +:+ "." +:+ fld)).
  - now rewrite pieces_skip.
  - rewrite !JsFacts.length_app. simpl. lia.
Qed.

Lemma starts_nonword_join y rest :
  Spec.starts_nonword y -> Spec.starts_nonword (Js.join p (y :: rest)).
Proof.
  intros Hy. destruct rest as [|z rest]; cbn [Js.join]; [exact Hy|].
  destruct y as [|c y]; [reflexivity | exact Hy].
Qed.

Lemma join_cons2 sep x y rest :
  Js.join sep (x :: y :: rest) = x +:+ sep +:+ Js.join sep (y :: rest).
Proof. reflexivity. Qed.

(** The matches of the joined text: one per separator. *)
Lemma match_join parts :
  Forall Spec.no_colon parts ->
  Forall Spec.starts_nonword (tail parts) ->
  match_placeholders (Js.join p parts) = repeat p (length parts - 1).
Proof.
  induction parts as [|x parts IH]; intros Hc Hw; [reflexivity|].
  inversion Hc as [|? ? Hx Hc']; subst.
  destruct parts as [|y parts].
  - cbn [Js.join length Nat.sub repeat].
    rewrite <- (JsFacts.app_nil_r x). now rewrite match_text.
  - cbn [tail] in Hw. inversion Hw as [|? ? Hy Hw']; subst.
    rewrite join_cons2, (match_text _ _ Hx).
    rewrite match_occurrence by now apply starts_nonword_join.
    rewrite IH; [|exact Hc' |].
    + cbn [length Nat.sub repeat]. now rewrite Nat.sub_0_r.
    + destruct parts; [constructor | exact Hw'].
Qed.

(** [replaceAll] with a replacement free of dollar signs does not look at
    what precedes the match. *)
Lemma replaceAll_go_before s : forall k b b',
  Js.replaceAll_go p v b s k = Js.replaceAll_go p v b' s k.
Proof.
  induction s as [|c s IH]; intros k b b'.
  - cbn [Js.replaceAll_go]. destruct k; reflexivity.
  - cbn [Js.replaceAll_go]. destruct k as [|k]; [|apply IH].
    rewrite !(JsFacts.getSubstitution_plain _ _ _ v v_no_dollar).
    rewrite p_cons.
    destruct (Js.startsWith _ _); f_equal; apply IH.
Qed.

Lemma replaceAll_text x rest :
  Spec.no_colon x ->
  Js.replaceAll (x +:+ rest) p v = x +:+ Js.replaceAll rest p v.
Proof.
  unfold Js.replaceAll. induction x as [|c x IH]; intros Hx; [reflexivity|].
  unfold Spec.no_colon in Hx. cbn [Js.all] in Hx. apply andb_prop in Hx as [Hc Hx].
  apply negb_true_iff in Hc. rewrite Ascii.eqb_sym in Hc.
  cbn [append Js.replaceAll_go]. rewrite p_cons at 1. cbn [Js.startsWith].
  rewrite Hc. cbn [andb]. f_equal.
  rewrite (replaceAll_go_before _ 0 _ ""). now apply IH.
Qed.

Lemma replaceAll_skip x rest : forall b,
  Js.replaceAll_go p v b (x +:+ rest) (String.length x) = Js.replaceAll rest p v.
Proof.
  induction x as [|c x IH]; intros b.
  - apply replaceAll_go_before.
  - cbn [append String.length Js.replaceAll_go]. apply IH.
Qed.

Lemma replaceAll_occurrence rest :
  Js.replaceAll (p +:+ rest) p v = v +:+ Js.replaceAll rest p v.
Proof.
  unfold Js.replaceAll at 1. rewrite p_app. cbn [Js.replaceAll_go].
  replace (Js.startsWith (String ":" ((name +:+ "." +:+ fld) +:+ rest)) p) with true
    by (symmetry; apply (JsFacts.startsWith_app p rest)).
  rewrite (JsFacts.getSubstitution_plain _ _ _ v v_no_dollar).
  f_equal. rewrite p_cons. apply replaceAll_skip.
Qed.

Lemma replaceAll_nil : Js.replaceAll "" p v = ""%string.
Proof. reflexivity. Qed.

(** Every occurrence is replaced. *)
Lemma replaceAll_join parts :
  Forall Spec.no_colon parts ->
  Js.replaceAll (Js.join p parts) p v = Js.join v parts.
Proof.
  induction parts as [|x parts IH]; intros Hc; [reflexivity|].
  inversion Hc as [|? ? Hx Hc']; subst.
  destruct parts as [|y parts].
  - cbn [Js.join]. rewrite <- (JsFacts.app_nil_r x) at 1.
    rewrite (replaceAll_text _ _ Hx), replaceAll_nil. apply JsFacts.app_nil_r.
  - rewrite !join_cons2, (replaceAll_text _ _ Hx), replaceAll_occurrence.
    now rewrite IH.
Qed.

Lemma replaceAll_no_colon s :
  Spec.no_colon s -> Js.replaceAll s p v = s.
Proof.
  intros Hs. rewrite <- (JsFacts.app_nil_r s) at 1.
  rewrite (replaceAll_text _ _ Hs), replaceAll_nil. apply JsFacts.app_nil_r.
Qed.

Lemma no_colon_join parts :
  Forall Spec.no_colon parts -> Spec.no_colon (Js.join v parts).
Proof.
  induction parts as [|x parts IH]; intros Hc; [reflexivity|].
  inversion Hc as [|? ? Hx Hc']; subst.
  destruct parts as [|y parts]; [exact Hx|].
  rewrite join_cons2. unfold Spec.no_colon in *. rewrite !JsFacts.all_app.
  rewrite Hx, v_no_colon. now rewrite (IH Hc').
Qed.

Lemma entityProp_of_p : Js.replace p (":" +:+ name +:+ ".") "" = fld.
Proof.
  unfold Js.replace.
  assert (Hp : p = (":" +:+ name +:+ ".") +:+ fld).
  { unfold p, placeholder_text. now rewrite !JsFacts.app_assoc. }
  rewrite Hp. destruct (":" +:+ name +:+ ".") as [|c0 pat] eqn:Epat; [discriminate|].
  rewrite <- Epat. clear Epat.
  set (pat' := ":" +:+ name +:+ ".").
  assert (Hs : Js.startsWith (pat' +:+ fld) pat' = true) by apply JsFacts.startsWith_app.
  destruct (pat' +:+ fld) as [|c s] eqn:E.
  - cbn [Js.replace_go]. rewrite Hs. cbn. destruct pat'; [|discriminate].
    cbn in E. now rewrite E.
  - cbn [Js.replace_go]. rewrite Hs. rewrite <- E. cbn [Js.getSubstitution append].
    apply JsFacts.drop_app.
Qed.

End OnePlaceholder.

(** ** Reading a field of an entity *)

Lemma entity_prop_plain entity fld :
  Spec.plain_field entity fld ->
  entity_prop entity fld = Js.Pattern (Spec.value entity fld).
Proof.
  unfold Spec.plain_field, entity_prop, Spec.value, Js.inherited.
  intros [[s Hs] | Hn].
  - now rewrite Hs.
  - destruct (entity_get entity !! fld); [reflexivity|].
    destruct (Js.Object_prototype fld); [discriminate | reflexivity].
Qed.






(** When every field read is a text, the expander returns. *)
Lemma resolveInputWithEntity_returns input name entity :
  Forall (fun q => exists t,
            entity_prop entity (Js.replace q (":" +:+ name +:+ ".") "") = Js.Pattern t)
         (match_placeholders input) ->
  exists out, resolveInputWithEntity input name entity = inr out.
Proof.
  unfold resolveInputWithEntity.
  destruct (match_placeholders input) as [|q0 ms]; [now exists input|].
  generalize (q0 :: ms). intros l Hl.
  match goal with
  | |- exists out, fold_left ?f l _ = _ =>
      enough (Hgen : forall acc : string,
                 exists out, fold_left f l (inr acc) = inr out) by apply Hgen
  end.
  induction Hl as [|q l (t & Hq) _ IH]; intros acc.
  - now exists acc.
  - cbn [fold_left]. rewrite Hq. cbn [Js.replaceAll_value]. apply IH.
Qed.

(** ** Several placeholders *)

Lemma word_no_colon s : Spec.word s -> Spec.no_colon s.
Proof.
  unfold Spec.word, Spec.no_colon. induction s as [|c s IH]; [reflexivity|].
  cbn [Js.all]. intros Hw. apply andb_prop in Hw as [Hc Hw]. rewrite (IH Hw).
  destruct (Ascii.eqb_spec c ":") as [->|]; [discriminate | reflexivity].
Qed.

Lemma pieces_go_words s k :
  List.Forall (fun pc => match pc with
                         | Placeholder g1 g2 =>
                             g1 <> ""%string /\ g2 <> ""%string
                             /\ Spec.word g1 /\ Spec.word g2
                         | Text _ => True
                         end) (pieces_go s k).
Proof.
  apply List.Forall_forall. intros [c | g1 g2] Hin; [exact I|].
  apply pieces_go_sound in Hin as (pre & post & _ & Hc). exact Hc.
Qed.

Lemma drop_0 s : Js.drop 0 s = s.
Proof. now destruct s. Qed.

Lemma expand_only_text done entity c ps :
  Spec.expand_only done entity (Text c :: ps)
  = String c (Spec.expand_only done entity ps).
Proof. reflexivity. Qed.

Lemma expand_only_placeholder done entity g1 g2 ps :
  Spec.expand_only done entity (Placeholder g1 g2 :: ps)
  = (if existsb (String.eqb (placeholder_text g1 g2)) done
     then Spec.value entity g2 else placeholder_text g1 g2)
    +:+ Spec.expand_only done entity ps.
Proof. reflexivity. Qed.

Lemma drop_body g1 g2 rest :
  Js.drop (String.length g1 + 1 + String.length g2) (g1 +:+ String "." (g2 +:+ rest))
  = rest.
Proof.
  induction g1 as [|c g1 IH]; [|exact IH].
  cbn [String.length Nat.add append Js.drop]. apply JsFacts.drop_app.
Qed.

(** The pieces put together again give the text back. *)
Lemma expand_only_nil entity s k :
  Spec.expand_only [] entity (pieces_go s k) = Js.drop k s.
Proof.
  revert k; induction s as [|c s IH]; intros k; [now destruct k|].
  cbn [pieces_go]. destruct k as [|k]; [|apply IH].
  destruct (match_placeholder (String c s)) as [[g1 g2]|] eqn:Em.
  - rewrite expand_only_placeholder, IH. cbn [existsb].
    apply match_placeholder_sound in Em as (rest & Hs & _).
    cbn [append] in Hs. injection Hs as -> ->.
    rewrite drop_body, drop_0. unfold placeholder_text. cbn [append].
    now rewrite JsFacts.app_assoc.
  - now rewrite expand_only_text, IH, !drop_0.
Qed.

Lemma startsWith_app_cases q rest p :
  Js.startsWith (q +:+ rest) p = true ->
  Js.startsWith q p = true \/ Js.startsWith p q = true.
Proof.
  revert q; induction p as [|a p IH]; intros q Hs; [now left|].
  destruct q as [|b q]; [now right|].
  cbn [append Js.startsWith] in *. apply andb_prop in Hs as [Hab Hs].
  apply Ascii.eqb_eq in Hab as ->. rewrite Ascii.eqb_refl. cbn [andb].
  apply IH, Hs.
Qed.

Lemma startsWith_app_l s a b :
  Js.startsWith s (a +:+ b) = true -> Js.startsWith s a = true.
Proof.
  revert s; induction a as [|c a IH]; intros s Hs; [reflexivity|].
  destruct s as [|d s]; [discriminate|].
  cbn [append Js.startsWith] in *. apply andb_prop in Hs as [Hc Hs].
  rewrite Hc. cbn [andb]. now apply IH.
Qed.

Lemma placeholder_text_inj name f f' :
  placeholder_text name f = placeholder_text name f' -> f = f'.
Proof.
  unfold placeholder_text. intros Heq.
  now repeat (apply String.app_inj in Heq).
Qed.

(** What follows a colon that parts from [k] begins no placeholder of
    the entity, whatever comes after. *)
Lemma apart_no_match (w k f rest : string) :
  Spec.apart w k = true ->
  Js.startsWith (w +:+ rest) (k +:+ f) = false.
Proof.
  unfold Spec.apart. intros Ha. apply andb_prop in Ha as [H1 H2].
  apply negb_true_iff in H1, H2.
  apply not_true_is_false. intros Hs. apply startsWith_app_l in Hs.
  apply startsWith_app_cases in Hs as [Hs | Hs]; congruence.
Qed.

Lemma clear_suffix (k a b : string) :
  Spec.clear k (a +:+ String ":" b) = true -> Spec.apart b k = true.
Proof.
  induction a as [|c a IH]; cbn [append Spec.clear]; intros Hc;
    apply andb_prop in Hc as [Hc Hrest].
  - now rewrite Ascii.eqb_refl in Hc.
  - now apply IH.
Qed.

Lemma expand_only_text_run done entity ps :
  exists rest, Spec.expand_only done entity ps = Spec.text_run ps +:+ rest.
Proof.
  induction ps as [|pc ps (rest & IH)]; [now exists ""%string|].
  destruct pc as [c | g1 g2].
  - exists rest. rewrite expand_only_text, IH. reflexivity.
  - eexists. cbn [Spec.text_run append]. reflexivity.
Qed.

Section Several.

Variable name : string.
Variable entity : Entity.
Hypothesis name_word : Spec.word name.

Let k : string := name +:+ ".".

Lemma placeholder_text_k f : placeholder_text name f = String ":" (k +:+ f).
Proof. unfold placeholder_text, k. cbn [append]. now rewrite JsFacts.app_assoc. Qed.

(** [replaceAll] passes over a text in which no match begins. *)
Lemma replaceAll_pass f x rest :
  Spec.no_dollar (Spec.value entity f) ->
  (forall a b, x = a +:+ b -> b <> ""%string ->
               Js.startsWith (b +:+ rest) (placeholder_text name f) = false) ->
  Js.replaceAll (x +:+ rest) (placeholder_text name f) (Spec.value entity f)
  = x +:+ Js.replaceAll rest (placeholder_text name f) (Spec.value entity f).
Proof.
  intros Hd. unfold Js.replaceAll.
  induction x as [|c x IH]; intros Hno; [reflexivity|].
  cbn [append Js.replaceAll_go].
  pose proof (Hno ""%string (String c x) eq_refl ltac:(discriminate)) as Hhere.
  cbn [append] in Hhere. rewrite Hhere.
  f_equal. rewrite (replaceAll_go_before name f _ Hd _ 0 _ "").
  apply IH. intros a b -> Hb. apply (Hno (String c a) b eq_refl Hb).
Qed.

(** A text that is clear is passed over. *)
Lemma replaceAll_clear f x rest :
  Spec.no_dollar (Spec.value entity f) ->
  Spec.clear k x = true ->
  Js.replaceAll (x +:+ rest) (placeholder_text name f) (Spec.value entity f)
  = x +:+ Js.replaceAll rest (placeholder_text name f) (Spec.value entity f).
Proof.
  intros Hd Hx. apply replaceAll_pass; [exact Hd|].
  intros a b -> Hb. destruct b as [|c b]; [congruence|].
  rewrite placeholder_text_k. cbn [append Js.startsWith].
  destruct (Ascii.eqb_spec ":" c) as [<- | Hc]; [|reflexivity].
  cbn [andb]. apply apart_no_match. now apply (clear_suffix k a b).
Qed.

(** An occurrence of another placeholder of the entity is passed over. *)
Lemma replaceAll_other f f' rest :
  Spec.word f' ->
  Spec.no_dollar (Spec.value entity f) ->
  Js.startsWith (placeholder_text name f') (placeholder_text name f) = false ->
  Js.startsWith (placeholder_text name f) (placeholder_text name f') = false ->
  Js.replaceAll (placeholder_text name f' +:+ rest) (placeholder_text name f)
                (Spec.value entity f)
  = placeholder_text name f'
    +:+ Js.replaceAll rest (placeholder_text name f) (Spec.value entity f).
Proof.
  intros Hw' Hd H1 H2.
  assert (Hno : Js.startsWith (placeholder_text name f' +:+ rest)
                              (placeholder_text name f) = false).
  { apply not_true_is_false. intros E.
    apply startsWith_app_cases in E as [E | E]; congruence. }
  unfold Js.replaceAll at 1.
  change (placeholder_text name f' +:+ rest)
    with (String ":" ((name +:+ "." +:+ f') +:+ rest)) in *.
  cbn [Js.replaceAll_go]. rewrite Hno.
  change (placeholder_text name f') with (String ":" (name +:+ "." +:+ f')).
  cbn [append]. f_equal.
  rewrite (replaceAll_go_before name f _ Hd _ 0 _ "").
  apply (replaceAll_text name f _ Hd).
  pose proof (word_no_colon _ name_word) as Hn.
  pose proof (word_no_colon _ Hw') as Hf.
  unfold Spec.no_colon in *. rewrite JsFacts.all_app, Hn. exact Hf.
Qed.

(** One round of the loop: the occurrences of one more placeholder give
    way, the rest of the text stands. *)
Lemma replaceAll_expand_only f done ps :
  Spec.no_dollar (Spec.value entity f) ->
  List.Forall (Spec.bound_piece name entity) ps ->
  Spec.clear_text k ps = true ->
  List.Forall (fun pc => match pc with
                         | Placeholder g1 g2 => Spec.word g2
                         | Text _ => True
                         end) ps ->
  (forall g1 g2, In (Placeholder g1 g2) ps ->
     Js.startsWith (placeholder_text g1 g2) (placeholder_text name f) = true
     \/ Js.startsWith (placeholder_text name f) (placeholder_text g1 g2) = true ->
     placeholder_text g1 g2 = placeholder_text name f) ->
  Js.replaceAll (Spec.expand_only done entity ps) (placeholder_text name f)
                (Spec.value entity f)
  = Spec.expand_only (placeholder_text name f :: done) entity ps.
Proof.
  intros Hd Hbound Hclear Hwords Hfree.
  induction ps as [|pc ps IH]; [reflexivity|].
  inversion Hbound as [|? ? Hpc Hbound']; subst.
  inversion Hwords as [|? ? Hw Hwords']; subst.
  assert (Hclear' : Spec.clear_text k ps = true).
  { destruct pc; cbn [Spec.clear_text] in Hclear; [|exact Hclear].
    now apply andb_prop in Hclear as [_ Hclear]. }
  assert (IH' := IH Hbound' Hclear' Hwords'
                   (fun g1 g2 Hin => Hfree g1 g2 (or_intror Hin))).
  clear IH. destruct pc as [c | g1 g2].
  - rewrite !expand_only_text.
    change (String c (Spec.expand_only done entity ps))
      with (String c "" +:+ Spec.expand_only done entity ps).
    rewrite (replaceAll_pass f (String c "") _ Hd).
    + rewrite IH'. reflexivity.
    + intros a b Hab Hb.
      assert (b = String c ""%string) as ->.
      { destruct a as [|a0 a]; cbn [append] in Hab; [congruence|].
        injection Hab as _ Hab. destruct a; [|discriminate].
        cbn [append] in Hab. congruence. }
      rewrite placeholder_text_k. cbn [append Js.startsWith].
      destruct (Ascii.eqb_spec ":" c) as [<- | Hc]; [|reflexivity].
      cbn [andb]. cbn [Spec.clear_text] in Hclear. rewrite Ascii.eqb_refl in Hclear.
      apply andb_prop in Hclear as [Hap _].
      destruct (expand_only_text_run done entity ps) as (more & ->).
      now apply apart_no_match.
  - destruct Hpc as (-> & Hplain & Hvd & Hvc).
    rewrite !expand_only_placeholder. cbn [existsb].
    destruct (String.eqb_spec (placeholder_text name g2) (placeholder_text name f))
      as [Heq | Hneq].
    + apply placeholder_text_inj in Heq. subst g2. cbn [orb].
      destruct (existsb _ done).
      * rewrite (replaceAll_clear f _ _ Hd Hvc). now rewrite IH'.
      * rewrite (replaceAll_occurrence name f _ Hd). now rewrite IH'.
    + cbn [orb]. destruct (existsb _ done).
      * rewrite (replaceAll_clear f _ _ Hd Hvc). now rewrite IH'.
      * rewrite replaceAll_other; [now rewrite IH' | exact Hw | exact Hd | |].
        -- apply not_true_is_false. intros E.
           apply Hneq. apply (Hfree name g2); [now left | now left].
        -- apply not_true_is_false. intros E.
           apply Hneq. apply (Hfree name g2); [now left | now right].
Qed.

Lemma expand_only_all done ps :
  (forall g1 g2, In (Placeholder g1 g2) ps -> In (placeholder_text g1 g2) done) ->
  Spec.expand_only done entity ps
  = fold_right (fun pc acc => match pc with
                              | Text c => String c acc
                              | Placeholder g1 g2 => Spec.value entity g2 +:+ acc
                              end) EmptyString ps.
Proof.
  induction ps as [|pc ps IH]; intros Hall; [reflexivity|].
  destruct pc as [c | g1 g2].
  - rewrite expand_only_text. cbn [fold_right]. f_equal.
    apply IH. intros g1 g2 Hin. apply Hall. now right.
  - rewrite expand_only_placeholder. cbn [fold_right].
    rewrite IH by (intros a b Hin; apply Hall; now right).
    replace (existsb _ done) with true; [reflexivity|].
    symmetry. apply existsb_exists. exists (placeholder_text g1 g2).
    split; [apply Hall; now left | apply String.eqb_refl].
Qed.

(** A text with placeholders left is not empty, and one without is the
    full expansion. *)
Lemma expand_only_empty done ps :
  Spec.expand_only done entity ps = ""%string ->
  fold_right (fun pc acc => match pc with
                            | Text c => String c acc
                            | Placeholder g1 g2 => Spec.value entity g2 +:+ acc
                            end) EmptyString ps = ""%string.
Proof.
  induction ps as [|pc ps IH]; [reflexivity|].
  destruct pc as [c | g1 g2].
  - rewrite expand_only_text. discriminate.
  - rewrite expand_only_placeholder. cbn [fold_right]. intros He.
    destruct (existsb _ done).
    + destruct (Spec.value entity g2); [|discriminate]. cbn [append] in *. now apply IH.
    + discriminate.
Qed.

End Several.

Lemma In_match_placeholders q s :
  In q (match_placeholders s) <->
  exists g1 g2, In (Placeholder g1 g2) (pieces s) /\ q = placeholder_text g1 g2.
Proof.
  unfold match_placeholders. rewrite in_flat_map. split.
  - intros ([c | g1 g2] & Hin & Hq); [destruct Hq|].
    destruct Hq as [<- | []]. now exists g1, g2.
  - intros (g1 & g2 & Hin & ->). exists (Placeholder g1 g2). split; [exact Hin | now left].
Qed.

(** The loop on a text whose placeholders are bound and free of
    prefixes: after the matches [todo], the placeholders of [todo] and
    [done] have given way. *)
Lemma fold_bound (name : string) (entity : Entity) (input : string) :
  List.Forall (Spec.bound_piece name entity) (pieces input) ->
  Spec.clear_text (name +:+ ".") (pieces input) = true ->
  Spec.prefix_free (match_placeholders input) ->
  Spec.expand entity input <> ""%string ->
  let step := fun (resolvedInput : error + string) placeHolder =>
    match resolvedInput with
    | inl e => inl e
    | inr resolvedInput =>
        Js.replaceAll_value (Js.or_else resolvedInput input) placeHolder
          (entity_prop entity (Js.replace placeHolder (":" +:+ name +:+ ".") ""))
    end in
  forall todo done acc,
    (forall q, In q todo -> In q (match_placeholders input)) ->
    Js.or_else acc input = Spec.expand_only done entity (pieces input) ->
    (done <> [] -> acc = Spec.expand_only done entity (pieces input)) ->
    exists r,
      fold_left step todo (inr acc) = inr r
      /\ Js.or_else r input = Spec.expand_only (rev todo ++ done) entity (pieces input)
      /\ (rev todo ++ done <> [] ->
          r = Spec.expand_only (rev todo ++ done) entity (pieces input)).
Proof.
  intros Hbound Hclear Hfree Hfull step todo.
  induction todo as [|q todo IH]; intros done acc Hin Hor Hacc; [now exists acc|].
  cbn [fold_left rev]. rewrite <- app_assoc. cbn [app].
  assert (Hq : In q (match_placeholders input)) by (apply Hin; now left).
  apply In_match_placeholders in Hq as (g1 & g2 & Hpc & ->).
  pose proof Hbound as Hb. rewrite List.Forall_forall in Hb.
  destruct (Hb _ Hpc) as (-> & Hplain & Hvd & Hvc).
  pose proof (pieces_go_words input 0) as Hw. rewrite List.Forall_forall in Hw.
  destruct (Hw _ Hpc) as (_ & _ & Hname & _).
  assert (Hstep : step (inr acc) (placeholder_text name g2)
                  = inr (Spec.expand_only (placeholder_text name g2 :: done) entity
                           (pieces input))).
  { unfold step. rewrite Hor, (entityProp_of_p name g2), (entity_prop_plain _ _ Hplain).
    cbn [Js.replaceAll_value]. f_equal.
    apply (replaceAll_expand_only name entity Hname g2 done (pieces input) Hvd Hbound Hclear).
    - apply List.Forall_forall. intros [c | a b] Hab; [exact I|].
      now destruct (Hw _ Hab) as (_ & _ & _ & Hb').
    - intros a b Hab [Hs | Hs].
      + symmetry. apply Hfree; [| |exact Hs]; apply In_match_placeholders; eauto.
      + apply Hfree; [| |exact Hs]; apply In_match_placeholders; eauto. }
  assert (Hnonempty : Spec.expand_only (placeholder_text name g2 :: done) entity (pieces input)
                      <> ""%string).
  { intros He. apply Hfull. apply (expand_only_empty entity) in He. exact He. }
  rewrite Hstep. apply IH.
  - intros q' Hq'. apply Hin. now right.
  - now apply JsFacts.or_else_nonempty.
  - reflexivity.
Qed.

(** On such a text the expander does what the specification says. *)
Lemma resolveInputWithEntity_bound (name : string) (entity : Entity) (input : string) :
  List.Forall (Spec.bound_piece name entity) (pieces input) ->
  Spec.clear_text (name +:+ ".") (pieces input) = true ->
  Spec.prefix_free (match_placeholders input) ->
  Spec.expand entity input <> ""%string ->
  resolveInputWithEntity input name entity = inr (Spec.expand entity input).
Proof.
  intros Hbound Hclear Hfree Hfull.
  assert (Hall : forall done,
            (forall q, In q (match_placeholders input) -> In q done) ->
            Spec.expand_only done entity (pieces input) = Spec.expand entity input).
  { intros done Hd. rewrite expand_only_all; [reflexivity|].
    intros g1 g2 Hpc. apply Hd. apply In_match_placeholders. eauto. }
  pose proof (fold_bound name entity input Hbound Hclear Hfree Hfull) as Hfold.
  cbv zeta in Hfold.
  unfold resolveInputWithEntity.
  destruct (match_placeholders input) as [|q0 ms] eqn:Ems.
  - rewrite <- (Hall []) by (intros q []).
    unfold pieces. now rewrite expand_only_nil, drop_0.
  - destruct (Hfold (q0 :: ms) [] ""%string) as (r & Hr & _ & Hdone).
    + auto.
    + unfold pieces. now rewrite expand_only_nil, drop_0.
    + congruence.
    + rewrite Hr, Hdone.
      * rewrite app_nil_r. f_equal. apply Hall.
        intros q Hq. now apply in_rev in Hq.
      * rewrite app_nil_r. cbn [rev]. intros Hnil.
        apply app_eq_nil in Hnil as [_ Hnil]. discriminate.
Qed.

(** The loop of [resolveInputWithEntity] over [n + 1] matches of the same
    placeholder, once the first replacement gives [out] and [out] holds
    no further occurrence. *)
Lemma fold_same_placeholder (input out p v name : string) (entity : Entity) (n : nat) :
  entity_prop entity (Js.replace p (":" +:+ name +:+ ".") "") = Js.Pattern v ->
  let step := fun (resolvedInput : error + string) placeHolder =>
    match resolvedInput with
    | inl e => inl e
    | inr resolvedInput =>
        Js.replaceAll_value (Js.or_else resolvedInput input) placeHolder
          (entity_prop entity (Js.replace placeHolder (":" +:+ name +:+ ".") ""))
    end in
  Js.replaceAll input p v = out ->
  Js.replaceAll (Js.or_else out input) p v = out ->
  forall acc, acc = ""%string \/ acc = out ->
  fold_left step (repeat p (S n)) (inr acc) = inr out.
Proof.
  intros Hv step Hin Hout.
  assert (Hstep : forall acc, acc = ""%string \/ acc = out -> step (inr acc) p = inr out).
  { intros acc [-> | ->]; unfold step; rewrite Hv; cbn [Js.replaceAll_value]; f_equal.
    - exact Hin.
    - exact Hout. }
  induction n as [|n IH]; intros acc Hacc.
  - cbn [repeat fold_left]. now apply Hstep.
  - change (repeat p (S (S n))) with (p :: repeat p (S n)). cbn [fold_left].
    rewrite (Hstep acc Hacc). apply IH. now right.
Qed.

(** C7, against the code.  The scan finds a match exactly when the
    text contains the pattern, and a text without the pattern is
    returned unchanged, as claimed.  Every placeholder gives way to the
    value of its field, so that all occurrences of the same placeholder
    give way to the same value, as claimed, for a text cut at its
    placeholders such that: every placeholder is one of the bound entity
    and its field is read as a text (an own property of the record, or a
    name found nowhere) that holds no dollar sign; no placeholder is the
    beginning of another one; no colon outside the placeholders, in the
    text or in a value, is followed by the name of the entity and a dot,
    or by a beginning of these that runs up to the next placeholder or
    to the end of the value; and the text expanded is not empty.  The
    code misses the claim where a value holds a replacement pattern: the
    value is handed to [replaceAll] as it is, so that with the price
    [$$] the text [Price range: :city.price] becomes [Price range: $]. *)
Theorem resolveInputWithEntity_expansion :
  (forall input, match_placeholders input = [] <-> ~ Spec.has_placeholder input)
  /\ (forall input entityName entity,
        ~ Spec.has_placeholder input ->
        resolveInputWithEntity input entityName entity = inr input)
  /\ (forall input name entity,
        List.Forall (Spec.bound_piece name entity) (pieces input) ->
        Spec.clear_text (name +:+ ".") (pieces input) = true ->
        Spec.prefix_free (match_placeholders input) ->
        Spec.expand entity input <> ""%string ->
        resolveInputWithEntity input name entity = inr (Spec.expand entity input))
  /\ (resolveInputWithEntity "Price range: :city.price" "city" Demo.pricey
      = inr "Price range: $"%string
      /\ Spec.expand Demo.pricey "Price range: :city.price"
         = "Price range: $$"%string).
Proof.
  split; [exact match_placeholders_nil_iff | split; [|split]].
  - intros input entityName entity Hno. apply match_placeholders_nil_iff in Hno.
    unfold resolveInputWithEntity. now rewrite Hno.
  - intros input name entity. apply resolveInputWithEntity_bound.
  - split; reflexivity.
Qed.

(** A text without placeholder, and a sentence with colons of its own
    about a city whose opening time holds a colon. *)
Lemma resolveInputWithEntity_expansion_witness :
  resolveInputWithEntity "/en/about:us" "city" Demo.lausanne = inr "/en/about:us"%string
  /\ resolveInputWithEntity
       "10:30, :city.label: :city.opens (:city.label)" "city" Demo.bern
     = inr "10:30, Bern: 8:00 (Bern)"%string.
Proof.
  destruct resolveInputWithEntity_expansion as (Hiff & Hsame & Hbound & _).
  split.
  - apply Hsame. apply Hiff. reflexivity.
  - rewrite (Hbound "10:30, :city.label: :city.opens (:city.label)"%string
                    "city"%string Demo.bern).
    + vm_compute. reflexivity.
    + apply List.Forall_forall. intros pc Hin. vm_compute in Hin.
      repeat destruct Hin as [<- | Hin]; try contradiction; try exact I;
        (split; [reflexivity
                | split; [left; eexists; vm_compute; reflexivity
                         | split; vm_compute; reflexivity]]).
    + vm_compute. reflexivity.
    + intros q q' Hq Hq' Hs. vm_compute in Hq, Hq'.
      repeat destruct Hq as [<- | Hq]; try contradiction;
        repeat destruct Hq' as [<- | Hq']; try contradiction;
        first [reflexivity | discriminate].
    + vm_compute. discriminate.
Defined.

(** Further inputs where the expansion is not the one claimed.  A
    placeholder that is the beginning of another is replaced inside it,
    and a value that makes a placeholder with the text after it is
    expanded again.  A value is read as a replacement pattern, so that
    two occurrences of the same placeholder give way to different texts;
    an empty intermediate result makes the loop start again from the
    input; a field whose name is a member of [Object.prototype] is not
    replaced, or throws; a placeholder of another entity gives way to
    [undefined]. *)
Lemma claimed_expansion_fails :
  (resolveInputWithEntity ":city.a/:city.ab" "city" Demo.letters = inr "1/1b"%string
   /\ Spec.expand Demo.letters ":city.a/:city.ab" = "1/2"%string)
  /\ (resolveInputWithEntity ":city.next.b, :city.b" "city" Demo.letters
      = inr "x, x"%string
      /\ Spec.expand Demo.letters ":city.next.b, :city.b" = ":city.b, x"%string)
  /\ (resolveInputWithEntity "a:city.slug-b:city.slug" "city" Demo.backtick_city
      = inr "aa-baaa-ba-b"%string
      /\ Spec.expand Demo.backtick_city "a:city.slug-b:city.slug"
         = "a$`-b$`"%string)
  /\ (resolveInputWithEntity ":city.e:city.f:city.e" "city" Demo.letters
      = inr ":city.f"%string
      /\ Spec.expand Demo.letters ":city.e:city.f:city.e" = ""%string)
  /\ (resolveInputWithEntity "/:city.constructor" "city" Demo.lausanne
      = inr "/:city.constructor"%string
      /\ resolveInputWithEntity "/:city.valueOf" "city" Demo.lausanne
         = inl (TypeError (NoReceiver "valueOf")))
  /\ (resolveInputWithEntity "/:country.slug" "city" Demo.lausanne
      = inr "/undefined"%string
      /\ Spec.expand Demo.lausanne "/:country.slug" = "/lausanne"%string).
Proof. repeat split. Qed.

End EntityFacts.

(* ================================================================== *)
(** * buildPages *)
(* ================================================================== *)

Module PagesFacts.

Import Cms.

(** ** Path validation *)






Section WithCollaborators.
Context `{Collaborators}.

(** ** One page *)

Lemma dumpFile_eq cfg content path fileExtension :
  dumpFile cfg content path fileExtension =
  Outcome (trace (dumpFile cfg content path fileExtension)) (inr tt).
Proof. reflexivity. Qed.

Lemma frontMatter_truthy page apiUrl tail :
  Js.truthy (getFrontMatter page apiUrl +:+ tail) = true.
Proof. unfold getFrontMatter. destruct (negb _); reflexivity. Qed.

Lemma processPage_invalid cfg navigation i page :
  path_invalid (path page) = true ->
  processPage cfg navigation i page = Outcome [] (inl (Error (path_error (path page)))).
Proof. intros Hi. unfold processPage. now rewrite Hi. Qed.

(** A page with a valid path whose content cannot be resolved: one
    request, then the error. *)
Lemma processPage_throws cfg navigation i page e :
  path_invalid (path page) = false ->
  page_markup cfg page = inl e ->
  processPage cfg navigation i page = Outcome [Fetch (page_url cfg page)] (inl e).
Proof.
  intros Hv He. unfold processPage. rewrite Hv.
  unfold fetchEndpoint. rewrite EffectFacts.bind_emit. cbn [bind ret result trace fst snd].
  unfold page_markup in He.
  change (resolveContent (set_localSortedPath (localSortedPath_of (sortedPath page)) page))
    with (resolveContent page).
  unfold page_url in He |- *.
  destruct (resolveContent page _) as [e' | content]; [|discriminate].
  injection He as ->. reflexivity.
Qed.

(** What a page with a valid path does: one request, the marker file of
    a hidden directory page, the markup file, whose text is the front
    matter followed by the string form of what the serializer returned. *)
Lemma processPage_valid cfg navigation i page markup :
  path_invalid (path page) = false ->
  page_markup cfg page = inr markup ->
  let lsp := localSortedPath_of (sortedPath page) in
  let dir := createDir navigation i page in
  let md := getFrontMatter page (page_url cfg page) +:+ Js.toString markup in
  let target := if dir then lsp +:+ "/0.index" else lsp in
  exists page',
    processPage cfg navigation i page =
    Outcome
      (Fetch (page_url cfg page)
       :: (if String.eqb (show page) "never" && dir
           then trace (dumpFile cfg "navigation: false" (lsp +:+ "/_dir") "yml")
           else [])
       ++ trace (dumpFile cfg md target "md"))
      (inr page')
    /\ page' = set_localPath
                 (Js.replace
                    (Js.replace target
                       ("/" +:+ Js.number_toString (Js.plus (sort page) 1) +:+ ".") "/")
                    "/0.index" "")
                 (if dir
                  then set_localPath target (set_localSortedPath target
                         (set_localSortedPath lsp page))
                  else set_localPath target (set_localSortedPath lsp page)).
Proof.
  intros Hv Hm lsp dir md target. unfold processPage. rewrite Hv. fold lsp.
  unfold fetchEndpoint. rewrite EffectFacts.bind_emit. cbn [bind ret result trace fst snd].
  unfold page_markup in Hm.
  change (resolveContent (set_localSortedPath lsp page)) with (resolveContent page).
  unfold page_url in Hm, md |- *. fold lsp in Hm, md |- *.
  destruct (resolveContent page _) as [e' | content]; [discriminate|].
  injection Hm as <-.
  cbn [lift bind result trace sortedPath set_localSortedPath show hasDynamicContent path].
  change (createDir navigation i (set_localSortedPath lsp page)) with dir.
  subst target. destruct dir.
  - rewrite frontMatter_truthy.
    destruct (String.eqb (show page) "never" && true);
      cbn [bind ret result trace dumpFile emit app];
      eexists; (split; [reflexivity|]); reflexivity.
  - rewrite frontMatter_truthy.
    rewrite andb_false_r.
    cbn [bind ret result trace dumpFile emit app].
    eexists. split; reflexivity.
Qed.

(** ** Errors other than the path error *)


Lemma for_each_inr {A B} (f : A -> error + B) (xs : list A) (g : A -> B) :
  (forall x, In x xs -> f x = inr (g x)) -> for_each f xs = inr (map g xs).
Proof.
  induction xs as [|x xs IH]; intros Hf; [reflexivity|].
  cbn [for_each map]. rewrite (Hf x) by now left.
  rewrite IH; [reflexivity|]. intros y Hy. apply Hf. now right.
Qed.





Lemma page_markup_unbound cfg page :
  entity page = None -> exists markup, page_markup cfg page = inr markup.
Proof. intros He. unfold page_markup, resolveContent. rewrite He. now eexists. Qed.

(** ** The loop over the pages *)

Lemma processPages_cons cfg navigation i page rest :
  processPages cfg navigation i (page :: rest) =
  bind (processPage cfg navigation i page)
       (fun page' =>
          bind (processPages cfg navigation (S i) rest)
               (fun rest' => ret (page' :: rest'))).
Proof. reflexivity. Qed.










End WithCollaborators.

#[local] Existing Instance Demo.collaborators.



End PagesFacts.

(* ================================================================== *)
(** * buildPages: directory pages and markup files *)
(* ================================================================== *)

Module DirectoryFacts.

Import Cms.

Section WithCollaborators.
Context `{Collaborators}.

Lemma expandPage_no_resolver (page : ImportingPage) :
  expandPage ∅ page
  = if Js.includes (path page) ":"
       && Js.inherited (name (getEntityDefFromPath (path page)))
    then inl (TypeError (NotAFunction "resolver.resolve"))
    else inr [mark page].
Proof.
  unfold expandPage, mark. cbn [path set_hasDynamicContent].
  destruct (Js.includes (path page) ":"); cbn [negb andb]; [|reflexivity].
  rewrite lookup_empty. now destruct (Js.inherited _).
Qed.


Lemma expandPages_plain_names (navigation : list ImportingPage) :
  Forall (fun p => Js.inherited (name (getEntityDefFromPath (path p))) = false)
         navigation ->
  expandPages ∅ navigation = inr (map mark navigation).
Proof.
  intros Hn. unfold expandPages.
  rewrite (PagesFacts.for_each_inr _ _ (fun p => [mark p])).
  - f_equal. induction navigation as [|p l IH]; [reflexivity|].
    inversion Hn; subst. cbn [map concat app]. now rewrite IH.
  - intros p Hp. rewrite expandPage_no_resolver.
    rewrite List.Forall_forall in Hn. rewrite (Hn p Hp). now rewrite andb_false_r.
Qed.




End WithCollaborators.

#[local] Existing Instance Demo.collaborators.



(** A side remark on the lookahead: it reads [navigation[i + 1]] with
    [i] the index in the expanded page array.  After the template of the
    cities has given two pages, [/en/2.news] is compared with nothing
    and is written as a plain file, although its post follows it. *)
Example lookahead_shifted_by_expansion :
  let navigation :=
    [Demo.page "/en" "/en" "always";
     Demo.page "/en/cities" "/en/1.cities" "always";
     Demo.page "/en/cities/:city.slug" "/en/1.cities/1.:city.slug" "always";
     Demo.page "/en/news" "/en/2.news" "always";
     Demo.page "/en/news/post" "/en/2.news/1.post" "always"] in
  (map path <$> sum_rect (fun _ => option _) (fun _ => None) Some
     (expandPages Demo.resolvers navigation))
  = Some ["/en"; "/en/cities"; "/en/cities/lausanne"; "/en/cities/geneva";
          "/en/news"; "/en/news/post"]%string
  /\ Fs.written (trace (buildPages config navigation Demo.resolvers))
     = [["content"; "en"; "0.index.md"];
        ["content"; "en"; "1.cities"; "0.index.md"];
        ["content"; "en"; "1.cities"; "1.lausanne.md"];
        ["content"; "en"; "1.cities"; "1.geneva.md"];
        ["content"; "en"; "2.news.md"];
        ["content"; "en"; "2.news"; "1.post.md"]]%string.
Proof. split; reflexivity. Qed.

Section Unpublished.
Context `{Collaborators}.

(** C2 fails on the code.  For every page with a valid path whose
    serialization produces no output (absent content, or a state other
    than ['published']), the markup file is written all the same: its
    text is the front matter followed by [undefined], the string form of
    what the serializer returned, and the guard on that text cannot
    fail. *)
Theorem unpublished_page_is_written (cfg : Config) (navigation : list ImportingPage)
    (i : nat) (page : ImportingPage) :
  path_invalid (path page) = false ->
  page_markup cfg page = inr None ->
  exists target,
    In (WriteFile target (getFrontMatter page (page_url cfg page) +:+ "undefined"))
       (trace (processPage cfg navigation i page)).
Proof.
  intros Hv Hnone.
  destruct (PagesFacts.processPage_valid cfg navigation i page None Hv Hnone)
    as (page' & -> & _).
  cbn [trace Js.toString].
  eexists. right. apply in_or_app. right.
  cbn [dumpFile bind emit trace result app]. right. left. reflexivity.
Qed.

End Unpublished.

(** The page [/en/draft] is served a draft: the serializer returns
    nothing, and [content/en/1.draft.md] is written. *)
Lemma unpublished_page_is_written_witness :
  let page := set_hasDynamicContent false (Demo.page "/en/draft" "/en/1.draft" "always") in
  json2mdc (Some Demo.draft) None = None
  /\ trace (buildPages config [Demo.page "/en/draft" "/en/1.draft" "always"] ∅)
     = [Fetch "/content/en/draft";
        Mkdir ["content"; "en"]%string;
        WriteFile ["content"; "en"; "1.draft.md"]%string
          (getFrontMatter page "/content/en/draft" +:+ "undefined")]
  /\ exists target,
      In (WriteFile target (getFrontMatter page "/content/en/draft" +:+ "undefined"))
         (trace (processPage config [page] 0 page)).
Proof.
  intros page. split; [reflexivity | split; [reflexivity|]].
  exact (unpublished_page_is_written config [page] 0 page eq_refl eq_refl).
Defined.

End DirectoryFacts.

(* ================================================================== *)
(** * Splitting and joining *)
(* ================================================================== *)

Module SplitFacts.

Import Js Notions.

Lemma split_nonempty sep s : split sep s <> [].
Proof.
  destruct s as [|c s]; cbn [split]; [discriminate|].
  destruct (Ascii.eqb c sep); [discriminate|].
  destruct (split sep s); discriminate.
Qed.

Lemma lacks_cons c d s : lacks c (String d s) <-> d <> c /\ lacks c s.
Proof.
  unfold lacks. cbn [all]. rewrite andb_true_iff, negb_true_iff.
  now rewrite Ascii.eqb_neq.
Qed.

Lemma lacks_app c a b : lacks c (a +:+ b) <-> lacks c a /\ lacks c b.
Proof. unfold lacks. rewrite JsFacts.all_app. apply andb_true_iff. Qed.

Lemma split_lacks sep s : lacks sep s -> split sep s = [s].
Proof.
  induction s as [|c s IH]; intros Hs; [reflexivity|].
  apply lacks_cons in Hs as [Hc Hs]. cbn [split].
  apply Ascii.eqb_neq in Hc. rewrite Hc. now rewrite (IH Hs).
Qed.

(** Splitting distributes over a separator. *)
Lemma split_app_sep sep a b :
  split sep (a +:+ String sep b) = split sep a ++ split sep b.
Proof.
  induction a as [|c a IH]; cbn [append split].
  - now rewrite Ascii.eqb_refl.
  - destruct (Ascii.eqb c sep); [now rewrite IH|].
    rewrite IH. pose proof (split_nonempty sep a) as Hne.
    destruct (split sep a); [congruence | reflexivity].
Qed.

(** Text without separator added at the end extends the last segment. *)
Lemma split_app_last sep a s :
  lacks sep s ->
  split sep (a +:+ s)
  = List.removelast (split sep a) ++ [List.last (split sep a) EmptyString +:+ s].
Proof.
  intros Hs. induction a as [|c a IH]; cbn [append].
  - now rewrite (split_lacks _ _ Hs).
  - cbn [split]. pose proof (split_nonempty sep a) as Hne.
    destruct (Ascii.eqb c sep).
    + rewrite IH. destruct (split sep a) as [|seg segs]; [congruence | reflexivity].
    + rewrite IH. destruct (split sep a) as [|seg [|seg2 segs]];
        [congruence | reflexivity | reflexivity].
Qed.

Lemma endsWith_app x s : Cms.endsWith (x +:+ s) s = true.
Proof.
  unfold Cms.endsWith. rewrite JsFacts.length_app.
  replace (String.length x + String.length s - String.length s)
    with (String.length x) by lia.
  rewrite JsFacts.drop_app, JsFacts.startsWith_refl.
  apply Nat.leb_le. lia.
Qed.

Lemma word_lacks c s : is_word c = false -> Spec.word s -> lacks c s.
Proof.
  intros Hc. unfold Spec.word, lacks. induction s as [|d s IH]; [reflexivity|].
  cbn [all]. intros Hw. apply andb_prop in Hw as [Hd Hw]. rewrite (IH Hw).
  destruct (Ascii.eqb_spec d c) as [->|]; [congruence | reflexivity].
Qed.

Lemma includes_lacks c s : lacks c s -> includes s (String c "") = false.
Proof.
  induction s as [|d s IH]; intros Hs; [reflexivity|].
  apply lacks_cons in Hs as [Hd Hs]. cbn [includes startsWith].
  rewrite (IH Hs). apply Ascii.eqb_neq in Hd. rewrite Ascii.eqb_sym in Hd.
  now rewrite Hd.
Qed.

(** A fold of concatenations is the concatenation of the pieces. *)
Lemma fold_left_app_lines {A} (f : A -> list string) (xs : list A) (acc : list string) :
  fold_left (fun acc x => acc ++ f x) xs acc = acc ++ flat_map f xs.
Proof.
  revert acc; induction xs as [|x xs IH]; intros acc; cbn [fold_left flat_map].
  - now rewrite app_nil_r.
  - now rewrite IH, <- app_assoc.
Qed.

Lemma fold_left_last {A B} (f : A -> B) (xs : list A) (init : B) :
  fold_left (fun _ x => f x) xs init = List.last (map f xs) init.
Proof.
  revert init; induction xs as [|x xs IH]; intros init; [reflexivity|].
  cbn [fold_left map]. rewrite IH.
  destruct xs as [|y xs]; [reflexivity|]. cbn [map].
  generalize (f y) (map f xs) (f x) init. clear.
  intros b l. revert b. induction l as [|c l IHl]; intros b d d'; [reflexivity|].
  exact (IHl c d d').
Qed.

End SplitFacts.

(* ================================================================== *)
(** * The serializer: further properties *)
(* ================================================================== *)

Module SerializerFacts.

Import Cms Notions.

Lemma HcPageBlock_nested_ind (P : HcPageBlock -> Prop) :
  (forall ty tx pr kids, Forall P kids -> P (Block ty tx pr kids)) ->
  forall block, P block.
Proof.
  intros Hstep. fix IH 1. intros [ty tx pr kids]. apply Hstep.
  induction kids as [|k kids IHk]; constructor; [apply IH | exact IHk].
Qed.

Lemma digit_is_plain (c : ascii) :
  Js.is_digit c = true ->
  is_space c = false /\ Ascii.eqb c "+" = false /\ Ascii.eqb c "-" = false.
Proof.
  destruct c as [[] [] [] [] [] [] [] []]; intros Hc;
    try discriminate Hc; repeat split.
Qed.

Section WithCollaborators.
Context `{Collaborators}.

Lemma length_flat_map_lines (kids : list HcPageBlock) (depth : nat) :
  Forall (fun k => forall d, length (processBlock k d) = line_count k) kids ->
  length (flat_map (fun child => processBlock child depth) kids)
  = list_sum (map line_count kids).
Proof.
  induction 1 as [|k kids Hk _ IH]; [reflexivity|].
  cbn [flat_map map list_sum]. rewrite length_app, Hk, IH. reflexivity.
Qed.

(** X1.  The serializer returns nothing exactly when the content is
    absent or its state is not ['published'], whatever its blocks.  For
    published content the text is the lines of the blocks, each
    serialized at depth 0, in order, joined by line feeds; with an
    entity definition the lines are wrapped between the marker line
    [::hc-dynamic-content{entity="<name>" field="<field>"}] (a missing
    field is printed as [undefined]) and a closing [::]. *)
Theorem json2mdc_output (content : option HcPageContent)
    (def : option DynamicContentEntityDef) :
  (json2mdc content def = None
   <-> content = None
       \/ exists c, content = Some c /\ state c <> "published"%string)
  /\ (forall c d,
        content = Some c -> state c = "published"%string -> def = Some d ->
        json2mdc content def
        = Some (Js.join newline
                  (("::hc-dynamic-content{entity=" +:+ dquote +:+ name d +:+ dquote
                    +:+ " field=" +:+ dquote +:+ Js.toString (field d) +:+ dquote
                    +:+ "}")
                   :: flat_map (fun block => processBlock block 0) (blocks c)
                   ++ ["::"%string])))
  /\ (forall c,
        content = Some c -> state c = "published"%string -> def = None ->
        json2mdc content def
        = Some (Js.join newline
                  (flat_map (fun block => processBlock block 0) (blocks c)))).
Proof.
  split; [|split].
  - destruct content as [c|]; cbn [json2mdc].
    + destruct (String.eqb_spec (state c) "published") as [Hs | Hs]; cbn [negb].
      * split; [discriminate|]. intros [Hc | (c' & [= <-] & Hc)]; congruence.
      * split; [|reflexivity]. intros _. right. now exists c.
    + split; [now left | reflexivity].
  - intros c d -> Hs ->. apply String.eqb_eq in Hs.
    cbn [json2mdc]. rewrite Hs. cbn [negb].
    now rewrite SplitFacts.fold_left_app_lines.
  - intros c -> Hs ->. apply String.eqb_eq in Hs.
    cbn [json2mdc]. rewrite Hs. cbn [negb].
    now rewrite SplitFacts.fold_left_app_lines.
Qed.

(** X2.  The number of lines a block gives does not depend on the depth
    it is serialized at: one line for a raw text block and for a block
    without children, and for any other block two fence lines around the
    lines of its children. *)
Theorem processBlock_line_count (block : HcPageBlock) (depth : nat) :
  length (processBlock block depth) = line_count block.
Proof.
  revert depth. induction block as [ty tx pr kids IH] using HcPageBlock_nested_ind.
  intros depth. rewrite BlockFacts.processBlock_unfold. cbn [line_count].
  destruct (is_raw_text (Block ty tx pr kids)); [reflexivity|].
  unfold isInlineComponent. cbn [children].
  destruct kids as [|k kids]; [reflexivity|]. cbn [negb]. cbv zeta.
  rewrite !length_app, (length_flat_map_lines _ _ IH). cbn [length]. lia.
Qed.

(** X3.  The indentation of depth [d] is [d] spaces: the pad string of
    two spaces is cut to the target length, one character a level. *)
Theorem indent_width (depth : nat) :
  indent depth = Js.copies " " depth /\ String.length (indent depth) = depth.
Proof.
  split.
  - apply BlockFacts.indent_spaces.
  - rewrite BlockFacts.indent_spaces. apply JsFacts.length_copies.
Qed.

End WithCollaborators.

(** X4.  A string property whose text merely starts with a decimal
    digit (not followed by the [x] of a hexadecimal prefix) counts as a
    number, whatever follows the digit: it is written as the bound
    expression [:key=text], without quotes. *)
Theorem leading_digit_is_unquoted (key : string) (c : ascii) (rest : string) :
  Js.is_digit c = true ->
  match rest with
  | String x _ => x <> "x"%char /\ x <> "X"%char
  | EmptyString => True
  end ->
  isBooleanOrNumber (Primitive (String c rest)) = true
  /\ componentProp key (Primitive (String c rest))
     = ":" +:+ key +:+ "=" +:+ String c rest.
Proof.
  intros Hc Hrest.
  assert (Hnum : isBooleanOrNumber (Primitive (String c rest)) = true).
  { unfold isBooleanOrNumber. apply orb_true_iff. right.
    apply negb_true_iff. unfold parseInt_isNaN. cbn [trimStart].
    destruct (digit_is_plain c Hc) as (-> & -> & ->). cbn [orb].
    destruct rest as [|x rest].
    - now rewrite Hc.
    - destruct Hrest as [Hx HX].
      apply Ascii.eqb_neq in Hx, HX. rewrite Hx, HX, andb_false_r.
      now rewrite Hc. }
  split; [exact Hnum|].
  unfold componentProp. rewrite Hnum. reflexivity.
Qed.

#[local] Existing Instance Demo.collaborators.

(** The demo content, published and as a draft, with and without the
    definition of the entity [city]. *)
Lemma json2mdc_output_witness :
  json2mdc (Some Demo.draft) None = None
  /\ json2mdc (Some Demo.published) (Some {| name := "city"; field := None |})
     = Some (Js.join newline
               (("::hc-dynamic-content{entity=" +:+ dquote +:+ "city" +:+ dquote
                 +:+ " field=" +:+ dquote +:+ "undefined" +:+ dquote +:+ "}")
                :: processBlock Demo.hero 0 ++ ["::"%string]))
  /\ json2mdc (Some Demo.published) None
     = Some (Js.join newline (processBlock Demo.hero 0)).
Proof.
  split; [|split].
  - apply (json2mdc_output (Some Demo.draft) None). right.
    exists Demo.draft. split; [reflexivity | discriminate].
  - destruct (json2mdc_output (Some Demo.published)
                (Some {| name := "city"; field := None |})) as (_ & Hwrap & _).
    rewrite (Hwrap Demo.published {| name := "city"; field := None |}
               eq_refl eq_refl eq_refl).
    reflexivity.
  - destruct (json2mdc_output (Some Demo.published) None) as (_ & _ & Hplain).
    rewrite (Hplain Demo.published eq_refl eq_refl eq_refl). reflexivity.
Defined.

(** The values [3 apples] and [2024-01-31] of a property [n]. *)
Lemma leading_digit_is_unquoted_witness :
  componentProp "n" (Primitive "3 apples") = ":n=3 apples"%string
  /\ componentProp "n" (Primitive "2024-01-31") = ":n=2024-01-31"%string.
Proof.
  split.
  - apply (leading_digit_is_unquoted "n" "3" " apples"); [reflexivity|].
    split; discriminate.
  - apply (leading_digit_is_unquoted "n" "2" "024-01-31"); [reflexivity|].
    split; discriminate.
Defined.

End SerializerFacts.

(* ================================================================== *)
(** * Dynamic segments, expansion and local paths *)
(* ================================================================== *)

Module PathFacts.

Import Cms Notions.

Lemma split_lacks_all sep c s :
  lacks c s -> List.Forall (lacks c) (Js.split sep s).
Proof.
  induction s as [|d s IH]; intros Hs; [repeat constructor|].
  apply SplitFacts.lacks_cons in Hs as [Hd Hs]. specialize (IH Hs).
  cbn [Js.split]. destruct (Ascii.eqb d sep).
  - constructor; [reflexivity | exact IH].
  - destruct (Js.split sep s) as [|seg segs].
    + repeat constructor. now apply SplitFacts.lacks_cons.
    + inversion IH as [|? ? Hseg Hsegs]; subst.
      constructor; [|exact Hsegs]. now apply SplitFacts.lacks_cons.
Qed.

Lemma filter_dynamic_none (segs : list string) :
  List.Forall (lacks ":") segs ->
  List.filter (fun p => Js.includes p ":") segs = [].
Proof.
  induction 1 as [|seg segs Hseg _ IH]; [reflexivity|].
  cbn [List.filter]. now rewrite (SplitFacts.includes_lacks _ _ Hseg).
Qed.

Lemma getEntityDefFromPath_fold (pagePath : string) :
  getEntityDefFromPath pagePath
  = List.last
      (map segment_def
           (List.filter (fun p => Js.includes p ":") (Js.split "/" pagePath)))
      {| name := ""; field := Some ""%string |}.
Proof. exact (SplitFacts.fold_left_last segment_def _ _). Qed.

Lemma last_snoc {A} (l : list A) (x d : A) : List.last (l ++ [x]) d = x.
Proof.
  induction l as [|y l IH]; [reflexivity|].
  cbn [app]. destruct (l ++ [x]) eqn:E; [now destruct l | exact IH].
Qed.

(** The last segment decides. *)
Lemma getEntityDefFromPath_snoc (pre seg : string) :
  lacks "/" seg ->
  Js.includes seg ":" = true ->
  getEntityDefFromPath (pre +:+ "/" +:+ seg) = segment_def seg.
Proof.
  intros Hseg Hdyn. rewrite getEntityDefFromPath_fold.
  change (pre +:+ "/" +:+ seg) with (pre +:+ String "/" seg).
  rewrite SplitFacts.split_app_sep, (SplitFacts.split_lacks _ _ Hseg).
  rewrite List.filter_app. cbn [List.filter]. rewrite Hdyn.
  rewrite List.map_app. cbn [map]. apply last_snoc.
Qed.

Lemma segment_def_full (nm fld : string) :
  lacks "." nm -> lacks "." fld ->
  segment_def (":" +:+ nm +:+ "." +:+ fld) = {| name := nm; field := Some fld |}.
Proof.
  intros Hn Hf. unfold segment_def. cbn [append Js.drop].
  change (nm +:+ "." +:+ fld) with (nm +:+ String "." fld).
  rewrite SplitFacts.split_app_sep.
  rewrite (SplitFacts.split_lacks _ _ Hn), (SplitFacts.split_lacks _ _ Hf).
  reflexivity.
Qed.

Lemma segment_def_name_only (nm : string) :
  lacks "." nm ->
  segment_def (":" +:+ nm) = {| name := nm; field := None |}.
Proof.
  intros Hn. unfold segment_def. cbn [append Js.drop].
  now rewrite (SplitFacts.split_lacks _ _ Hn).
Qed.

(** The entity name of a template path that ends with the placeholder
    of a field. *)
Lemma entity_name_of_template (pre nm fld : string) :
  Spec.word nm -> Spec.word fld ->
  getEntityDefFromPath (pre +:+ "/:" +:+ nm +:+ "." +:+ fld)
  = {| name := nm; field := Some fld |}.
Proof.
  intros Hn Hf.
  change (pre +:+ "/:" +:+ nm +:+ "." +:+ fld)
    with (pre +:+ "/" +:+ (":" +:+ nm +:+ "." +:+ fld)).
  rewrite getEntityDefFromPath_snoc.
  - apply segment_def_full; now apply (SplitFacts.word_lacks ".").
  - cbn [append]. apply SplitFacts.lacks_cons. split; [discriminate|].
    apply SplitFacts.lacks_app. split; [now apply (SplitFacts.word_lacks "/")|].
    apply SplitFacts.lacks_cons. split; [discriminate|].
    now apply (SplitFacts.word_lacks "/").
  - reflexivity.
Qed.

(** X5.  The entity definition of a page path is read from its last
    segment that contains a colon: after the first character of the
    segment, the text before the first dot is the name and the text
    between the first and the second dot the field.  So a path ending
    with [/:name.field] gives that name and that field whatever precedes
    it, a path ending with [/:name] gives no field, and a path without
    colon gives the empty name and the empty field. *)
Theorem getEntityDefFromPath_last_segment :
  (forall pagePath,
      getEntityDefFromPath pagePath
      = List.last
          (map segment_def
               (List.filter (fun p => Js.includes p ":") (Js.split "/" pagePath)))
          {| name := ""; field := Some ""%string |})
  /\ (forall pre nm fld,
        lacks "/" nm -> lacks "." nm -> lacks "/" fld -> lacks "." fld ->
        getEntityDefFromPath (pre +:+ "/:" +:+ nm +:+ "." +:+ fld)
        = {| name := nm; field := Some fld |})
  /\ (forall pre nm,
        lacks "/" nm -> lacks "." nm ->
        getEntityDefFromPath (pre +:+ "/:" +:+ nm) = {| name := nm; field := None |})
  /\ (forall pagePath,
        lacks ":" pagePath ->
        getEntityDefFromPath pagePath = {| name := ""; field := Some ""%string |}).
Proof.
  split; [exact getEntityDefFromPath_fold | split; [|split]].
  - intros pre nm fld Hn1 Hn2 Hf1 Hf2.
    change (pre +:+ "/:" +:+ nm +:+ "." +:+ fld)
      with (pre +:+ "/" +:+ (":" +:+ nm +:+ "." +:+ fld)).
    rewrite getEntityDefFromPath_snoc; [now apply segment_def_full | | reflexivity].
    cbn [append]. apply SplitFacts.lacks_cons. split; [discriminate|].
    apply SplitFacts.lacks_app. split; [exact Hn1|].
    apply SplitFacts.lacks_cons. split; [discriminate | exact Hf1].
  - intros pre nm Hn1 Hn2.
    change (pre +:+ "/:" +:+ nm) with (pre +:+ "/" +:+ (":" +:+ nm)).
    rewrite getEntityDefFromPath_snoc; [now apply segment_def_name_only | | reflexivity].
    cbn [append]. apply SplitFacts.lacks_cons. split; [discriminate | exact Hn1].
  - intros pagePath Hp. rewrite getEntityDefFromPath_fold.
    rewrite filter_dynamic_none; [reflexivity|].
    now apply split_lacks_all.
Qed.

(** ** The local sorted path *)

Lemma replace_placeholders_text f x rest :
  Spec.no_colon x ->
  replace_placeholders f (x +:+ rest) = x +:+ replace_placeholders f rest.
Proof.
  unfold replace_placeholders, pieces.
  induction x as [|c x IH]; intros Hx; [reflexivity|].
  unfold Spec.no_colon in Hx. cbn [Js.all] in Hx. apply andb_prop in Hx as [Hc Hx].
  apply negb_true_iff in Hc.
  cbn [append pieces_go]. unfold match_placeholder. rewrite Hc.
  cbn [fold_right]. f_equal. now apply IH.
Qed.

Lemma replace_placeholders_occurrence f g1 g2 rest :
  g1 <> ""%string -> g2 <> ""%string -> Spec.word g1 -> Spec.word g2 ->
  Spec.starts_nonword rest ->
  replace_placeholders f (":" +:+ g1 +:+ "." +:+ g2 +:+ rest)
  = f g1 g2 +:+ replace_placeholders f rest.
Proof.
  intros Hn1 Hn2 Hw1 Hw2 Hrest. unfold replace_placeholders, pieces.
  pose proof (EntityFacts.match_placeholder_exact g1 g2 rest Hn1 Hn2 Hw1 Hw2 Hrest) as Hm.
  cbn [append] in *. cbn [pieces_go]. rewrite Hm. cbn [fold_right]. f_equal.
  replace (String.length g1 + 1 + String.length g2)
    with (String.length (g1 +:+ "." +:+ g2))
    by (rewrite !JsFacts.length_app; simpl; lia).
  rewrite <- (EntityFacts.pieces_skip (g1 +:+ "." +:+ g2) rest).
  now rewrite !JsFacts.app_assoc.
Qed.

Lemma replace_placeholders_none f s k :
  (forall g1 g2, ~ In (Placeholder g1 g2) (pieces_go s k)) ->
  fold_right (fun pc acc => match pc with
                            | Text c => String c acc
                            | Placeholder g1 g2 => f g1 g2 +:+ acc
                            end) EmptyString (pieces_go s k)
  = Js.drop k s.
Proof.
  revert k; induction s as [|c s IH]; intros k Hno; [now destruct k|].
  cbn [pieces_go] in *. destruct k as [|k]; [|now apply IH].
  destruct (match_placeholder (String c s)) as [[g1 g2]|].
  - exfalso. apply (Hno g1 g2). now left.
  - cbn [fold_right Js.drop]. f_equal. rewrite IH.
    + apply EntityFacts.drop_0.
    + intros g1 g2 Hin. apply (Hno g1 g2). now right.
Qed.

(** X6.  The local sorted path is the sorted path with every dynamic
    segment [:name.field] rewritten as [__name.field__] and the rest
    kept: a sorted path without placeholder is returned unchanged, and
    when no colon is left outside the placeholders the local sorted path
    holds no colon at all. *)
Theorem localSortedPath_of_shape :
  (forall s, ~ Spec.has_placeholder s -> localSortedPath_of s = s)
  /\ (forall x g1 g2 rest,
        Spec.no_colon x ->
        g1 <> ""%string -> g2 <> ""%string -> Spec.word g1 -> Spec.word g2 ->
        Spec.starts_nonword rest ->
        localSortedPath_of (x +:+ ":" +:+ g1 +:+ "." +:+ g2 +:+ rest)
        = x +:+ "__" +:+ g1 +:+ "." +:+ g2 +:+ "__" +:+ localSortedPath_of rest)
  /\ (forall s,
        List.Forall (fun pc => pc <> Text ":") (pieces s) ->
        Spec.no_colon (localSortedPath_of s)).
Proof.
  split; [|split].
  - intros s Hno. apply EntityFacts.match_placeholders_nil_iff in Hno.
    pose proof (proj1 (EntityFacts.match_placeholders_nil s) Hno) as Hnone.
    unfold localSortedPath_of, replace_placeholders, pieces.
    rewrite replace_placeholders_none by exact Hnone. apply EntityFacts.drop_0.
  - intros x g1 g2 rest Hx Hn1 Hn2 Hw1 Hw2 Hrest. unfold localSortedPath_of.
    rewrite (replace_placeholders_text _ _ _ Hx).
    rewrite replace_placeholders_occurrence by assumption.
    now rewrite !JsFacts.app_assoc.
  - intros s Hs. unfold localSortedPath_of, replace_placeholders.
    pose proof (EntityFacts.pieces_go_words s 0) as Hw. fold (pieces s) in Hw.
    induction (pieces s) as [|pc ps IH]; [reflexivity|].
    inversion Hs as [|? ? Hpc Hps]; subst. inversion Hw as [|? ? Hwpc Hwps]; subst.
    specialize (IH Hps Hwps). cbn [fold_right]. destruct pc as [c | g1 g2].
    + apply (proj2 (SplitFacts.lacks_cons ":" c _)). split; [congruence | exact IH].
    + destruct Hwpc as (_ & _ & Hw1 & Hw2).
      apply EntityFacts.word_no_colon in Hw1, Hw2.
      apply (proj2 (SplitFacts.lacks_app ":" _ _)). split; [|exact IH].
      apply (proj2 (SplitFacts.lacks_app ":" "__" _)). split; [reflexivity|].
      apply (proj2 (SplitFacts.lacks_app ":" g1 _)). split; [exact Hw1|].
      apply (proj2 (SplitFacts.lacks_app ":" "." _)). split; [reflexivity|].
      apply (proj2 (SplitFacts.lacks_app ":" g2 _)). split; [exact Hw2 | reflexivity].
Qed.

(** ** Expansion of a template *)

(** The expander on a text made of parts without colon separated by
    occurrences of one placeholder. *)
Lemma resolveInputWithEntity_join (nm fld : string) (parts : list string) (e : Entity) :
  nm <> ""%string -> fld <> ""%string -> Spec.word nm -> Spec.word fld ->
  Forall Spec.no_colon parts ->
  Forall Spec.starts_nonword (tail parts) ->
  Spec.plain_field e fld ->
  Spec.no_dollar (Spec.value e fld) ->
  Spec.no_colon (Spec.value e fld) ->
  resolveInputWithEntity (Js.join (":" +:+ nm +:+ "." +:+ fld) parts) nm e
  = inr (Js.join (Spec.value e fld) parts).
Proof.
  intros Hn1 Hn2 Hw1 Hw2 Hparts Htail Hplain Hd Hc.
  unfold resolveInputWithEntity.
  change (":" +:+ nm +:+ "." +:+ fld) with (placeholder_text nm fld).
  rewrite (EntityFacts.match_join nm fld Hn1 Hn2 Hw1 Hw2 parts Hparts Htail).
  destruct parts as [|x [|y parts]]; [reflexivity | reflexivity |].
  replace (length (x :: y :: parts) - 1) with (S (length parts))
    by (cbn [length]; lia).
  apply (EntityFacts.fold_same_placeholder _ _ _ (Spec.value e fld)).
  - rewrite (EntityFacts.entityProp_of_p nm fld).
    now apply EntityFacts.entity_prop_plain.
  - now apply EntityFacts.replaceAll_join.
  - set (out := Js.join (Spec.value e fld) (x :: y :: parts)).
    unfold Js.or_else. destruct (Js.truthy out) eqn:Et.
    + apply EntityFacts.replaceAll_no_colon; [exact Hd|].
      now apply EntityFacts.no_colon_join.
    + subst out. now apply EntityFacts.replaceAll_join.
  - now left.
Qed.

Section WithCollaborators.
Context `{Collaborators}.

(** X7.  A template page whose path is [P/:name.field], with [P] free
    of colons, and for whose entity name a resolver is registered, gives
    one page for each entity the resolver yields, in the order of the
    entities: the path of each is [P/<value of the field>], it is bound
    to the entity under the entity name, and it is not marked as holding
    dynamic content.  With no entity the template gives no page.  (The
    field is an own property of every entity, or a name found nowhere;
    its values hold no dollar sign and no colon; the label and the
    sorted path of the template are expanded without error.) *)
Theorem expandPage_template (resolvers : gmap string DynamicPageResolver)
    (page : ImportingPage) (r : DynamicPageResolver) (P nm fld : string) :
  Spec.no_colon P ->
  nm <> ""%string -> fld <> ""%string -> Spec.word nm -> Spec.word fld ->
  path page = P +:+ "/:" +:+ nm +:+ "." +:+ fld ->
  resolvers !! nm = Some r ->
  List.Forall (fun e => Spec.plain_field e fld
                        /\ Spec.no_dollar (Spec.value e fld)
                        /\ Spec.no_colon (Spec.value e fld)
                        /\ (exists l, resolveInputWithEntity (label page) nm e = inr l)
                        /\ (exists s, resolveInputWithEntity (sortedPath page) nm e = inr s))
              (resolve r (response r)) ->
  exists pages,
    expandPage resolvers page = inr pages
    /\ map path pages
       = map (fun e => P +:+ "/" +:+ Spec.value e fld) (resolve r (response r))
    /\ map entity pages = map (fun e => Some (nm, e)) (resolve r (response r))
    /\ List.Forall (fun p => hasDynamicContent p = Some false) pages.
Proof.
  intros HP Hn1 Hn2 Hw1 Hw2 Hpath Hr Hvalues.
  assert (Hexp : expandPage resolvers page
                 = for_each (resolvePageWithEntity nm (set_hasDynamicContent false page))
                            (resolve r (response r))).
  { unfold expandPage. cbn [path set_hasDynamicContent]. rewrite Hpath.
    replace (Js.includes (P +:+ "/:" +:+ nm +:+ "." +:+ fld) ":") with true.
    2:{ symmetry. change (P +:+ "/:" +:+ nm +:+ "." +:+ fld)
          with (P +:+ "/" +:+ ":" +:+ (nm +:+ "." +:+ fld)).
        rewrite <- (JsFacts.app_assoc P "/" _).
        apply (JsFacts.includes_app (P +:+ "/") ":" (nm +:+ "." +:+ fld)). }
    cbn [negb]. rewrite (entity_name_of_template P nm fld Hw1 Hw2). cbn [name].
    now rewrite Hr. }
  rewrite Hexp. clear Hexp.
  assert (Hpage : forall e, In e (resolve r (response r)) ->
            exists p, resolvePageWithEntity nm (set_hasDynamicContent false page) e = inr p
                      /\ path p = P +:+ "/" +:+ Spec.value e fld
                      /\ entity p = Some (nm, e)
                      /\ hasDynamicContent p = Some false).
  { intros e He. rewrite List.Forall_forall in Hvalues.
    destruct (Hvalues e He) as (Hplain & Hd & Hc & (l & Hl) & (sp & Hsp)).
    unfold resolvePageWithEntity. cbn [label path sortedPath set_hasDynamicContent].
    rewrite Hl, Hsp, Hpath.
    pose proof (resolveInputWithEntity_join nm fld [P +:+ "/"; ""]%string e
                  Hn1 Hn2 Hw1 Hw2) as Hjoin.
    cbn [Js.join] in Hjoin. rewrite !JsFacts.app_nil_r in Hjoin.
    rewrite !JsFacts.app_assoc in Hjoin. cbn [append] in Hjoin.
    cbn [append]. rewrite Hjoin; [| | |exact Hplain | exact Hd | exact Hc].
    - eexists. split; [reflexivity|]. repeat split.
    - repeat constructor. unfold Spec.no_colon in *.
      rewrite JsFacts.all_app, HP. reflexivity.
    - repeat constructor. }
  clear Hvalues. induction (resolve r (response r)) as [|e es IH].
  - exists []. repeat split; constructor.
  - destruct (Hpage e (or_introl eq_refl)) as (p & Hp & Hpp & Hpe & Hpd).
    destruct IH as (ps & Hps & Hpaths & Hents & Hdyn).
    { intros e' He'. apply Hpage. now right. }
    exists (p :: ps). cbn [for_each map]. rewrite Hp, Hps.
    split; [reflexivity|]. rewrite Hpp, Hpe, Hpaths, Hents.
    repeat split. now constructor.
Qed.

(** ** dumpFile *)

Lemma truthy_app_dot a b : Js.truthy (a +:+ "." +:+ b) = true.
Proof. now destruct a. Qed.

Lemma dumpFile_segments (path ext : string) :
  lacks "/" ext ->
  List.filter nonempty (Js.split "/" (path +:+ "." +:+ ext))
  = List.filter nonempty (List.removelast (Js.split "/" path))
    ++ [List.last (Js.split "/" path) EmptyString +:+ "." +:+ ext].
Proof.
  intros Hext. rewrite SplitFacts.split_app_last.
  - rewrite List.filter_app. cbn [List.filter]. unfold nonempty at 2.
    now rewrite truthy_app_dot.
  - cbn [append]. apply SplitFacts.lacks_cons. split; [discriminate | exact Hext].
Qed.

Lemma dumpFile_trace (cfg : Config) (content path ext : string) :
  lacks "/" ext ->
  trace (dumpFile cfg content path ext)
  = [Mkdir (List.filter (fun p => negb (endsWith p ("." +:+ ext)))
              (contentBasePath cfg
               ++ List.filter nonempty (List.removelast (Js.split "/" path))));
     WriteFile
       (contentBasePath cfg
        ++ List.filter nonempty (List.removelast (Js.split "/" path))
        ++ [List.last (Js.split "/" path) EmptyString +:+ "." +:+ ext])
       content].
Proof.
  intros Hext. unfold dumpFile. cbn [bind emit trace result app].
  rewrite (dumpFile_segments path ext Hext).
  rewrite !List.filter_app. cbn [List.filter].
  rewrite (SplitFacts.endsWith_app _ ("." +:+ ext)). cbn [negb].
  now rewrite !app_nil_r.
Qed.

(** X8.  [dumpFile] makes one directory and writes one file.  The file
    is the content base path, then the non-empty segments of the path
    but the last, then the last segment of the path with a dot and the
    extension added (also when that segment is empty).  The directory is
    made of the same segments but the file name and but every segment
    that itself ends with the dot and the extension; so it is the folder
    of the file as soon as no folder segment ends that way.  (The
    extension holds no slash.) *)
Theorem dumpFile_target (cfg : Config) (content path ext : string) :
  lacks "/" ext ->
  let dirs := List.filter nonempty (List.removelast (Js.split "/" path)) in
  let file := List.last (Js.split "/" path) EmptyString +:+ "." +:+ ext in
  trace (dumpFile cfg content path ext)
  = [Mkdir (List.filter (fun p => negb (endsWith p ("." +:+ ext)))
                        (contentBasePath cfg ++ dirs));
     WriteFile (contentBasePath cfg ++ dirs ++ [file]) content]
  /\ result (dumpFile cfg content path ext) = inr tt
  /\ (List.Forall (fun p => endsWith p ("." +:+ ext) = false)
                  (contentBasePath cfg ++ dirs) ->
      trace (dumpFile cfg content path ext)
      = [Mkdir (contentBasePath cfg ++ dirs);
         WriteFile (contentBasePath cfg ++ dirs ++ [file]) content]).
Proof.
  intros Hext dirs file. split; [now apply dumpFile_trace | split; [reflexivity|]].
  intros Hdirs. rewrite (dumpFile_trace _ _ _ _ Hext). fold dirs file.
  do 2 f_equal.
  induction Hdirs as [|p ps Hp _ IH]; [reflexivity|].
  cbn [List.filter]. rewrite Hp. cbn [negb]. now rewrite IH.
Qed.

End WithCollaborators.

#[local] Existing Instance Demo.collaborators.

(** The paths [/en/cities/:city.slug] and [/en/:region.code/:city]. *)
Lemma getEntityDefFromPath_last_segment_witness :
  getEntityDefFromPath "/en/cities/:city.slug"
  = {| name := "city"; field := Some "slug"%string |}
  /\ getEntityDefFromPath "/en/:region.code/:city"
     = {| name := "city"; field := None |}
  /\ getEntityDefFromPath "/en/about"
     = {| name := ""; field := Some ""%string |}.
Proof.
  destruct getEntityDefFromPath_last_segment as (_ & Hfull & Hname & Hnone).
  split; [|split].
  - exact (Hfull "/en/cities"%string "city"%string "slug"%string
                 eq_refl eq_refl eq_refl eq_refl).
  - exact (Hname "/en/:region.code"%string "city"%string eq_refl eq_refl).
  - exact (Hnone "/en/about"%string eq_refl).
Defined.

(** The sorted paths [/en/1.cities] and [/en/1.cities/1.:city.slug]. *)
Lemma localSortedPath_of_shape_witness :
  localSortedPath_of "/en/1.cities" = "/en/1.cities"%string
  /\ localSortedPath_of "/en/1.cities/1.:city.slug"
     = "/en/1.cities/1.__city.slug__"%string
  /\ Spec.no_colon (localSortedPath_of "/en/1.cities/1.:city.slug").
Proof.
  destruct localSortedPath_of_shape as (Hsame & Hone & Hnone).
  split; [|split].
  - apply Hsame. apply EntityFacts.match_placeholders_nil_iff. reflexivity.
  - exact (Hone "/en/1.cities/1."%string "city"%string "slug"%string ""%string
                eq_refl ltac:(discriminate) ltac:(discriminate) eq_refl eq_refl I).
  - apply Hnone. apply List.Forall_forall. intros pc Hin. vm_compute in Hin.
    repeat destruct Hin as [<- | Hin]; try contradiction; discriminate.
Defined.

(** The template of the city pages with the resolver of the two
    cities. *)
Lemma expandPage_template_witness :
  exists pages,
    expandPage Demo.resolvers Samples.city_template = inr pages
    /\ map path pages = ["/en/cities/lausanne"; "/en/cities/geneva"]%string
    /\ map entity pages
       = [Some ("city"%string, Demo.lausanne); Some ("city"%string, Demo.geneva)].
Proof.
  destruct (expandPage_template Demo.resolvers Samples.city_template
              (@Build_DynamicPageResolver Demo.collaborators "/cities" None None
                 (fun _ => [Demo.lausanne; Demo.geneva]))
              "/en/cities" "city" "slug")
    as (pages & Hexp & Hpaths & Hentities & _);
    try reflexivity; try discriminate.
  - repeat constructor; try (left; eexists; vm_compute; reflexivity);
      eexists; vm_compute; reflexivity.
  - exists pages. split; [exact Hexp | split; [exact Hpaths | exact Hentities]].
Defined.

(** The markup file of [/en/1.news/0.index]. *)
Lemma dumpFile_target_witness :
  trace (dumpFile config "text" "/en/1.news/0.index" "md")
  = [Mkdir ["content"; "en"; "1.news"]%string;
     WriteFile ["content"; "en"; "1.news"; "0.index.md"]%string "text"].
Proof.
  destruct (dumpFile_target config "text" "/en/1.news/0.index" "md" eq_refl)
    as (_ & _ & Hdir).
  apply Hdir. repeat constructor.
Defined.

End PathFacts.

(* ================================================================== *)
(** * Whole runs: what is touched, what is returned *)
(* ================================================================== *)

Module RunFacts.

Import Cms Notions.

Lemma trace_bind {A B} (P : event -> Prop) (m : outcome A) (f : A -> outcome B) :
  List.Forall P (trace m) ->
  (forall a, List.Forall P (trace (f a))) ->
  List.Forall P (trace (bind m f)).
Proof.
  intros Hm Hf. unfold bind. destruct (result m) as [msg | a]; cbn [trace].
  - exact Hm.
  - apply List.Forall_app. split; [exact Hm | apply Hf].
Qed.

Lemma result_bind {A B} (m : outcome A) (f : A -> outcome B) (b : B) :
  result (bind m f) = inr b ->
  exists a, result m = inr a /\ result (f a) = inr b.
Proof.
  unfold bind. destruct (result m) as [msg | a]; cbn [result]; [discriminate|].
  intros Hb. now exists a.
Qed.

Section WithCollaborators.
Context `{Collaborators}.

Lemma dumpFile_quiet cfg content path ext :
  lacks "/" ext -> List.Forall (quiet cfg) (trace (dumpFile cfg content path ext)).
Proof.
  intros Hext. rewrite (PathFacts.dumpFile_trace cfg content path ext Hext).
  repeat constructor. cbn [confined]. eexists. split; [|reflexivity].
  intros Hnil. apply app_eq_nil in Hnil as [_ Hnil]. discriminate.
Qed.

Lemma fetchEndpoint_quiet cfg path query :
  List.Forall (quiet cfg) (trace (fetchEndpoint cfg path query)).
Proof.
  unfold fetchEndpoint. cbn [bind emit ret trace result app].
  repeat constructor. cbn [confined]. apply JsFacts.startsWith_app.
Qed.

Lemma processPage_quiet cfg navigation i page :
  List.Forall (quiet cfg) (trace (processPage cfg navigation i page)).
Proof.
  assert (Hfetch : quiet cfg (Fetch (page_url cfg page))).
  { split; [reflexivity|]. cbn [confined]. unfold page_url.
    apply JsFacts.startsWith_app. }
  destruct (path_invalid (path page)) eqn:Hv.
  - rewrite (PagesFacts.processPage_invalid _ _ _ _ Hv). constructor.
  - destruct (page_markup cfg page) as [e | markup] eqn:Hm.
    + rewrite (PagesFacts.processPage_throws _ navigation i _ _ Hv Hm).
      cbn [trace]. constructor; [exact Hfetch | constructor].
    + destruct (PagesFacts.processPage_valid cfg navigation i page markup Hv Hm)
        as (page' & -> & _).
      cbn [trace]. constructor; [exact Hfetch|].
      apply List.Forall_app. split.
      * destruct (_ && _); [|constructor]. now apply dumpFile_quiet.
      * now apply dumpFile_quiet.
Qed.

Lemma processPages_quiet cfg navigation pages :
  forall i, List.Forall (quiet cfg) (trace (processPages cfg navigation i pages)).
Proof.
  induction pages as [|page rest IH]; intros i; [constructor|].
  rewrite PagesFacts.processPages_cons.
  apply trace_bind; [apply processPage_quiet|]. intros page'.
  apply trace_bind; [apply IH|]. intros rest'. constructor.
Qed.

Lemma buildPages_quiet cfg navigation resolvers :
  List.Forall (quiet cfg) (trace (buildPages cfg navigation resolvers)).
Proof.
  unfold buildPages. apply trace_bind.
  - unfold lift. constructor.
  - intros pages. apply processPages_quiet.
Qed.

Lemma generateLang_quiet cfg prefixes pageLinks lang :
  List.Forall (quiet cfg) (trace (generateLang cfg prefixes pageLinks lang)).
Proof.
  unfold generateLang.
  apply trace_bind; [repeat constructor|]. intros _.
  apply trace_bind; [apply fetchEndpoint_quiet|]. intros labels.
  apply trace_bind; [now apply dumpFile_quiet|]. intros _.
  apply trace_bind; [apply fetchEndpoint_quiet|]. intros navigation.
  apply trace_bind; [now apply dumpFile_quiet|]. intros _.
  apply trace_bind; [apply buildPages_quiet|]. intros pages. constructor.
Qed.

Lemma generateLangs_quiet cfg prefixes langs :
  forall pageLinks,
    List.Forall (quiet cfg) (trace (generateLangs cfg prefixes pageLinks langs)).
Proof.
  induction langs as [|lang rest IH]; intros pageLinks; [constructor|].
  cbn [generateLangs]. apply trace_bind; [apply generateLang_quiet|].
  intros pageLinks'. apply IH.
Qed.

Lemma generateContent_quiet (cfg0 : Config) (apiBaseUrl' : string)
    (contentRootFolder : option string)
    (excludeLabelKeyPrefixes : option (list string)) :
  let cfg := configure cfg0 apiBaseUrl' contentRootFolder in
  exists rest,
    trace (generateContent cfg0 apiBaseUrl' contentRootFolder excludeLabelKeyPrefixes)
    = Rm (contentBasePath cfg) :: rest
    /\ List.Forall (quiet cfg) rest.
Proof.
  intros cfg.
  unfold generateContent. fold cfg. rewrite EffectFacts.bind_emit. cbn [trace].
  eexists. split; [reflexivity|].
  apply (trace_bind (quiet cfg)); [apply fetchEndpoint_quiet|]. intros langs.
  apply trace_bind; [now apply dumpFile_quiet|]. intros _.
  apply trace_bind; [apply generateLangs_quiet|]. intros pageLinks.
  now apply dumpFile_quiet.
Qed.

(** X9.  A run of [generateContent] removes the content root, as its
    first action, and removes nothing else.  The segments of every file
    it writes begin with those of the content root and go on with at
    least one more.  Every request it sends goes to a URL that starts
    with the API base URL it was given. *)
Theorem generateContent_confined (cfg0 : Config) (apiBaseUrl' : string)
    (contentRootFolder : option string)
    (excludeLabelKeyPrefixes : option (list string)) :
  let cfg := configure cfg0 apiBaseUrl' contentRootFolder in
  apiBaseUrl cfg = apiBaseUrl'
  /\ exists rest,
      trace (generateContent cfg0 apiBaseUrl' contentRootFolder excludeLabelKeyPrefixes)
      = Rm (contentBasePath cfg) :: rest
      /\ List.Forall (fun e => is_rm e = false /\ confined cfg e) rest.
Proof.
  intros cfg. split; [reflexivity|].
  destruct (generateContent_quiet cfg0 apiBaseUrl' contentRootFolder
              excludeLabelKeyPrefixes) as (rest & Ht & Hq).
  exists rest. split; [exact Ht | exact Hq].
Qed.

(** ** What buildPages returns *)

Lemma processPage_result cfg navigation i page page' :
  result (processPage cfg navigation i page) = inr page' ->
  path_invalid (path page) = false
  /\ same_page page page'
  /\ let lsp := localSortedPath_of (sortedPath page) in
     let target := if createDir navigation i page then lsp +:+ "/0.index" else lsp in
     localSortedPath page' = Some target
     /\ localPath page'
        = Some (Js.replace
                  (Js.replace target
                     ("/" +:+ Js.number_toString (Js.plus (sort page) 1) +:+ ".") "/")
                  "/0.index" "").
Proof.
  destruct (path_invalid (path page)) eqn:Hv.
  - rewrite (PagesFacts.processPage_invalid _ _ _ _ Hv). discriminate.
  - destruct (page_markup cfg page) as [e | markup] eqn:Hm.
    + rewrite (PagesFacts.processPage_throws _ navigation i _ _ Hv Hm). discriminate.
    + destruct (PagesFacts.processPage_valid cfg navigation i page markup Hv Hm)
        as (q & -> & Hq).
      cbn [result]. intros [= <-]. split; [reflexivity|]. rewrite Hq.
      destruct (createDir navigation i page);
        (split; [repeat split|]); split; reflexivity.
Qed.

Lemma processPages_result cfg navigation pages :
  forall i pages',
    result (processPages cfg navigation i pages) = inr pages' ->
    length pages' = length pages
    /\ forall j p, pages !! j = Some p ->
         exists p', pages' !! j = Some p'
                    /\ result (processPage cfg navigation (i + j) p) = inr p'.
Proof.
  induction pages as [|page rest IH]; intros i pages' Hres.
  - injection Hres as <-. split; [reflexivity|]. intros j p Hj. discriminate.
  - rewrite PagesFacts.processPages_cons in Hres.
    apply result_bind in Hres as (page' & Hpage & Hres).
    apply result_bind in Hres as (rest' & Hrest & Hres).
    injection Hres as <-. destruct (IH (S i) rest' Hrest) as [Hlen Hat].
    split; [cbn [length]; now rewrite Hlen|].
    intros [|j] p Hj.
    + injection Hj as <-. exists page'. rewrite Nat.add_0_r. now split.
    + destruct (Hat j p Hj) as (p' & Hp' & Hp). exists p'.
      replace (i + S j) with (S i + j) by lia. now split.
Qed.

(** Below 2^53 the sum is exact and printed digit by digit. *)
Lemma number_toString_small (a b : Z) :
  (Z.abs a < 2 ^ 53)%Z -> (Z.abs b < 2 ^ 53)%Z -> (Z.abs (a + b) < 2 ^ 53)%Z ->
  Js.number_toString (Js.plus a b) = Js.show_int (a + b).
Proof.
  intros Ha Hb Hab. unfold Js.plus, Js.round53 at 2 3.
  apply Z.ltb_lt in Ha, Hb. rewrite Ha, Hb.
  unfold Js.round53, Js.number_toString.
  apply Z.ltb_lt in Hab. now rewrite Hab, Hab.
Qed.

(** X10.  When [buildPages] returns, the first loop has returned the
    expanded sequence and the result holds as many pages, in the same
    order, every path among them valid; the page at index [i] is as it
    was but for its two local paths, which are both set: the local
    sorted path is the rewritten sorted path, followed by [/0.index]
    when [createDir] holds of the navigation received, [i] and the page,
    and the local path is that text with the first [/<n>.] turned into
    a slash, [n] being the sort plus one as a double prints it, and the
    first [/0.index] taken out.  When the sort and the sum are below
    2^53 in absolute value, [n] is the sum in decimal digits. *)
Theorem buildPages_returns_expanded_pages (cfg : Config)
    (navigation : list ImportingPage)
    (dynamicPageResolvers : gmap string DynamicPageResolver)
    (pages : list ImportingPage) :
  result (buildPages cfg navigation dynamicPageResolvers) = inr pages ->
  exists expanded,
    expandPages dynamicPageResolvers navigation = inr expanded
    /\ length pages = length expanded
    /\ forall i p,
         expanded !! i = Some p ->
         exists p',
           pages !! i = Some p'
           /\ path_invalid (path p) = false
           /\ same_page p p'
           /\ (let lsp := localSortedPath_of (sortedPath p) in
               let target :=
                 if createDir navigation i p then lsp +:+ "/0.index" else lsp in
               localSortedPath p' = Some target
               /\ localPath p'
                  = Some (Js.replace
                            (Js.replace target
                               ("/" +:+ Js.number_toString (Js.plus (sort p) 1) +:+ ".")
                               "/")
                            "/0.index" ""))
           /\ ((Z.abs (sort p) < 2 ^ 53)%Z -> (Z.abs (sort p + 1) < 2 ^ 53)%Z ->
               Js.number_toString (Js.plus (sort p) 1) = Js.show_int (sort p + 1)).
Proof.
  intros Hres. unfold buildPages in Hres.
  destruct (expandPages dynamicPageResolvers navigation) as [e | expanded] eqn:He.
  - rewrite EffectFacts.bind_lift_inl in Hres. discriminate.
  - rewrite EffectFacts.bind_lift_inr in Hres.
    exists expanded. split; [reflexivity|].
    apply processPages_result in Hres as [Hlen Hat].
    split; [exact Hlen|]. intros i p Hp.
    destruct (Hat i p Hp) as (p' & Hp' & Hrun). cbn [Nat.add] in Hrun.
    exists p'. split; [exact Hp'|].
    destruct (processPage_result _ _ _ _ _ Hrun) as (Hv & Hsame & Hpaths).
    repeat split; try exact Hv; try apply Hsame; try apply Hpaths.
    intros Ha Hb. apply number_toString_small; [exact Ha | reflexivity | exact Hb].
Qed.

End WithCollaborators.

#[local] Existing Instance Demo.collaborators.

(** The section [/en/news] (sort 0) and its post (sort 0). *)
Lemma buildPages_returns_expanded_pages_witness :
  let navigation :=
    [Demo.page "/en/news" "/en/1.news" "never";
     Demo.page "/en/news/post" "/en/1.news/1.post" "always"] in
  exists pages,
    result (buildPages config navigation ∅) = inr pages
    /\ length pages = 2
    /\ map localSortedPath pages
       = [Some "/en/1.news/0.index"; Some "/en/1.news/1.post"]%string
    /\ map localPath pages = [Some "/en/news"; Some "/en/news/1.post"]%string.
Proof.
  intros navigation.
  destruct (result (buildPages config navigation ∅)) as [msg | pages] eqn:Hres;
    [vm_compute in Hres; discriminate|].
  exists pages.
  destruct (buildPages_returns_expanded_pages config navigation ∅ pages Hres)
    as (expanded & Hexp & Hlen & _).
  vm_compute in Hexp. injection Hexp as <-.
  split; [reflexivity | split; [exact Hlen|]].
  vm_compute in Hres. injection Hres as <-. split; reflexivity.
Defined.

End RunFacts.

(* ================================================================== *)
(** * The base module: placeholders, serializer, resolver names *)
(* ================================================================== *)

Module BaseMoreFacts.

Import Base Notions.

(** ** [replaceAll] with a pattern whose first character is rare *)

Section ReplaceAll.

Variable c0 : ascii.
Variables p' v : string.
Hypothesis v_no_dollar : Spec.no_dollar v.

Let pat : string := String c0 p'.

Lemma replaceAll_go_forgets s : forall k b b',
  Js.replaceAll_go pat v b s k = Js.replaceAll_go pat v b' s k.
Proof.
  induction s as [|c s IH]; intros k b b'.
  - cbn [Js.replaceAll_go]. destruct k; reflexivity.
  - cbn [Js.replaceAll_go]. destruct k as [|k]; [|apply IH].
    rewrite !(JsFacts.getSubstitution_plain _ _ _ v v_no_dollar).
    unfold pat. destruct (Js.startsWith _ _); f_equal; apply IH.
Qed.

Lemma replaceAll_passes x rest :
  lacks c0 x ->
  Js.replaceAll (x +:+ rest) pat v = x +:+ Js.replaceAll rest pat v.
Proof.
  unfold Js.replaceAll. induction x as [|c x IH]; intros Hx; [reflexivity|].
  apply SplitFacts.lacks_cons in Hx as [Hc Hx].
  apply Ascii.eqb_neq in Hc. rewrite Ascii.eqb_sym in Hc.
  cbn [append Js.replaceAll_go]. unfold pat at 1. cbn [Js.startsWith].
  rewrite Hc. cbn [andb]. f_equal.
  rewrite (replaceAll_go_forgets _ 0 _ ""). now apply IH.
Qed.

Lemma replaceAll_skips x rest : forall b,
  Js.replaceAll_go pat v b (x +:+ rest) (String.length x) = Js.replaceAll rest pat v.
Proof.
  induction x as [|c x IH]; intros b.
  - apply replaceAll_go_forgets.
  - cbn [append String.length Js.replaceAll_go]. apply IH.
Qed.

Lemma replaceAll_at_match rest :
  Js.replaceAll (pat +:+ rest) pat v = v +:+ Js.replaceAll rest pat v.
Proof.
  unfold Js.replaceAll at 1.
  change (pat +:+ rest) with (String c0 (p' +:+ rest)). cbn [Js.replaceAll_go].
  replace (Js.startsWith (String c0 (p' +:+ rest)) pat) with true
    by (symmetry; apply (JsFacts.startsWith_app pat rest)).
  rewrite (JsFacts.getSubstitution_plain _ _ _ v v_no_dollar).
  f_equal. unfold pat. apply replaceAll_skips.
Qed.

Lemma replaceAll_joined parts :
  List.Forall (lacks c0) parts ->
  Js.replaceAll (Js.join pat parts) pat v = Js.join v parts.
Proof.
  induction parts as [|x parts IH]; intros Hc; [reflexivity|].
  inversion Hc as [|? ? Hx Hc']; subst.
  destruct parts as [|y parts].
  - cbn [Js.join]. rewrite <- (JsFacts.app_nil_r x) at 1.
    rewrite (replaceAll_passes _ _ Hx). apply JsFacts.app_nil_r.
  - rewrite !EntityFacts.join_cons2, (replaceAll_passes _ _ Hx), replaceAll_at_match.
    now rewrite IH.
Qed.

Lemma replaceAll_lacks s : lacks c0 s -> Js.replaceAll s pat v = s.
Proof.
  intros Hs. rewrite <- (JsFacts.app_nil_r s) at 1.
  rewrite (replaceAll_passes _ _ Hs). apply JsFacts.app_nil_r.
Qed.

End ReplaceAll.

(** ** The tokens of a joined text *)

Lemma tokens_text x rest :
  lacks "{" x -> tokens_go (x +:+ rest) 0 = tokens_go rest 0.
Proof.
  induction x as [|c x IH]; intros Hx; [reflexivity|].
  apply SplitFacts.lacks_cons in Hx as [Hc Hx]. apply Ascii.eqb_neq in Hc.
  cbn [append tokens_go]. unfold match_token. rewrite Hc. now apply IH.
Qed.

Lemma tokens_skip x rest :
  tokens_go (x +:+ rest) (String.length x) = tokens_go rest 0.
Proof. induction x as [|c x IH]; [reflexivity | exact IH]. Qed.

Lemma tokens_occurrence body rest :
  token_body body = true ->
  tokens_go (token_text body +:+ rest) 0 = body :: tokens_go rest 0.
Proof.
  intros Hb. unfold token_text.
  pose proof (BaseFacts.match_token_complete body rest Hb) as Hm.
  rewrite !JsFacts.app_assoc. cbn [append] in *. cbn [tokens_go]. rewrite Hm.
  f_equal.
  replace (String.length body + 1) with (String.length (body +:+ "}"))
    by (rewrite JsFacts.length_app; reflexivity).
  rewrite <- (tokens_skip (body +:+ "}") rest).
  now rewrite JsFacts.app_assoc.
Qed.

Lemma tokens_join body parts :
  token_body body = true ->
  List.Forall (lacks "{") parts ->
  tokens (Js.join (token_text body) parts) = repeat body (length parts - 1).
Proof.
  intros Hb. unfold tokens.
  induction parts as [|x parts IH]; intros Hc; [reflexivity|].
  inversion Hc as [|? ? Hx Hc']; subst.
  destruct parts as [|y parts].
  - cbn [Js.join length Nat.sub repeat].
    rewrite <- (JsFacts.app_nil_r x). now rewrite tokens_text.
  - rewrite EntityFacts.join_cons2, (tokens_text _ _ Hx), (tokens_occurrence _ _ Hb).
    rewrite (IH Hc'). cbn [length Nat.sub repeat]. now rewrite Nat.sub_0_r.
Qed.

Lemma lacks_join c v parts :
  lacks c v -> List.Forall (lacks c) parts -> lacks c (Js.join v parts).
Proof.
  intros Hv. induction parts as [|x parts IH]; intros Hc; [reflexivity|].
  inversion Hc as [|? ? Hx Hc']; subst.
  destruct parts as [|y parts]; [exact Hx|].
  rewrite EntityFacts.join_cons2.
  apply SplitFacts.lacks_app. split; [exact Hx|].
  apply SplitFacts.lacks_app. split; [exact Hv | now apply IH].
Qed.

Lemma join_empty_cons x rest : Js.join "" (x :: rest) = x +:+ Js.join "" rest.
Proof. destruct rest; cbn [Js.join append]; [now rewrite JsFacts.app_nil_r | reflexivity]. Qed.

Lemma join_empty_app l x : Js.join "" (l ++ [x]) = Js.join "" l +:+ x.
Proof.
  induction l as [|y l IH]; [reflexivity|].
  cbn [app]. now rewrite !join_empty_cons, IH, JsFacts.app_assoc.
Qed.

Lemma fold_left_append {A} (f : A -> string) (xs : list A) (acc : string) :
  fold_left (fun acc x => acc +:+ f x) xs acc = acc +:+ Js.join "" (map f xs).
Proof.
  revert acc; induction xs as [|x xs IH]; intros acc; cbn [fold_left map].
  - now rewrite JsFacts.app_nil_r.
  - now rewrite IH, join_empty_cons, JsFacts.app_assoc.
Qed.

Section WithValues.
Variable Values : Type.
Variable get : Values -> string -> string.

(** X11.  A template made of parts without opening brace, separated by
    occurrences of one token [{body}], resolves to the same parts
    separated by the value the context gives for [body], provided the
    value holds neither a dollar sign nor an opening brace; an unknown
    path, whose value is the empty string, is simply erased. *)
Theorem resolvePlaceholders_substitutes (body : string) (parts : list string)
    (values : Values) :
  token_body body = true ->
  List.Forall (lacks "{") parts ->
  Spec.no_dollar (get values body) ->
  lacks "{" (get values body) ->
  resolvePlaceholders Values get (Str (Js.join (token_text body) parts)) values
  = Js.join (get values body) parts.
Proof.
  intros Hb Hparts Hd Hv. cbn [resolvePlaceholders].
  destruct parts as [|x [|y parts]].
  - reflexivity.
  - cbn [Js.join]. destruct (Js.truthy x); [|reflexivity].
    unfold replaceInString.
    pose proof (tokens_join body [x] Hb Hparts) as Ht. cbn [Js.join] in Ht.
    now rewrite Ht.
  - replace (Js.truthy (Js.join (token_text body) (x :: y :: parts))) with true.
    2:{ rewrite EntityFacts.join_cons2. destruct x; reflexivity. }
    unfold replaceInString. rewrite (tokens_join body _ Hb Hparts).
    replace (length (x :: y :: parts) - 1) with (S (length parts))
      by (cbn [length]; lia).
    cbn [repeat fold_left].
    change (token_text body) with (String "{" (body +:+ "}")).
    rewrite (replaceAll_joined "{" (body +:+ "}") _ Hd _ Hparts).
    generalize (length parts). intros n. induction n as [|n IH]; [reflexivity|].
    cbn [repeat fold_left].
    rewrite (replaceAll_lacks "{" (body +:+ "}") _ Hd); [exact IH|].
    now apply lacks_join.
Qed.

(** The pairs of a query template that stay: each key with its resolved
    value, when that value is not empty. *)
Let kept (entries : list (string * string)) (values : Values)
    : list (string * string) :=
  List.filter (fun kv => Js.truthy (snd kv))
              (map (fun kv => (fst kv, replaceInString Values get values (snd kv)))
                   entries).

Lemma fold_query_nonempty (entries : list (string * string)) (values : Values) acc :
  acc <> ""%string ->
  fold_left
    (fun acc kv =>
       let replaced := replaceInString Values get values (snd kv) in
       if negb (Js.truthy replaced) then acc
       else
         let acc := acc +:+ (if Js.truthy acc then "&" else "?") in
         acc +:+ fst kv +:+ "=" +:+ replaced)
    entries acc
  = acc +:+ Js.join ""
              (map (fun kv => "&" +:+ fst kv +:+ "=" +:+ snd kv) (kept entries values)).
Proof.
  revert acc; induction entries as [|[k t] entries IH]; intros acc Hacc.
  - cbn. now rewrite JsFacts.app_nil_r.
  - cbn [fold_left fst snd]. unfold kept in *. cbn [map List.filter fst snd].
    destruct (Js.truthy (replaceInString Values get values t)) eqn:Et; cbn [negb].
    + rewrite IH.
      * cbn [map fst snd]. rewrite join_empty_cons.
        destruct acc as [|a acc]; [congruence|]. cbn [Js.truthy].
        now rewrite !JsFacts.app_assoc.
      * destruct acc as [|a acc]; [congruence | discriminate].
    + now apply IH.
Qed.

Lemma join_amp (x : string) (rest : list string) :
  Js.join "&" (x :: rest) = x +:+ Js.join "" (map (fun y => "&" +:+ y) rest).
Proof.
  revert x; induction rest as [|y rest IH]; intros x.
  - cbn. now rewrite JsFacts.app_nil_r.
  - rewrite EntityFacts.join_cons2, IH. cbn [map]. now rewrite join_empty_cons.
Qed.

(** X12.  For a query template given as an object, the result is the
    query string of the pairs whose resolved value is not empty, in the
    order of the entries: empty when no pair stays, and otherwise a
    question mark followed by the pairs [key=value] separated by
    ampersands.  A pair whose value resolves to the empty string leaves
    no trace, not even a separator. *)
Theorem resolvePlaceholders_query_string (entries : list (string * string))
    (values : Values) :
  resolvePlaceholders Values get (Obj entries) values
  = query_string
      (List.filter (fun kv => Js.truthy (snd kv))
         (map (fun kv => (fst kv, replaceInString Values get values (snd kv)))
              entries)).
Proof.
  cbn [resolvePlaceholders]. fold (kept entries values).
  induction entries as [|[k t] entries IH]; [reflexivity|].
  cbn [fold_left fst snd]. unfold kept in *. cbn [map List.filter fst snd].
  destruct (Js.truthy (replaceInString Values get values t)) eqn:Et; cbn [negb].
  - cbn [Js.truthy append]. rewrite fold_query_nonempty by discriminate.
    unfold query_string. cbn [map fst snd]. rewrite join_amp.
    rewrite List.map_map. cbn [append]. now rewrite !JsFacts.app_assoc.
  - exact IH.
Qed.

End WithValues.

(** ** The serializer of the base module *)

Section WithHelpers.
Variable pascalToKebab : option string -> string.

(** X13.  In the base module, published content gives the
    concatenation of the texts of its blocks, in order (the empty text
    when there is no block).  A paragraph gives the three lines
    [::block-p], its text ([undefined] when it has none) and [::],
    whatever its properties.  Any other block gives one line, a colon,
    the kebab-case name and the properties; when the kebab-case name
    starts with [session], that beginning, and only that, is renamed to
    [event]. *)
Theorem base_json2mdc_output :
  (forall content,
      BasePages.state content = "published"%string ->
      BasePages.json2mdc pascalToKebab (Some content)
      = Some (Js.join "" (map (BasePages.block_text pascalToKebab)
                              (BasePages.blocks content))))
  /\ (forall block,
        BasePages.type block = Some "paragraph"%string ->
        BasePages.block_text pascalToKebab block
        = "::block-p" +:+ Cms.newline +:+ Js.toString (BasePages.data_text block)
          +:+ Cms.newline +:+ "::" +:+ Cms.newline)
  /\ (forall block rest,
        BasePages.type block <> Some "paragraph"%string ->
        pascalToKebab (BasePages.type block) = "session" +:+ rest ->
        BasePages.block_text pascalToKebab block
        = ":event" +:+ rest
          +:+ Cms.processBlockProps
                (Cms.Block (BasePages.type block) None (BasePages.data_props block) [])
          +:+ Cms.newline)
  /\ (forall block,
        BasePages.type block <> Some "paragraph"%string ->
        Js.startsWith (pascalToKebab (BasePages.type block)) "session" = false ->
        BasePages.block_text pascalToKebab block
        = ":" +:+ pascalToKebab (BasePages.type block)
          +:+ Cms.processBlockProps
                (Cms.Block (BasePages.type block) None (BasePages.data_props block) [])
          +:+ Cms.newline).
Proof.
  assert (Hpar : forall block,
             BasePages.type block <> Some "paragraph"%string ->
             match BasePages.type block with
             | Some t => String.eqb t "paragraph"
             | None => false
             end = false).
  { intros block Hty. destruct (BasePages.type block) as [t|]; [|reflexivity].
    apply String.eqb_neq. congruence. }
  split; [|split; [|split]].
  - intros content Hs. apply String.eqb_eq in Hs.
    cbn [BasePages.json2mdc]. rewrite Hs. cbn [negb].
    now rewrite fold_left_append.
  - intros block Hty. unfold BasePages.block_text. now rewrite Hty.
  - intros block rest Hty Hk. unfold BasePages.block_text.
    rewrite (Hpar _ Hty), Hk. cbn [append Js.startsWith Ascii.eqb Bool.eqb andb].
    unfold Js.replace. cbn [Js.replace_go append Js.startsWith Ascii.eqb Bool.eqb andb].
    cbn [Js.getSubstitution String.length Js.drop append Ascii.eqb Bool.eqb].
    unfold Cms.processBlockProps. cbn [Cms.props].
    destruct (map _ (BasePages.data_props block)); cbn [append];
      rewrite ?JsFacts.app_assoc; cbn [append]; rewrite ?JsFacts.app_assoc;
      reflexivity.
  - intros block Hty Hk. unfold BasePages.block_text.
    rewrite (Hpar _ Hty).
    replace (Js.startsWith (":" +:+ pascalToKebab (BasePages.type block)) ":session")
      with false by (symmetry; exact Hk).
    unfold Cms.processBlockProps. cbn [Cms.props].
    destruct (map _ (BasePages.data_props block)); cbn [append];
      rewrite ?JsFacts.app_assoc; cbn [append]; rewrite ?JsFacts.app_assoc;
      reflexivity.
Qed.

End WithHelpers.

(** ** The resolver name of a path, in both modules *)

Lemma entityName_fold (pagePath : string) :
  BasePages.entityName pagePath
  = Js.join ""
      (map (fun p => Cms.name (segment_def p))
           (List.filter (fun p => Js.includes p ":") (Js.split "/" pagePath))).
Proof. reflexivity. Qed.

(** X14.  The name under which a resolver is looked up for a template
    path differs between the two modules: the base module joins the
    entity names of all the dynamic segments of the path, the cms module
    takes the one of the last dynamic segment.  They agree on a path
    with a single dynamic segment, and both give the empty name for a
    path without colon. *)
Theorem resolver_name_of_path :
  (forall pre seg,
      lacks "/" seg -> Js.includes seg ":" = true ->
      BasePages.entityName (pre +:+ "/" +:+ seg)
      = BasePages.entityName pre +:+ Cms.name (segment_def seg)
      /\ Cms.name (Cms.getEntityDefFromPath (pre +:+ "/" +:+ seg))
         = Cms.name (segment_def seg))
  /\ (forall pagePath,
        lacks ":" pagePath ->
        BasePages.entityName pagePath = ""%string
        /\ Cms.name (Cms.getEntityDefFromPath pagePath) = ""%string).
Proof.
  split.
  - intros pre seg Hseg Hdyn. split.
    + rewrite !entityName_fold.
      change (pre +:+ "/" +:+ seg) with (pre +:+ String "/" seg).
      rewrite SplitFacts.split_app_sep, (SplitFacts.split_lacks _ _ Hseg).
      rewrite List.filter_app. cbn [List.filter]. rewrite Hdyn.
      rewrite List.map_app. cbn [map]. apply join_empty_app.
    + now rewrite PathFacts.getEntityDefFromPath_snoc.
  - intros pagePath Hp. split.
    + rewrite entityName_fold, PathFacts.filter_dynamic_none; [reflexivity|].
      now apply PathFacts.split_lacks_all.
    + rewrite PathFacts.getEntityDefFromPath_fold, PathFacts.filter_dynamic_none;
        [reflexivity|].
      now apply PathFacts.split_lacks_all.
Qed.

(** The template [/pages/{page.id}/{page.id}.json] where [page.id] is
    [42], and [/x/{lang.code}] where [lang.code] is unknown. *)
Lemma resolvePlaceholders_substitutes_witness :
  resolvePlaceholders unit Demo.lookup_demo (Str "/pages/{page.id}/{page.id}.json") tt
  = "/pages/42/42.json"%string
  /\ resolvePlaceholders unit Demo.lookup_demo (Str "/x/{lang.code}") tt
     = "/x/"%string.
Proof.
  split.
  - apply (resolvePlaceholders_substitutes unit Demo.lookup_demo "page.id"
             ["/pages/"; "/"; ".json"]%string tt); try reflexivity.
    repeat constructor.
  - apply (resolvePlaceholders_substitutes unit Demo.lookup_demo "lang.code"
             ["/x/"; ""]%string tt); try reflexivity.
    repeat constructor.
Defined.

(** A session list and a paragraph. *)
Lemma base_json2mdc_output_witness :
  BasePages.json2mdc Samples.kebab
    (Some {| BasePages.state := "published";
             BasePages.blocks :=
               [Samples.session_block;
                {| BasePages.type := Some "paragraph"%string;
                   BasePages.data_text := Some "Hello"%string;
                   BasePages.data_props := [] |}] |})
  = Some (":event-list{:n=3}" +:+ Cms.newline +:+ "::block-p" +:+ Cms.newline
          +:+ "Hello" +:+ Cms.newline +:+ "::" +:+ Cms.newline)
  /\ BasePages.block_text Samples.kebab Samples.session_block
     = ":event-list{:n=3}" +:+ Cms.newline.
Proof.
  destruct (base_json2mdc_output Samples.kebab) as (Hall & _ & Hsession & _).
  split.
  - rewrite Hall by reflexivity. reflexivity.
  - rewrite (Hsession Samples.session_block "-list"%string); [reflexivity | | reflexivity].
    discriminate.
Defined.

(** The paths [/en/:region.code/:city.slug] and [/en/about]. *)
Lemma resolver_name_of_path_witness :
  BasePages.entityName "/en/:region.code/:city.slug" = "regioncity"%string
  /\ Cms.name (Cms.getEntityDefFromPath "/en/:region.code/:city.slug") = "city"%string
  /\ BasePages.entityName "/en/about" = ""%string.
Proof.
  destruct resolver_name_of_path as (Hsnoc & Hnone).
  destruct (Hsnoc "/en/:region.code"%string ":city.slug"%string eq_refl eq_refl)
    as (Hbase & Hcms).
  split; [|split].
  - exact Hbase.
  - exact Hcms.
  - exact (proj1 (Hnone "/en/about"%string eq_refl)).
Defined.

End BaseMoreFacts.

(* ================================================================== *)
(** * The navigation store and the page lookups *)
(* ================================================================== *)

Module StoreFacts.

Import Navigation Notions.

(** ** The page map *)

Lemma find_app {A} (f : A -> bool) (l1 l2 : list A) :
  List.find f (l1 ++ l2)
  = match List.find f l1 with Some x => Some x | None => List.find f l2 end.
Proof.
  induction l1 as [|x l1 IH]; [reflexivity|].
  cbn [app List.find]. destruct (f x); [reflexivity | exact IH].
Qed.

Lemma fold_insert_lookup (pageList : list HcPage) (m : gmap Z HcPage) (k : Z) :
  fold_left (fun m page => <[id page := page]> m) pageList m !! k
  = match List.find (fun p => Z.eqb (id p) k) (rev pageList) with
    | Some p => Some p
    | None => m !! k
    end.
Proof.
  revert m; induction pageList as [|page rest IH]; intros m; [reflexivity|].
  cbn [fold_left rev]. rewrite IH, find_app.
  destruct (List.find _ (rev rest)); [reflexivity|].
  cbn [List.find]. destruct (Z.eqb_spec (id page) k) as [<- | Hne].
  - apply lookup_insert_eq.
  - now apply lookup_insert_ne.
Qed.

Lemma NoDup_ids_inj (pageList : list HcPage) (p q : HcPage) :
  List.NoDup (map id pageList) ->
  In p pageList -> In q pageList -> id p = id q -> p = q.
Proof.
  induction pageList as [|x l IH]; intros Hnd Hp Hq Heq; [destruct Hp|].
  cbn [map] in Hnd. inversion Hnd as [|? ? Hx Hl]; subst.
  destruct Hp as [-> | Hp], Hq as [-> | Hq].
  - reflexivity.
  - exfalso. apply Hx. rewrite Heq. now apply List.in_map.
  - exfalso. apply Hx. rewrite <- Heq. now apply List.in_map.
  - now apply IH.
Qed.

(** X15.  Loading a listing of pages sets the home page to the first
    page of the list and stores every page under its identifier, the
    later page winning when two pages share one; the entries of the
    identifiers that are not in the list are left as they were.  So with
    pairwise distinct identifiers every page of the list is found under
    its own identifier.  When no listing is found, the navigation and
    the pages are emptied and the home page is left as it was. *)
Theorem _loadNavigation_store (found : option (list HcPage)) (st st' : Store) :
  _loadNavigation found st = Some st' ->
  match found with
  | None =>
      navigation st' = [] /\ pages st' = ∅ /\ homePage st' = homePage st
  | Some pageList =>
      homePage st' = head pageList
      /\ (forall k,
            pages st' !! k
            = match List.find (fun p => Z.eqb (id p) k) (rev pageList) with
              | Some p => Some p
              | None => pages st !! k
              end)
      /\ (List.NoDup (map id pageList) ->
          forall p, In p pageList -> pages st' !! id p = Some p)
  end.
Proof.
  destruct found as [pageList|]; cbn [_loadNavigation].
  - destruct pageList as [|home rest]; [discriminate|]. intros [= <-].
    cbn [homePage pages head]. split; [reflexivity|].
    assert (Hlook := fold_insert_lookup (home :: rest) (pages st)).
    split; [exact Hlook|]. intros Hnd p Hp. rewrite Hlook.
    destruct (List.find _ (rev (home :: rest))) as [q|] eqn:Ef.
    + apply List.find_some in Ef as [Hq Hid]. apply Z.eqb_eq in Hid.
      apply List.in_rev in Hq. f_equal.
      now apply (NoDup_ids_inj (home :: rest)).
    + pose proof (List.find_none _ _ Ef p (proj1 (List.in_rev _ _) Hp)) as Hf.
      cbn beta in Hf. rewrite Z.eqb_refl in Hf. discriminate.
  - intros [= <-]. repeat split.
Qed.

(** ** The top level of the navigation *)

Lemma omap_heap_app (h x : list NavigationItem) (nav : list nat) :
  Forall (fun a => a < length h) nav ->
  omap (fun a => (h ++ x) !! a) nav = omap (fun a => h !! a) nav.
Proof.
  induction 1 as [|a nav Ha _ IH]; [reflexivity|].
  cbn [omap list_omap]. rewrite lookup_app_l by exact Ha. now rewrite IH.
Qed.

Lemma ids_alter (f : NavigationItem -> NavigationItem) (a : nat)
    (h : list NavigationItem) (nav : list nat) :
  (forall n, pageId (f n) = pageId n) ->
  map pageId (omap (fun b => alter f a h !! b) nav)
  = map pageId (omap (fun b => h !! b) nav).
Proof.
  intros Hf. induction nav as [|b nav IH]; [reflexivity|].
  cbn [omap list_omap]. destruct (decide (a = b)) as [<- | Hne].
  - rewrite list_lookup_alter_eq.
    destruct (h !! a) as [n|]; cbn [fmap option_fmap option_map map]; [|exact IH].
    now rewrite Hf, IH.
  - rewrite list_lookup_alter_ne by exact Hne.
    destruct (h !! b); cbn [map]; [now rewrite IH | exact IH].
Qed.

Lemma ids_insert (h : list NavigationItem) (nav : list nat) (k a a0 : nat)
    (n n0 : NavigationItem) :
  nav !! k = Some a0 -> h !! a0 = Some n0 -> h !! a = Some n ->
  pageId n = pageId n0 ->
  map pageId (omap (fun b => h !! b) (<[k := a]> nav))
  = map pageId (omap (fun b => h !! b) nav).
Proof.
  intros Hk H0 Ha Hid. revert k Hk.
  induction nav as [|b nav IH]; intros k Hk; [reflexivity|].
  destruct k as [|k].
  - change (<[0 := a]> (b :: nav)) with (a :: nav). cbn [omap list_omap].
    injection Hk as ->. rewrite Ha, H0. cbn [map]. now rewrite Hid.
  - change (<[S k := a]> (b :: nav)) with (b :: <[k := a]> nav).
    change ((b :: nav) !! S k) with (nav !! k) in Hk. cbn [omap list_omap].
    destruct (h !! b); cbn [map]; now rewrite (IH k Hk).
Qed.

Lemma findIndex_found (h : list NavigationItem) (i : Z) (nav : list nat) :
  forall off k,
    findIndex h i nav off = Some k ->
    exists a n, nav !! (k - off) = Some a /\ h !! a = Some n /\ pageId n = i
                /\ off <= k.
Proof.
  induction nav as [|a nav IH]; intros off k Hf; [discriminate|].
  cbn [findIndex] in Hf. destruct (h !! a) as [n|] eqn:Ha.
  - destruct (Z.eqb_spec (pageId n) i) as [Hid | Hne].
    + injection Hf as <-. exists a, n. rewrite Nat.sub_diag. now repeat split.
    + destruct (IH _ _ Hf) as (b & m & Hb & Hm & Hid & Hle).
      exists b, m. replace (k - off) with (S (k - S off)) by lia.
      repeat split; [exact Hb | exact Hm | exact Hid | lia].
  - destruct (IH _ _ Hf) as (b & m & Hb & Hm & Hid & Hle).
    exists b, m. replace (k - off) with (S (k - S off)) by lia.
    repeat split; [exact Hb | exact Hm | exact Hid | lia].
Qed.

Lemma pageId_push_child child n : pageId (push_child child n) = pageId n.
Proof. now destruct n. Qed.

Lemma ids_place (page : HcPage) (st : Loop) :
  well_formed st ->
  ids (place page st)
  = ids st ++ (if isFirstLevel page then [id page]
               else match parent st with Some _ => [] | None => [id page] end).
Proof.
  intros [Hn _]. unfold ids, snapshot, place.
  assert (Htop : map pageId
                   (omap (fun a => (heap st ++ [item_of page]) !! a)
                         (_navigation st ++ [length (heap st)]))
                 = map pageId (omap (fun a => heap st !! a) (_navigation st))
                   ++ [id page]).
  { rewrite omap_app, List.map_app, (omap_heap_app _ _ _ Hn). f_equal.
    cbn [omap list_omap]. rewrite lookup_app_r, Nat.sub_diag by lia. reflexivity. }
  destruct (isFirstLevel page); cbn [heap _navigation]; [exact Htop|].
  destruct (parent st) as [a|]; cbn [heap _navigation]; [|exact Htop].
  rewrite app_nil_r. apply ids_alter. intros n. apply pageId_push_child.
Qed.

Lemma ids_adopt (page : HcPage) (st : Loop) :
  well_formed st -> ids (adopt page st) = ids st.
Proof.
  intros [Hn _]. unfold ids, snapshot, adopt.
  destruct (findIndex _ _ _ _) as [k|] eqn:Ef; cbn [heap _navigation].
  - apply findIndex_found in Ef as (a0 & n0 & Hk & H0 & Hid & _).
    rewrite Nat.sub_0_r in Hk.
    rewrite (ids_insert _ _ k (length (heap st)) a0 (item_of page) n0 Hk H0).
    + now rewrite (omap_heap_app _ _ _ Hn).
    + rewrite lookup_app_r, Nat.sub_diag by lia. reflexivity.
    + now rewrite Hid.
  - now rewrite (omap_heap_app _ _ _ Hn).
Qed.

Lemma step_top_level (pageList : list HcPage) (st : Loop) (index : nat)
    (page : HcPage) (done : list HcPage) :
  pageList !! index = Some page ->
  top_level st done ->
  top_level (step pageList st index) (done ++ [page]).
Proof.
  intros Hp (Hw & l & Hids & Hsub & Hfirst).
  split; [now apply NavigationFacts.step_well_formed|].
  assert (Hplace : exists l',
             ids (place page st) = map id l'
             /\ sublist l' (done ++ [page])
             /\ sublist (List.filter isFirstLevel (done ++ [page])) l').
  { rewrite (ids_place page st Hw), Hids, List.filter_app. cbn [List.filter].
    destruct (isFirstLevel page).
    - exists (l ++ [page]). rewrite List.map_app. repeat split.
      + now apply sublist_app.
      + now apply sublist_app.
    - destruct (parent st).
      + exists l. rewrite !app_nil_r. repeat split; [|exact Hfirst].
        now apply sublist_inserts_r.
      + exists (l ++ [page]). rewrite List.map_app, app_nil_r. repeat split.
        * now apply sublist_app.
        * now apply sublist_inserts_r. }
  unfold step. rewrite Hp. destruct (reassigns _ _); [|exact Hplace].
  rewrite ids_adopt; [exact Hplace|].
  now apply NavigationFacts.place_well_formed.
Qed.

Lemma fold_top_level (pageList : list HcPage) :
  forall n k st,
    k + n <= length (tail pageList) ->
    top_level st (take k (tail pageList)) ->
    top_level (fold_left (step pageList) (seq (S k) n) st)
              (take (k + n) (tail pageList)).
Proof.
  induction n as [|n IH]; intros k st Hk Hst.
  - now rewrite Nat.add_0_r.
  - cbn [seq fold_left]. replace (k + S n) with (S k + n) by lia.
    apply IH; [lia|].
    assert (Hpage : exists page, tail pageList !! k = Some page).
    { apply lookup_lt_is_Some. lia. }
    destruct Hpage as [page Hpage].
    rewrite (take_S_r _ _ _ Hpage).
    apply step_top_level; [|exact Hst].
    destruct pageList; [discriminate | exact Hpage].
Qed.

(** X16.  The top-level entries of the navigation are entries of pages
    of the list after its first page, in the order of the list, and
    every first-level page after the first page has its entry among
    them: by their identifiers, the top level is a subsequence of the
    tail of the list that contains the subsequence of its first-level
    pages. *)
Theorem navigation_top_level (pageList : list HcPage) (st st' : Store) :
  _loadNavigation (Some pageList) st = Some st' ->
  exists l,
    map pageId (navigation st') = map id l
    /\ sublist l (tail pageList)
    /\ sublist (List.filter isFirstLevel (tail pageList)) l.
Proof.
  cbn [_loadNavigation]. destruct pageList as [|home rest]; [discriminate|].
  intros [= <-]. cbn [navigation tail].
  pose proof (fold_top_level (home :: rest) (length rest) 0 Loop_init) as Hfold.
  cbn [tail Nat.add] in Hfold. rewrite firstn_all in Hfold.
  destruct Hfold as (_ & l & Hl); [lia | |].
  - split; [exact NavigationFacts.init_well_formed|].
    exists []. repeat split; constructor.
  - exists l. unfold run_loop.
    replace (length (home :: rest) - 1) with (length rest) by (cbn [length]; lia).
    exact Hl.
Qed.

End StoreFacts.

Module LookupFacts.

Import Navigation Lookup Notions.

Lemma strip_snoc (s : string) : stripTrailingSlash (s +:+ "/") = s.
Proof.
  induction s as [|c s IH]; [reflexivity|].
  cbn [append stripTrailingSlash]. rewrite IH. now destruct s.
Qed.

Lemma strip_cases (s : string) :
  stripTrailingSlash s = s \/ s = stripTrailingSlash s +:+ "/".
Proof.
  induction s as [|c s IH]; [now left|].
  cbn [stripTrailingSlash]. destruct s as [|d s].
  - destruct (Ascii.eqb_spec c "/") as [-> | Hne]; [now right | now left].
  - destruct IH as [IH | IH].
    + left. now rewrite IH.
    + right. cbn [append]. now rewrite <- IH.
Qed.

Lemma strip_plain (s : string) :
  Cms.endsWith s "/" = false -> stripTrailingSlash s = s.
Proof.
  intros Hs. destruct (strip_cases s) as [Heq | Heq]; [exact Heq|].
  pose proof (SplitFacts.endsWith_app (stripTrailingSlash s) "/") as He.
  rewrite <- Heq in He. congruence.
Qed.

Lemma or_else_empty (a : string) : Js.or_else a "" = a.
Proof. now destruct a. Qed.

(** X17.  [getPageByPath] takes a path with or without one trailing
    slash for the same: for a path [base] that does not end with a
    slash, looking up [base/] gives what looking up [base] gives, the
    page found is a stored page whose path is [base] or [base/], the
    first such page, and a page is found as soon as one is stored. *)
Theorem getPageByPath_trailing_slash (values : list HcPage) (base : string) :
  Cms.endsWith base "/" = false ->
  getPageByPath values (base +:+ "/") = getPageByPath values base
  /\ (forall q,
        getPageByPath values base = Some q ->
        In q values /\ (path q = base \/ path q = base +:+ "/"))
  /\ (forall before p after,
        values = before ++ p :: after ->
        (path p = base \/ path p = base +:+ "/") ->
        List.Forall (fun q => path q <> base /\ path q <> base +:+ "/") before ->
        getPageByPath values base = Some p).
Proof.
  intros Hbase.
  assert (Htest : forall q,
             String.eqb (stripTrailingSlash (Js.or_else (path q) ""))
                        (stripTrailingSlash base) = true
             <-> path q = base \/ path q = base +:+ "/").
  { intros q. rewrite or_else_empty, (strip_plain _ Hbase), String.eqb_eq. split.
    - intros Hq. destruct (strip_cases (path q)) as [Heq | Heq].
      + left. congruence.
      + right. now rewrite Heq, Hq.
    - intros [-> | ->]; [now apply strip_plain | apply strip_snoc]. }
  split; [|split].
  - unfold getPageByPath. now rewrite strip_snoc, (strip_plain _ Hbase).
  - intros q Hq. unfold getPageByPath in Hq.
    apply List.find_some in Hq as [Hin Hq]. split; [exact Hin | now apply Htest].
  - intros before p after -> Hp Hbefore. unfold getPageByPath.
    induction Hbefore as [|q before [Hq1 Hq2] _ IH]; cbn [app List.find].
    + now rewrite (proj2 (Htest p) Hp).
    + destruct (String.eqb _ _) eqn:Eq; [|exact IH].
      apply Htest in Eq. tauto.
Qed.

(** ** Dynamic pages *)

Lemma lastIndexOf_lacks c s pos : lacks c s -> lastIndexOf s c pos = None.
Proof.
  revert pos; induction s as [|d s IH]; intros pos Hs; [reflexivity|].
  apply SplitFacts.lacks_cons in Hs as [Hd Hs]. cbn [lastIndexOf].
  rewrite (IH _ Hs). apply Ascii.eqb_neq in Hd. now rewrite Hd.
Qed.

Lemma lastIndexOf_last c a b pos :
  lacks c b ->
  lastIndexOf (a +:+ String c b) c pos = Some (pos + String.length a).
Proof.
  intros Hb. revert pos; induction a as [|d a IH]; intros pos.
  - cbn [append lastIndexOf]. rewrite (lastIndexOf_lacks _ _ _ Hb), Ascii.eqb_refl.
    f_equal. cbn. lia.
  - cbn [append lastIndexOf]. rewrite IH. f_equal. cbn. lia.
Qed.

Lemma take_app a b : Cms.take (String.length a) (a +:+ b) = a.
Proof.
  induction a as [|c a IH]; [now destruct b|].
  cbn [String.length append Cms.take]. now rewrite IH.
Qed.

Lemma stripPathDown_last (P v : string) :
  lacks "/" v -> stripPathDown (P +:+ "/" +:+ v) = P +:+ "/:".
Proof.
  intros Hv. unfold stripPathDown.
  change (P +:+ "/" +:+ v) with (P +:+ String "/" v).
  rewrite (lastIndexOf_last "/" P v 0 Hv). cbn [Nat.add].
  now rewrite take_app.
Qed.

Lemma match_dynamic_first (x k : string) (pos : nat) :
  lacks ":" x -> k <> ""%string -> lacks "/" k ->
  match_dynamic (x +:+ String ":" k) pos = Some (pos + String.length x, k).
Proof.
  intros Hx Hk Hs. revert pos; induction x as [|c x IH]; intros pos.
  - cbn [append match_dynamic]. rewrite Ascii.eqb_refl.
    rewrite (JsFacts.span_whole _ _ Hs).
    destruct k; [congruence|]. do 2 f_equal. cbn. lia.
  - apply SplitFacts.lacks_cons in Hx as [Hc Hx]. apply Ascii.eqb_neq in Hc.
    cbn [append match_dynamic]. rewrite Hc, (IH Hx). do 2 f_equal. cbn. lia.
Qed.

Lemma replace_go_text (c0 : ascii) (p' r x rest : string) :
  lacks c0 x ->
  forall b,
    Js.replace_go (String c0 p') r b (x +:+ rest)
    = x +:+ Js.replace_go (String c0 p') r (b +:+ x) rest.
Proof.
  induction x as [|c x IH]; intros Hx b.
  - cbn [append]. now rewrite JsFacts.app_nil_r.
  - apply SplitFacts.lacks_cons in Hx as [Hc Hx].
    apply Ascii.eqb_neq in Hc. rewrite Ascii.eqb_sym in Hc.
    cbn [append Js.replace_go Js.startsWith]. rewrite Hc. cbn [andb]. f_equal.
    rewrite (IH Hx). now rewrite JsFacts.app_assoc.
Qed.

Lemma replace_colon (x k : string) :
  lacks ":" x ->
  Js.replace (x +:+ String ":" k) (String ":" k) ":" = x +:+ ":".
Proof.
  intros Hx. unfold Js.replace. rewrite (replace_go_text ":" k ":" x _ Hx).
  f_equal. cbn [append].
  assert (Hs : Js.startsWith (String ":" k) (String ":" k) = true)
    by apply JsFacts.startsWith_refl.
  cbn [Js.replace_go]. rewrite Hs.
  pose proof (JsFacts.drop_app (String ":" k) "") as Hd.
  rewrite JsFacts.app_nil_r in Hd. rewrite Hd. reflexivity.
Qed.

(** X18.  A route [P/v] resolves against a page whose path is the
    template [P/:key], with [P] free of colons and [key] and [v] free of
    slashes: the key is the text after the colon and the value is [v].
    So, when no stored page has the route as its path and no page
    before the template resolves, [currentPage] is the template page
    with [v] (not empty) as its label and [key=v] as its [resolveSlug].
    A stored page whose path is the route comes first, as it is. *)
Theorem currentPage_dynamic (values : list HcPage) (P key v : string)
    (template : HcPage) :
  lacks ":" P -> key <> ""%string -> lacks "/" key -> lacks "/" v ->
  path template = P +:+ "/:" +:+ key ->
  resolveDynamicPage (P +:+ "/" +:+ v) template = Some (key, v)
  /\ (forall before after,
        values = before ++ template :: after ->
        v <> ""%string ->
        getPageByPath values (P +:+ "/" +:+ v) = None ->
        List.Forall (fun q => resolveDynamicPage (P +:+ "/" +:+ v) q = None) before ->
        currentPage values (P +:+ "/" +:+ v)
        = Some {| page := {| id := id template; path := path template; label := v;
                             sort := sort template; show := show template |};
                  resolveSlug := Some (key +:+ "=" +:+ v) |})
  /\ (forall staticPage,
        getPageByPath values (P +:+ "/" +:+ v) = Some staticPage ->
        currentPage values (P +:+ "/" +:+ v)
        = Some {| page := staticPage; resolveSlug := None |}).
Proof.
  intros HP Hkey Hks Hv Hpath.
  assert (Hx : lacks ":" (P +:+ "/")).
  { apply SplitFacts.lacks_app. split; [exact HP | reflexivity]. }
  assert (Hmatch : match_dynamic (path template) 0
                   = Some (String.length (P +:+ "/"), key)).
  { rewrite Hpath.
    replace (P +:+ "/:" +:+ key) with ((P +:+ "/") +:+ String ":" key)
      by (now rewrite JsFacts.app_assoc).
    exact (match_dynamic_first _ _ 0 Hx Hkey Hks). }
  assert (Hsame : stripPathDown (P +:+ "/" +:+ v)
                  = Js.replace (path template) (":" +:+ key) ":").
  { rewrite (stripPathDown_last P v Hv), Hpath.
    replace (P +:+ "/:" +:+ key) with ((P +:+ "/") +:+ String ":" key)
      by (now rewrite JsFacts.app_assoc).
    change (":" +:+ key) with (String ":" key).
    rewrite (replace_colon _ key Hx). now rewrite JsFacts.app_assoc. }
  assert (Hdrop : Js.drop (String.length (P +:+ "/")) (P +:+ "/" +:+ v) = v).
  { rewrite <- (JsFacts.app_assoc P "/" v). apply JsFacts.drop_app. }
  assert (Hindex : negb (String.length (P +:+ "/") =? 0) = true).
  { apply negb_true_iff, Nat.eqb_neq. rewrite JsFacts.length_app. cbn. lia. }
  assert (Hres : resolveDynamicPage (P +:+ "/" +:+ v) template = Some (key, v)).
  { unfold resolveDynamicPage. rewrite Hmatch, Hindex, Hsame, String.eqb_refl.
    cbn [andb]. now rewrite Hdrop. }
  split; [exact Hres | split].
  - intros before after -> Hvne Hnone Hbefore. unfold currentPage. rewrite Hnone.
    clear Hnone. induction Hbefore as [|q before Hq _ IH]; cbn [app resolveDynamic].
    + rewrite Hres. destruct key; [congruence|]. destruct v; [congruence|].
      reflexivity.
    + rewrite Hq. exact IH.
  - intros staticPage Hs. unfold currentPage. now rewrite Hs.
Qed.

(** The pages of the sample list, and the routes [/en/a/] and
    [/en/cities/lausanne]. *)
Lemma getPageByPath_trailing_slash_witness :
  getPageByPath Samples.nav_list "/en/a/" = getPageByPath Samples.nav_list "/en/a"
  /\ getPageByPath Samples.nav_list "/en/a" = Some (Demo.nav_page 2 "/en/a").
Proof.
  destruct (getPageByPath_trailing_slash Samples.nav_list "/en/a" eq_refl)
    as (Hslash & _ & Hfound).
  split; [exact Hslash|].
  apply (Hfound [Demo.nav_page 1 "/en"] (Demo.nav_page 2 "/en/a")
           [Demo.nav_page 3 "/en/a/x"; Demo.nav_page 4 "/en/b";
            Demo.nav_page 5 "/en/cities/:city.slug"]).
  - reflexivity.
  - now left.
  - repeat constructor; discriminate.
Defined.

Lemma currentPage_dynamic_witness :
  resolveDynamicPage "/en/cities/lausanne" (Demo.nav_page 5 "/en/cities/:city.slug")
  = Some ("city.slug"%string, "lausanne"%string)
  /\ currentPage Samples.nav_list "/en/cities/lausanne"
     = Some {| page := {| id := 5; path := "/en/cities/:city.slug";
                          label := "lausanne"; sort := 5; show := "always" |};
               resolveSlug := Some "city.slug=lausanne"%string |}.
Proof.
  destruct (currentPage_dynamic Samples.nav_list "/en/cities" "city.slug" "lausanne"
              (Demo.nav_page 5 "/en/cities/:city.slug"))
    as (Hres & Hcur & _); try reflexivity; try discriminate.
  split; [exact Hres|].
  apply (Hcur [Demo.nav_page 1 "/en"; Demo.nav_page 2 "/en/a";
               Demo.nav_page 3 "/en/a/x"; Demo.nav_page 4 "/en/b"] []).
  - reflexivity.
  - discriminate.
  - reflexivity.
  - repeat constructor.
Defined.

End LookupFacts.

Module StoreWitnesses.

Import Navigation.

(** The sample list loaded into the empty store. *)
Lemma _loadNavigation_store_witness :
  exists st',
    _loadNavigation (Some Samples.nav_list) Samples.empty_store = Some st'
    /\ homePage st' = Some (Demo.nav_page 1 "/en")
    /\ pages st' !! 3%Z = Some (Demo.nav_page 3 "/en/a/x")
    /\ pages st' !! 9%Z = None.
Proof.
  eexists. split; [reflexivity|].
  destruct (StoreFacts._loadNavigation_store (Some Samples.nav_list)
              Samples.empty_store _ eq_refl) as (Hhome & Hlook & Hall).
  split; [exact Hhome | split].
  - apply (Hall ltac:(vm_compute; repeat constructor; cbn;
                      intros Hin; repeat destruct Hin as [Hin | Hin];
                      try discriminate; try contradiction)
                (Demo.nav_page 3 "/en/a/x")).
    cbn. tauto.
  - rewrite Hlook. reflexivity.
Defined.

Lemma navigation_top_level_witness :
  exists st' l,
    _loadNavigation (Some Samples.nav_list) Samples.empty_store = Some st'
    /\ map pageId (navigation st') = map id l
    /\ sublist l (tail Samples.nav_list)
    /\ sublist (List.filter isFirstLevel (tail Samples.nav_list)) l.
Proof.
  eexists.
  destruct (StoreFacts.navigation_top_level Samples.nav_list Samples.empty_store
              _ eq_refl) as (l & Hl).
  exists l. split; [reflexivity | exact Hl].
Defined.

End StoreWitnesses.

(* ================================================================== *)
(** * The depth of the navigation, and which pages it keeps *)
(* ================================================================== *)

Module DepthFacts.

Import Navigation Notions.

Lemma findIndex_some (h : list NavigationItem) (i : Z) (nav : list nat) :
  forall off,
    (exists a n, a ∈ nav /\ h !! a = Some n /\ pageId n = i) ->
    exists k, findIndex h i nav off = Some k /\ off <= k < off + length nav.
Proof.
  induction nav as [|b nav IH]; intros off (a & n & Ha & Hn & Hid).
  - now apply elem_of_nil in Ha.
  - cbn [findIndex length].
    destruct (match h !! b with Some m => Z.eqb (pageId m) i | None => false end) eqn:Eb.
    + exists off. split; [reflexivity | lia].
    + apply elem_of_cons in Ha as [-> | Ha].
      * rewrite Hn in Eb. apply Z.eqb_neq in Eb. contradiction.
      * destruct (IH (S off)) as (k & Hk & Hlt); [now exists a, n|].
        exists k. split; [exact Hk | lia].
Qed.

Lemma omap_lookup_total {A B} (f : A -> option B) (l : list A) :
  Forall (fun a => is_Some (f a)) l ->
  forall k x, l !! k = Some x -> omap f l !! k = f x.
Proof.
  induction 1 as [|a l [b Hb] _ IH]; intros k x Hk; [discriminate|].
  cbn [omap list_omap]. rewrite Hb. destruct k as [|k].
  - injection Hk as <-. now rewrite Hb.
  - exact (IH k x Hk).
Qed.

Lemma snapshot_lookup (st : Loop) (k a : nat) :
  well_formed st -> _navigation st !! k = Some a -> snapshot st !! k = heap st !! a.
Proof.
  intros [Hn _] Hk. unfold snapshot.
  apply (omap_lookup_total (fun b => heap st !! b) (_navigation st)); [|exact Hk].
  eapply Forall_impl; [exact Hn|]. intros b Hb. cbv beta. now apply lookup_lt_is_Some_2.
Qed.

(** The state before an iteration has met the pages before it. *)
Lemma state_before_top_level (pageList : list HcPage) (index : nat) :
  index < length pageList ->
  top_level (state_before pageList index) (take (index - 1) (tail pageList)).
Proof.
  intros Hlt. unfold state_before.
  apply (StoreFacts.fold_top_level pageList (index - 1) 0 Loop_init).
  - destruct pageList; cbn [tail length] in *; lia.
  - split; [exact NavigationFacts.init_well_formed|].
    exists []. repeat split; constructor.
Qed.

(** With distinct identifiers, a page placed under a parent is not at
    the top level. *)
Lemma placed_below_not_found (pageList : list HcPage) (index : nat) (page : HcPage) :
  NoDup (map id pageList) ->
  1 <= index ->
  pageList !! index = Some page ->
  isFirstLevel page = false ->
  parent (state_before pageList index) <> None ->
  let st := place page (state_before pageList index) in
  findIndex (heap st ++ [item_of page]) (id page) (_navigation st) 0 = None.
Proof.
  intros Hnd Hidx Hp Hfirst Hparent st.
  assert (Hlt : index < length pageList) by (apply lookup_lt_is_Some; eauto).
  destruct (state_before_top_level pageList index Hlt) as (Hw & l & Hids & Hsub & _).
  pose proof (NavigationFacts.place_well_formed page _ Hw) as Hw'. fold st in Hw'.
  destruct (findIndex _ _ _ _) as [k|] eqn:Ef; [exfalso | reflexivity].
  apply StoreFacts.findIndex_found in Ef as (a & n & Hk & Hn & Hid & _).
  rewrite Nat.sub_0_r in Hk.
  assert (Ha : a < length (heap st)).
  { destruct Hw' as [Hnav _]. eapply Forall_lookup_1 in Hnav; eauto. }
  rewrite lookup_app_l in Hn by exact Ha.
  assert (Hin : id page ∈ ids st).
  { unfold ids. rewrite <- Hid. apply list_elem_of_fmap. exists n. split; [reflexivity|].
    unfold snapshot. apply list_elem_of_omap. exists a. split; [|exact Hn].
    eapply list_elem_of_lookup_2. exact Hk. }
  unfold st in Hin. rewrite (StoreFacts.ids_place page _ Hw), Hfirst in Hin.
  destruct (parent (state_before pageList index)); [|contradiction].
  rewrite app_nil_r, Hids in Hin.
  apply list_elem_of_fmap in Hin as (q & Hq & Hql).
  assert (Hqt : q ∈ take (index - 1) (tail pageList)).
  { eapply elem_of_sublist; eauto. }
  apply list_elem_of_lookup_1 in Hqt as [j Hj].
  apply lookup_take_Some in Hj as [Hj Hjlt].
  assert (Hjq : map id pageList !! S j = Some (id q)).
  { change (map id pageList) with (id <$> pageList). rewrite list_lookup_fmap.
    destruct pageList; [discriminate|]. cbn [tail] in Hj.
    change ((h :: pageList) !! S j) with (pageList !! j). now rewrite Hj. }
  assert (Hip : map id pageList !! index = Some (id q)).
  { change (map id pageList) with (id <$> pageList). rewrite list_lookup_fmap, Hp.
    cbn. now rewrite Hq. }
  pose proof (NoDup_lookup _ _ _ _ Hnd Hjq Hip). lia.
Qed.

(** C9.  Whatever the page list, a child of a top-level node of the
    returned navigation has no children of its own (and the call
    returns, except on an empty list, where reading the home page
    throws).  The pages lost are those placed under a page that was
    itself placed under a parent: when such a page, which is not
    first-level, becomes the parent cursor, no element of the top-level
    array has its identifier (identifiers being distinct), the new
    parent object is not an element of the array, and a page that is not
    first-level then placed under it leaves the returned navigation
    unchanged.  A page placed at the top level, first-level or not, is
    found when it becomes the cursor: the new parent object takes its
    place in the array and a page that is not first-level then placed
    under it is its child in the returned navigation, whatever the depth
    of its path. *)
Theorem navigation_depth_at_most_two :
  (forall found st,
      match _loadNavigation found st with
      | Some st' => Forall Spec.flat (navigation st')
      | None => found = Some []
      end)
  /\ (forall pageList index page child,
        let st := place page (state_before pageList index) in
        NoDup (map id pageList) ->
        1 <= index ->
        pageList !! index = Some page ->
        isFirstLevel page = false ->
        parent (state_before pageList index) <> None ->
        isFirstLevel child = false ->
        findIndex (heap st ++ [item_of page]) (id page) (_navigation st) 0 = None
        /\ parent (adopt page st) = Some (length (heap st))
        /\ snapshot (place child (adopt page st)) = snapshot (adopt page st))
  /\ (forall pageList index page child,
        let st := place page (state_before pageList index) in
        isFirstLevel page = true \/ parent (state_before pageList index) = None ->
        isFirstLevel child = false ->
        exists k,
          findIndex (heap st ++ [item_of page]) (id page) (_navigation st) 0 = Some k
          /\ snapshot (place child (adopt page st)) !! k
             = Some (push_child (item_of child) (item_of page))).
Proof.
  split; [|split].
  - intros [pageList|] st; cbn; [|constructor].
    destruct pageList as [|home rest]; [reflexivity|]. cbn [navigation].
    apply NavigationFacts.snapshot_flat. unfold run_loop.
    apply (NavigationFacts.fold_step_invariant (fun st => Forall Spec.flat (heap st))).
    + intros; now apply NavigationFacts.step_flat.
    + constructor.
  - intros pageList index page child st Hnd Hidx Hp Hfirst Hparent Hchild.
    pose proof (placed_below_not_found pageList index page Hnd Hidx Hp Hfirst Hparent)
      as Hfind. cbv zeta in Hfind. fold st in Hfind.
    destruct (NavigationFacts.place_well_formed page _
                (NavigationFacts.state_before_well_formed pageList index)) as [Hn _].
    fold st in Hn.
    split; [exact Hfind|].
    unfold adopt at 1. rewrite Hfind. cbn [parent]. split; [reflexivity|].
    apply NavigationFacts.snapshot_place_detached with (a := length (heap st));
      [exact Hchild | |].
    + unfold adopt. now rewrite Hfind.
    + unfold adopt. rewrite Hfind. cbn [_navigation].
      intros Hin. rewrite Forall_forall in Hn. specialize (Hn _ Hin). lia.
  - intros pageList index page child st Htop Hchild.
    set (st0 := state_before pageList index) in *.
    pose proof (NavigationFacts.state_before_well_formed pageList index) as Hw0.
    fold st0 in Hw0.
    pose proof (NavigationFacts.place_well_formed page _ Hw0) as Hw. fold st in Hw.
    assert (Hst : heap st = heap st0 ++ [item_of page]
                  /\ _navigation st = _navigation st0 ++ [length (heap st0)]).
    { unfold st, place. destruct Htop as [-> | Hnone].
      - now split.
      - rewrite Hnone. destruct (isFirstLevel page); now split. }
    destruct Hst as [Hheap Hnav].
    destruct (findIndex_some (heap st ++ [item_of page]) (id page) (_navigation st) 0)
      as (k & Hk & Hklt).
    { exists (length (heap st0)), (item_of page). split; [|split; [|reflexivity]].
      - rewrite Hnav. apply elem_of_app. right. now apply list_elem_of_singleton.
      - rewrite Hheap, <- app_assoc, lookup_app_r, Nat.sub_diag by lia. reflexivity. }
    exists k. split; [exact Hk|].
    pose proof (NavigationFacts.place_well_formed child _
                  (NavigationFacts.adopt_well_formed page _ Hw)) as Hw'.
    rewrite (snapshot_lookup _ k (length (heap st)) Hw').
    + unfold place, adopt. rewrite Hchild, Hk. cbn [parent heap].
      rewrite list_lookup_alter_eq, lookup_app_r, Nat.sub_diag by lia. reflexivity.
    + unfold place, adopt. rewrite Hchild, Hk. cbn [parent _navigation].
      apply list_lookup_insert_eq. lia.
Qed.

(** The chain [/en, /en/a, /en/a/x, /en/a/x/y]: [x], placed under [a],
    becomes the cursor, is not found at the top level, and [y] is lost.
    The list [/en, /en/a/x, /en/a/x/y]: [x], placed at the top level,
    is found and [y] is kept. *)
Lemma navigation_depth_at_most_two_witness :
  let chain :=
    [Demo.nav_page 0 "/en"; Demo.nav_page 1 "/en/a";
     Demo.nav_page 2 "/en/a/x"; Demo.nav_page 3 "/en/a/x/y"] in
  let x := Demo.nav_page 2 "/en/a/x" in
  let y := Demo.nav_page 3 "/en/a/x/y" in
  let below := place x (state_before chain 2) in
  let top := place x (state_before [Demo.nav_page 0 "/en"; x; y] 1) in
  (snapshot (place y (adopt x below)) = snapshot (adopt x below)
   /\ snapshot (run_loop chain)
      = [NavItem 1 "/en/a" "/en/a" 1 "always"
           (Some [NavItem 2 "/en/a/x" "/en/a/x" 2 "always" None])])
  /\ exists k,
       findIndex (heap top ++ [item_of x]) 2 (_navigation top) 0 = Some k
       /\ snapshot (place y (adopt x top)) !! k
          = Some (NavItem 2 "/en/a/x" "/en/a/x" 2 "always"
                    (Some [NavItem 3 "/en/a/x/y" "/en/a/x/y" 3 "always" None])).
Proof.
  intros chain x y below top.
  destruct navigation_depth_at_most_two as (_ & Hdrop & Hkeep).
  split; [split; [|reflexivity]|].
  - apply (Hdrop chain 2 x y); try reflexivity; try discriminate.
    + vm_compute. repeat constructor; intros Hin;
        repeat (apply elem_of_cons in Hin as [Hin | Hin]; [discriminate|]);
        now apply elem_of_nil in Hin.
    + lia.
  - apply (Hkeep [Demo.nav_page 0 "/en"; x; y] 1 x y); [now right | reflexivity].
Defined.

(** On [/en, /en/a/x, /en/a/x/y] the page [/en/a/x] is not first-level
    and becomes the parent cursor; it is found in the top-level array,
    at index 0, and the page [/en/a/x/y], three levels below the
    language root, is in the returned navigation. *)
Lemma deep_page_is_kept :
  let x := Demo.nav_page 2 "/en/a/x" in
  let y := Demo.nav_page 3 "/en/a/x/y" in
  let pageList := [Demo.nav_page 1 "/en"; x; y] in
  let st := place x (state_before pageList 1) in
  isFirstLevel x = false
  /\ reassigns x (lookahead pageList 1) = true
  /\ findIndex (heap st ++ [item_of x]) (id x) (_navigation st) 0 = Some 0
  /\ (navigation <$> _loadNavigation (Some pageList) Samples.empty_store)
     = Some [NavItem 2 "/en/a/x" "/en/a/x" 2 "always"
               (Some [NavItem 3 "/en/a/x/y" "/en/a/x/y" 3 "always" None])].
Proof. repeat split. Qed.

End DepthFacts.

(* ================================================================== *)
(** * Joined paths and the files they reach *)
(* ================================================================== *)

Module JoinFacts.

Import Notions.

(** ** One step of normalisation *)

Lemma step_passed b res seg :
  passed_over seg = true -> Path.normalize_step b res seg = res.
Proof. unfold Path.normalize_step, passed_over. now intros ->. Qed.

Lemma step_plain b res seg :
  plain_segment seg = true -> Path.normalize_step b res seg = seg :: res.
Proof.
  unfold plain_segment, Path.normalize_step, passed_over. intros Hp.
  apply andb_prop in Hp as [Hp Hu]. apply negb_true_iff in Hp, Hu.
  now rewrite Hp, Hu.
Qed.

Lemma step_up_plain res :
  Forall (fun x => plain_segment x = true) res ->
  Path.normalize_step false res ".." = tail res.
Proof.
  intros Hres. unfold Path.normalize_step. cbn [String.eqb Ascii.eqb Bool.eqb orb andb].
  destruct Hres as [|top below Htop _]; [reflexivity|]. cbn [tail].
  unfold plain_segment in Htop. apply andb_prop in Htop as [_ Htop].
  apply negb_true_iff in Htop. now rewrite Htop.
Qed.

Lemma segment_cases seg :
  passed_over seg = true \/ seg = ".."%string \/ plain_segment seg = true.
Proof.
  unfold plain_segment. destruct (passed_over seg); [now left | right].
  destruct (String.eqb_spec seg ".."); [now left | now right].
Qed.

Lemma fold_plain b N res :
  Forall (fun x => plain_segment x = true) N ->
  fold_left (Path.normalize_step b) N res = rev N ++ res.
Proof.
  intros HN. revert res. induction HN as [|seg N Hseg _ IH]; intros res; [reflexivity|].
  cbn [fold_left rev]. rewrite (step_plain _ _ _ Hseg), IH, <- app_assoc. reflexivity.
Qed.

(** Components without a step to the parent are added or passed over. *)
Lemma fold_no_up b B :
  forallb (fun c => negb (String.eqb c "..")) B = true ->
  forall res,
    fold_left (Path.normalize_step b) B res
    = rev (List.filter (fun c => negb (passed_over c)) B) ++ res.
Proof.
  induction B as [|seg B IH]; intros HB res; [reflexivity|].
  cbn [forallb] in HB. apply andb_prop in HB as [Hseg HB].
  cbn [fold_left List.filter]. destruct (passed_over seg) eqn:Hp; cbn [negb].
  - rewrite (step_passed _ _ _ Hp). now apply IH.
  - rewrite step_plain by (unfold plain_segment; now rewrite Hp, Hseg).
    rewrite (IH HB). cbn [rev]. now rewrite <- app_assoc.
Qed.

Lemma normalize_segments_app_no_up b A B :
  forallb (fun c => negb (String.eqb c "..")) B = true ->
  Path.normalize_segments b (A ++ B)
  = Path.normalize_segments b A ++ List.filter (fun c => negb (passed_over c)) B.
Proof.
  intros HB. unfold Path.normalize_segments.
  rewrite fold_left_app, (fold_no_up _ _ HB), rev_app_distr, rev_involutive.
  reflexivity.
Qed.

Lemma fold_false_plain X :
  forall res,
    Forall (fun x => plain_segment x = true) res ->
    Forall (fun x => plain_segment x = true)
           (fold_left (Path.normalize_step false) X res).
Proof.
  induction X as [|seg X IH]; intros res Hres; [exact Hres|].
  cbn [fold_left]. apply IH.
  destruct (segment_cases seg) as [Hp | [-> | Hp]].
  - now rewrite (step_passed _ _ _ Hp).
  - rewrite (step_up_plain _ Hres). destruct Hres; [constructor | assumption].
  - rewrite (step_plain _ _ _ Hp). now constructor.
Qed.

Lemma fold_ups stack u :
  Forall (fun x => plain_segment x = true) stack ->
  fold_left (Path.normalize_step false) (repeat ".."%string u) stack = drop u stack.
Proof.
  revert stack. induction u as [|u IH]; intros stack HS; [reflexivity|].
  cbn [repeat fold_left]. rewrite (step_up_plain _ HS).
  destruct HS as [|top below _ Hbelow]; cbn [tail].
  - rewrite IH by constructor. now destruct u.
  - now rewrite IH.
Qed.

(** What a relative path leaves, and the working directory: the steps
    kept at the front of the relative path take as many segments of the
    working directory away. *)
Lemma fold_true_false stack X :
  Forall (fun x => plain_segment x = true) stack ->
  forall N u,
    Forall (fun x => plain_segment x = true) N ->
    exists N' u',
      Forall (fun x => plain_segment x = true) N'
      /\ fold_left (Path.normalize_step true) X (N ++ repeat ".."%string u)
         = N' ++ repeat ".."%string u'
      /\ fold_left (Path.normalize_step false) X (N ++ drop u stack) = N' ++ drop u' stack.
Proof.
  intros HS. induction X as [|seg X IH]; intros N u HN.
  - exists N, u. now repeat split.
  - cbn [fold_left]. destruct (segment_cases seg) as [Hp | [-> | Hp]].
    + rewrite !(step_passed _ _ _ Hp). now apply IH.
    + destruct HN as [|top N1 Htop HN1].
      * cbn [app]. rewrite step_up_plain by now apply Forall_drop.
        replace (tail (drop u stack)) with (drop (S u) stack)
          by (clear; revert stack; induction u as [|u IHu]; intros [|x stack']; cbn;
              try reflexivity; apply IHu).
        replace (Path.normalize_step true (repeat ".."%string u) "..")
          with (repeat ".."%string (S u)) by now destruct u.
        exact (IH [] (S u) ltac:(constructor)).
      * assert (Htop' : String.eqb top ".." = false).
        { unfold plain_segment in Htop. apply andb_prop in Htop as [_ Htop].
          now apply negb_true_iff in Htop. }
        replace (Path.normalize_step true ((top :: N1) ++ repeat ".."%string u) "..")
          with (N1 ++ repeat ".."%string u)
          by (unfold Path.normalize_step; cbn [app String.eqb Ascii.eqb Bool.eqb orb andb];
              now rewrite Htop').
        replace (Path.normalize_step false ((top :: N1) ++ drop u stack) "..")
          with (N1 ++ drop u stack)
          by (unfold Path.normalize_step; cbn [app String.eqb Ascii.eqb Bool.eqb orb andb];
              now rewrite Htop').
        now apply IH.
    + rewrite !(step_plain _ _ _ Hp). rewrite !app_comm_cons.
      apply IH. now constructor.
Qed.

Lemma rev_repeat_up u : rev (repeat ".."%string u) = repeat ".."%string u.
Proof.
  induction u as [|u IH]; [reflexivity|]. cbn [repeat rev]. rewrite IH.
  clear. induction u as [|u IH]; [reflexivity|]. cbn [repeat app]. now rewrite IH.
Qed.

Lemma fold_relative stack X :
  Forall (fun x => plain_segment x = true) stack ->
  fold_left (Path.normalize_step false) (Path.normalize_segments true X) stack
  = fold_left (Path.normalize_step false) X stack.
Proof.
  intros HS.
  destruct (fold_true_false stack X HS [] 0 ltac:(constructor)) as (N & u & HN & Ht & Hf).
  cbn [app repeat] in Ht, Hf. change (drop 0 stack) with stack in Hf.
  unfold Path.normalize_segments.
  rewrite Ht, Hf, rev_app_distr, rev_repeat_up, fold_left_app, (fold_ups _ _ HS).
  rewrite fold_plain by now apply Forall_rev.
  now rewrite rev_involutive.
Qed.

(** What [normalize] keeps comes from its input and is not passed over. *)
Lemma fold_elements (P : string -> Prop) b X :
  (forall seg, In seg X -> passed_over seg = false -> P seg) ->
  forall res, Forall P res -> Forall P (fold_left (Path.normalize_step b) X res).
Proof.
  induction X as [|seg X IH]; intros HX res Hres; [exact Hres|].
  cbn [fold_left]. apply IH; [intros s Hs; apply HX; now right|].
  unfold Path.normalize_step. destruct (passed_over seg) eqn:Hp.
  - unfold passed_over in Hp. now rewrite Hp.
  - assert (Hseg : P seg) by (apply HX; [now left | exact Hp]).
    unfold passed_over in Hp. rewrite Hp.
    destruct (String.eqb seg "..").
    + destruct Hres as [|top below Htop Hbelow].
      * destruct b; now repeat constructor.
      * destruct (String.eqb top ".."); [destruct b|]; now repeat constructor.
    + now constructor.
Qed.

(** ** Splitting what was joined *)

Lemma split_components_lack s : Forall (lacks "/") (Js.split "/" s).
Proof.
  induction s as [|c s IH]; [now repeat constructor|]. cbn [Js.split].
  destruct (Ascii.eqb c "/") eqn:Hc.
  - constructor; [reflexivity | exact IH].
  - destruct IH as [|seg segs Hseg Hsegs].
    + repeat constructor. apply SplitFacts.lacks_cons. split; [|reflexivity].
      now apply Ascii.eqb_neq.
    + constructor; [|exact Hsegs]. apply SplitFacts.lacks_cons.
      split; [now apply Ascii.eqb_neq | exact Hseg].
Qed.

Lemma split_join parts :
  parts <> [] -> Js.split "/" (Js.join "/" parts) = flat_map (Js.split "/") parts.
Proof.
  induction parts as [|x parts IH]; [congruence|]. intros _.
  destruct parts as [|y parts].
  - cbn [Js.join flat_map]. now rewrite app_nil_r.
  - rewrite EntityFacts.join_cons2.
    change (x +:+ "/" +:+ Js.join "/" (y :: parts))
      with (x +:+ String "/" (Js.join "/" (y :: parts))).
    rewrite SplitFacts.split_app_sep, IH by discriminate. reflexivity.
Qed.

Lemma split_join_lacks N :
  N <> [] -> Forall (lacks "/") N -> Js.split "/" (Js.join "/" N) = N.
Proof.
  intros Hne HN. rewrite (split_join _ Hne). clear Hne.
  induction HN as [|x N Hx _ IH]; [reflexivity|].
  cbn [flat_map]. now rewrite (SplitFacts.split_lacks _ _ Hx), IH.
Qed.

Lemma join_head c x rest :
  exists tl, Js.join "/" (String c x :: rest) = String c tl.
Proof. destruct rest; cbn [Js.join append]; eexists; reflexivity. Qed.

(** The components of a normalised path: those [normalize] kept, and
    empty ones. *)
Lemma split_normalize b' s stack :
  s <> ""%string ->
  fold_left (Path.normalize_step b') (Js.split "/" (Path.normalize s)) stack
  = fold_left (Path.normalize_step b')
              (Path.normalize_segments (negb (Js.startsWith s "/")) (Js.split "/" s)) stack.
Proof.
  intros Hs. destruct s as [|c0 s0]; [congruence|].
  unfold Path.normalize.
  set (s := String c0 s0). set (abs := Js.startsWith s "/").
  set (N := Path.normalize_segments (negb abs) (Js.split "/" s)).
  assert (HN : Forall (fun x => passed_over x = false /\ lacks "/" x) N).
  { unfold N, Path.normalize_segments. apply Forall_rev.
    apply fold_elements; [|constructor].
    intros seg Hseg Hp. split; [exact Hp|].
    pose proof (split_components_lack s) as Hall. rewrite List.Forall_forall in Hall.
    now apply Hall. }
  destruct N as [|n N'] eqn:EN.
  - cbn [Js.join]. destruct abs, (Path.ends_with_slash s); reflexivity.
  - assert (Hlacks : Forall (lacks "/") (n :: N')).
    { eapply Forall_impl; [exact HN|]. now intros x [_ Hx]. }
    assert (Hn : exists c x, n = String c x).
    { apply Forall_inv in HN as [Hp _]. destruct n; [discriminate | eauto]. }
    destruct Hn as (c & x & ->).
    destruct (join_head c x N') as (tl & Htl). rewrite Htl.
    rewrite <- Htl.
    assert (Hsplit : forall post : bool,
               Js.split "/" (Js.join "/" (String c x :: N') +:+ (if post then "/" else ""))
               = (String c x :: N') ++ (if post then [""%string] else [])).
    { intros [|].
      - change (Js.join "/" (String c x :: N') +:+ "/")
          with (Js.join "/" (String c x :: N') +:+ String "/" "").
        rewrite SplitFacts.split_app_sep, split_join_lacks by (discriminate || assumption).
        reflexivity.
      - rewrite JsFacts.app_nil_r, split_join_lacks by (discriminate || assumption).
        now rewrite app_nil_r. }
    destruct abs.
    + change (Js.split "/" ("/" +:+ ?y)) with (""%string :: Js.split "/" y).
      cbn [fold_left]. rewrite step_passed by reflexivity.
      rewrite Hsplit, fold_left_app.
      destruct (Path.ends_with_slash s); [|reflexivity].
      cbn [fold_left]. now rewrite step_passed.
    + change ("" +:+ ?y)%string with y.
      rewrite Hsplit, fold_left_app.
      destruct (Path.ends_with_slash s); [|reflexivity].
      cbn [fold_left]. now rewrite step_passed.
Qed.

Lemma startsWith_normalize s :
  s <> ""%string -> Js.startsWith (Path.normalize s) "/" = Js.startsWith s "/".
Proof.
  intros Hs. destruct s as [|c0 s0]; [congruence|].
  unfold Path.normalize.
  set (s := String c0 s0). set (abs := Js.startsWith s "/").
  set (N := Path.normalize_segments (negb abs) (Js.split "/" s)).
  assert (HN : Forall (fun x => passed_over x = false /\ lacks "/" x) N).
  { unfold N, Path.normalize_segments. apply Forall_rev.
    apply fold_elements; [|constructor].
    intros seg Hseg Hp. split; [exact Hp|].
    pose proof (split_components_lack s) as Hall. rewrite List.Forall_forall in Hall.
    now apply Hall. }
  destruct N as [|n N'] eqn:EN.
  - cbn [Js.join]. destruct abs, (Path.ends_with_slash s); reflexivity.
  - apply Forall_inv in HN as [Hp Hl].
    destruct n as [|c x]; [discriminate|].
    destruct (join_head c x N') as (tl & ->).
    destruct abs; [reflexivity|]. cbn [append Js.startsWith].
    apply SplitFacts.lacks_cons in Hl as [Hc _].
    apply Ascii.eqb_neq in Hc. rewrite Ascii.eqb_sym in Hc. now rewrite Hc.
Qed.

(** ** The file a joined path reaches *)

Lemma resolve_normalize cwd s :
  s <> ""%string ->
  Path.resolve cwd (Path.normalize s)
  = Path.normalize_segments false
      ((if Js.startsWith s "/" then [] else Js.split "/" cwd) ++ Js.split "/" s).
Proof.
  intros Hs. unfold Path.resolve. rewrite (startsWith_normalize _ Hs).
  destruct (Js.startsWith s "/") eqn:Habs; unfold Path.normalize_segments at 1.
  - rewrite (split_normalize false s [] Hs), Habs. cbn [negb app].
    rewrite fold_plain.
    + now rewrite app_nil_r, rev_involutive.
    + unfold Path.normalize_segments. apply Forall_rev, fold_false_plain. constructor.
  - change (cwd +:+ "/" +:+ Path.normalize s)
      with (cwd +:+ String "/" (Path.normalize s)).
    rewrite SplitFacts.split_app_sep, fold_left_app.
    rewrite (split_normalize false s _ Hs), Habs. cbn [negb].
    rewrite fold_relative by (apply fold_false_plain; constructor).
    unfold Path.normalize_segments. now rewrite fold_left_app.
Qed.

Lemma resolve_join cwd segments :
  Path.resolve cwd (Path.join segments)
  = Path.normalize_segments false (origin cwd segments ++ components segments).
Proof.
  unfold Path.join, origin, components.
  destruct (List.filter Js.truthy segments) as [|p parts] eqn:E.
  - cbn [Js.join Js.startsWith flat_map]. unfold Path.resolve.
    change (Js.startsWith "." "/") with false. cbv iota.
    change (cwd +:+ "/" +:+ ".") with (cwd +:+ String "/" ".").
    rewrite SplitFacts.split_app_sep. unfold Path.normalize_segments.
    rewrite !fold_left_app. reflexivity.
  - assert (Hp : p <> ""%string).
    { assert (Hin : In p (List.filter Js.truthy segments)) by (rewrite E; now left).
      apply List.filter_In in Hin as [_ Hin]. now destruct p. }
    assert (Hs : Js.join "/" (p :: parts) <> ""%string).
    { destruct p as [|c x]; [congruence|].
      destruct (join_head c x parts) as (tl & ->). discriminate. }
    rewrite (resolve_normalize cwd _ Hs), split_join by discriminate. reflexivity.
Qed.

(** ** The file a joined path names *)

Lemma list_ascii_app a b :
  list_ascii_of_string (a +:+ b) = list_ascii_of_string a ++ list_ascii_of_string b.
Proof. induction a as [|c a IH]; [reflexivity|]. cbn. now rewrite IH. Qed.

Lemma ends_with_slash_app a x :
  x <> ""%string -> lacks "/" x -> Path.ends_with_slash (a +:+ x) = false.
Proof.
  intros Hx Hl. unfold Path.ends_with_slash. rewrite list_ascii_app, rev_app_distr.
  assert (Hall : Forall (fun c => c <> "/"%char) (list_ascii_of_string x)).
  { clear Hx. induction x as [|c x IH]; [constructor|].
    apply SplitFacts.lacks_cons in Hl as [Hc Hl]. constructor; [exact Hc | now apply IH]. }
  destruct (rev (list_ascii_of_string x)) as [|c l] eqn:E.
  - apply (f_equal (@rev ascii)) in E. rewrite rev_involutive in E. cbn in E.
    destruct x; [congruence | discriminate].
  - cbn [app]. apply Ascii.eqb_neq.
    rewrite List.Forall_forall in Hall. apply Hall.
    apply in_rev. rewrite E. now left.
Qed.

Lemma join_snoc sep parts x :
  parts <> [] -> Js.join sep (parts ++ [x]) = Js.join sep parts +:+ sep +:+ x.
Proof.
  induction parts as [|p parts IH]; [congruence|]. intros _.
  destruct parts as [|q parts]; [reflexivity|].
  change ((p :: q :: parts) ++ [x]) with (p :: (q :: parts) ++ [x]).
  change ((q :: parts) ++ [x]) with (q :: parts ++ [x]) at 1.
  rewrite EntityFacts.join_cons2.
  change (q :: parts ++ [x]) with ((q :: parts) ++ [x]).
  rewrite IH by discriminate. rewrite EntityFacts.join_cons2.
  now rewrite !JsFacts.app_assoc.
Qed.

Lemma join_snoc_suffix sep parts x y :
  Js.join sep (parts ++ [x]) +:+ y = Js.join sep (parts ++ [x +:+ y]).
Proof.
  destruct parts as [|p parts]; [reflexivity|].
  rewrite !join_snoc by discriminate. now rewrite !JsFacts.app_assoc.
Qed.

Lemma normalize_shape s :
  s <> ""%string ->
  Path.normalize_segments (negb (Js.startsWith s "/")) (Js.split "/" s) <> [] ->
  Path.normalize s
  = (if Js.startsWith s "/" then "/" else "")
    +:+ Js.join "/" (Path.normalize_segments (negb (Js.startsWith s "/"))
                                             (Js.split "/" s))
    +:+ (if Path.ends_with_slash s then "/" else "").
Proof.
  intros Hs. destruct s as [|c0 s0]; [congruence|].
  unfold Path.normalize.
  set (s := String c0 s0). set (abs := Js.startsWith s "/").
  set (N := Path.normalize_segments (negb abs) (Js.split "/" s)).
  assert (HN : Forall (fun x => passed_over x = false) N).
  { unfold N, Path.normalize_segments. apply Forall_rev.
    apply fold_elements; [|constructor]. now intros seg _ Hp. }
  intros Hne. destruct N as [|n N']; [congruence|].
  apply Forall_inv in HN. destruct n as [|c x]; [discriminate|].
  destruct (join_head c x N') as (tl & ->). reflexivity.
Qed.

(** The file [dumpFile] is handed when its path is joined from segments
    that end with a plain name: the name with the extension, in a
    folder. *)
Lemma join_file (segments : list string) (x ext : string) :
  plain_segment x = true -> lacks "/" x -> lacks "/" ext ->
  exists dirs,
    List.filter Cms.nonempty
      (Js.split "/" (Path.join (segments ++ [x]) +:+ "." +:+ ext))
    = dirs ++ [x +:+ "." +:+ ext].
Proof.
  intros Hplain Hx Hext.
  assert (Hne : exists c x', x = String c x').
  { destruct x; [discriminate | eauto]. }
  destruct Hne as (cx & x' & Ex).
  unfold Path.join. rewrite List.filter_app.
  replace (List.filter Js.truthy [x]) with [x] by (rewrite Ex; reflexivity).
  set (parts := List.filter Js.truthy segments).
  assert (Hparts : Forall (fun p => p <> ""%string) parts).
  { apply List.Forall_forall. intros p Hp. apply List.filter_In in Hp as [_ Hp].
    now destruct p. }
  destruct (parts ++ [x]) as [|p0 ps0] eqn:E; [now destruct parts|]. rewrite <- E.
  set (s := Js.join "/" (parts ++ [x])).
  assert (Hshape : exists a, s = a +:+ x).
  { unfold s. destruct parts as [|p parts'].
    - now exists ""%string.
    - rewrite join_snoc by discriminate. eexists. rewrite <- JsFacts.app_assoc.
      reflexivity. }
  destruct Hshape as (a & Hs).
  assert (Hsne : s <> ""%string).
  { rewrite Hs, Ex. destruct a; discriminate. }
  assert (Htrail : Path.ends_with_slash s = false).
  { rewrite Hs. apply ends_with_slash_app; [rewrite Ex; discriminate | exact Hx]. }
  set (b := negb (Js.startsWith s "/")).
  set (N0 := Path.normalize_segments b (flat_map (Js.split "/") parts)).
  assert (HN : Path.normalize_segments b (Js.split "/" s) = N0 ++ [x]).
  { unfold s. rewrite split_join by (rewrite E; discriminate).
    rewrite flat_map_app. cbn [flat_map]. rewrite app_nil_r.
    rewrite (SplitFacts.split_lacks _ _ Hx).
    unfold plain_segment in Hplain. apply andb_prop in Hplain as [Hp Hu].
    rewrite normalize_segments_app_no_up by (cbn [forallb]; now rewrite Hu).
    cbn [List.filter]. now rewrite Hp. }
  assert (HN0 : Forall (fun y => passed_over y = false /\ lacks "/" y) N0).
  { unfold N0, Path.normalize_segments. apply Forall_rev.
    apply fold_elements; [|constructor].
    intros seg Hseg Hp. split; [exact Hp|].
    apply in_flat_map in Hseg as (part & _ & Hseg).
    pose proof (split_components_lack part) as Hall. rewrite List.Forall_forall in Hall.
    now apply Hall. }
  rewrite (normalize_shape s Hsne) by (fold b; rewrite HN; now destruct N0).
  fold b. rewrite HN, Htrail, JsFacts.app_nil_r, JsFacts.app_assoc.
  rewrite join_snoc_suffix.
  assert (Hfile : lacks "/" (x +:+ "." +:+ ext)).
  { apply SplitFacts.lacks_app. split; [exact Hx|].
    apply SplitFacts.lacks_app. now split. }
  assert (Hsplit : Js.split "/" (Js.join "/" (N0 ++ [x +:+ "." +:+ ext]))
                   = N0 ++ [x +:+ "." +:+ ext]).
  { apply split_join_lacks; [now destruct N0|].
    apply Forall_app. split; [|now repeat constructor].
    eapply Forall_impl; [exact HN0|]. now intros y [_ Hy]. }
  assert (Hkeep : List.filter Cms.nonempty (N0 ++ [x +:+ "." +:+ ext])
                  = N0 ++ [x +:+ "." +:+ ext]).
  { rewrite List.filter_app. f_equal.
    - clear - HN0. induction HN0 as [|y N0 [Hy _] _ IH]; [reflexivity|].
      cbn [List.filter]. rewrite IH. destruct y; [discriminate | reflexivity].
    - rewrite Ex. reflexivity. }
  exists N0. destruct (Js.startsWith s "/").
  - change (Js.split "/" ("/" +:+ ?y)) with (""%string :: Js.split "/" y).
    rewrite Hsplit. cbn [List.filter Cms.nonempty Js.truthy]. exact Hkeep.
  - change ("" +:+ ?y)%string with y. now rewrite Hsplit.
Qed.

Lemma under_app (root rest : list string) : Fs.under root (root ++ rest) = true.
Proof.
  induction root as [|r root IH]; [reflexivity|].
  cbn [app Fs.under]. now rewrite String.eqb_refl, IH.
Qed.

(** Segments added without a step to the parent reach a file beneath. *)
Lemma resolve_join_below cwd base rest :
  List.filter Js.truthy base <> [] ->
  no_up rest = true ->
  Path.resolve cwd (Path.join (base ++ rest))
  = Path.resolve cwd (Path.join base)
    ++ List.filter (fun c => negb (passed_over c)) (components rest).
Proof.
  intros Hbase Hrest. rewrite !resolve_join.
  assert (Ho : origin cwd (base ++ rest) = origin cwd base).
  { unfold origin. rewrite List.filter_app.
    destruct (List.filter Js.truthy base) as [|p parts] eqn:E; [congruence|].
    assert (Hp : p <> ""%string).
    { assert (Hin : In p (List.filter Js.truthy base)) by (rewrite E; now left).
      apply List.filter_In in Hin as [_ Hin]. now destruct p. }
    destruct p as [|c x]; [congruence|]. cbn [app].
    destruct (join_head c x (parts ++ List.filter Js.truthy rest)) as (tl & ->).
    destruct (join_head c x parts) as (tl' & ->). reflexivity. }
  assert (Hc : components (base ++ rest) = components base ++ components rest).
  { unfold components. now rewrite List.filter_app, flat_map_app. }
  rewrite Ho, Hc, app_assoc. now apply normalize_segments_app_no_up.
Qed.

End JoinFacts.

(* ================================================================== *)
(** * The site index, the files outside the content root, the hook,
      the language of a route *)
(* ================================================================== *)

Module IndexFacts.

Import Cms Notions.

Lemma last_dot_lacks (s : string) (pos : nat) :
  lacks "." s -> last_dot s pos = None.
Proof.
  revert pos; induction s as [|c s IH]; intros pos Hs; [reflexivity|].
  apply SplitFacts.lacks_cons in Hs as [Hc Hs]. cbn [last_dot].
  destruct (is_line_terminator c); [reflexivity|].
  rewrite (IH _ Hs). apply Ascii.eqb_neq in Hc. now rewrite Hc.
Qed.

Lemma last_dot_found (a b : string) (pos : nat) :
  Js.all (fun c => negb (is_line_terminator c)) a = true ->
  lacks "." b ->
  last_dot (a +:+ String "." b) pos = Some (pos + String.length a).
Proof.
  intros Ha Hb. revert pos; induction a as [|c a IH]; intros pos.
  - cbn [append last_dot]. rewrite (last_dot_lacks _ _ Hb). cbn.
    f_equal. lia.
  - cbn [Js.all] in Ha. apply andb_prop in Ha as [Hc Ha].
    apply negb_true_iff in Hc. cbn [append last_dot]. rewrite Hc, (IH Ha).
    f_equal. cbn. lia.
Qed.

Lemma label_link_go_text (x rest : string) :
  Spec.no_colon x -> label_link_go (x +:+ rest) 0 = x +:+ label_link_go rest 0.
Proof.
  induction x as [|c x IH]; intros Hx; [reflexivity|].
  unfold Spec.no_colon in Hx. cbn [Js.all] in Hx. apply andb_prop in Hx as [Hc Hx].
  apply negb_true_iff in Hc. cbn [append label_link_go]. rewrite Hc.
  now rewrite (IH Hx).
Qed.

Lemma label_link_go_skip (x rest : string) :
  label_link_go (x +:+ rest) (String.length x) = label_link_go rest 0.
Proof. induction x as [|c x IH]; [reflexivity | exact IH]. Qed.

(** X19.  In the site index a label without colon stands as it is, and
    in a label [x:a.b], where [x] holds no colon, [a] no line break and
    [b] neither a dot nor a colon, the text between the colon and the
    last dot is put between double underscores: [x__a__.b]. *)
Theorem label_link_shape :
  (forall s, Spec.no_colon s -> label_link s = s)
  /\ (forall x a b,
        Spec.no_colon x ->
        Js.all (fun c => negb (is_line_terminator c)) a = true ->
        lacks "." b -> Spec.no_colon b ->
        label_link (x +:+ ":" +:+ a +:+ "." +:+ b) = x +:+ "__" +:+ a +:+ "__." +:+ b).
Proof.
  assert (Hplain : forall s, Spec.no_colon s -> label_link s = s).
  { intros s Hs. unfold label_link. rewrite <- (JsFacts.app_nil_r s) at 1.
    rewrite (label_link_go_text _ _ Hs). apply JsFacts.app_nil_r. }
  split; [exact Hplain|].
  intros x a b Hx Ha Hb Hbc. unfold label_link.
  rewrite (label_link_go_text _ _ Hx). f_equal.
  change (":" +:+ a +:+ "." +:+ b) with (String ":" (a +:+ String "." b)).
  cbn [label_link_go]. rewrite Ascii.eqb_refl.
  rewrite (last_dot_found a b 0 Ha Hb). cbn [Nat.add].
  rewrite LookupFacts.take_app.
  replace (S (String.length a)) with (String.length (a +:+ "."))
    by (rewrite JsFacts.length_app; cbn; lia).
  replace (a +:+ String "." b) with ((a +:+ ".") +:+ b)
    by (now rewrite JsFacts.app_assoc).
  rewrite label_link_go_skip. fold (label_link b). rewrite (Hplain b Hbc).
  reflexivity.
Qed.

(** The labels [About us] and [Hotels in :city.label]. *)
Lemma label_link_shape_witness :
  label_link "About us" = "About us"%string
  /\ label_link "Hotels in :city.label" = "Hotels in __city__.label"%string.
Proof.
  destruct label_link_shape as (Hplain & Hone).
  split.
  - now apply Hplain.
  - exact (Hone "Hotels in "%string "city"%string "label"%string
                eq_refl eq_refl eq_refl eq_refl).
Defined.

End IndexFacts.

Module FrameFacts.

Import Cms Notions.

(** An event within the configuration, whose file adds no step to the
    parent directory, leaves the files outside the content root as they
    are. *)
Lemma confined_frame (cfg : Config) (cwd : string) (e : event)
    (files : gmap (list string) string) (p : list string) :
  List.filter Js.truthy (contentBasePath cfg) <> [] ->
  confined cfg e ->
  keeps_below cfg [e] = true ->
  Fs.under (Path.resolve cwd (path_join (contentBasePath cfg))) p = false ->
  Fs.apply_event cwd files e !! p = files !! p.
Proof.
  intros Hbase He Hk Hp. destruct e as [target | target | target content | url];
    cbn [Fs.apply_event confined] in *; try reflexivity.
  - subst target. revert Hp.
    generalize (Path.resolve cwd (path_join (contentBasePath cfg))). intros root Hp.
    rewrite map_lookup_filter.
    destruct (files !! p) as [c|]; [|reflexivity].
    cbn. rewrite Hp. reflexivity.
  - destruct He as (rest & Hrest & ->).
    unfold keeps_below in Hk. cbn [Fs.written flat_map app forallb] in Hk.
    rewrite andb_true_r, drop_app_length in Hk.
    apply lookup_insert_ne. intros Heq. subst p.
    unfold path_join in Hp.
    rewrite (JoinFacts.resolve_join_below cwd _ _ Hbase Hk), JoinFacts.under_app in Hp.
    discriminate.
Qed.

Lemma keeps_below_cons (cfg : Config) (e : event) (t : list event) :
  keeps_below cfg (e :: t) = keeps_below cfg [e] && keeps_below cfg t.
Proof.
  unfold keeps_below. cbn [Fs.written flat_map]. rewrite app_nil_r.
  now rewrite forallb_app.
Qed.

Lemma trace_frame (cfg : Config) (cwd : string) (t : list event)
    (files : gmap (list string) string) (p : list string) :
  List.filter Js.truthy (contentBasePath cfg) <> [] ->
  List.Forall (confined cfg) t ->
  keeps_below cfg t = true ->
  Fs.under (Path.resolve cwd (path_join (contentBasePath cfg))) p = false ->
  Fs.apply_trace cwd t files !! p = files !! p.
Proof.
  intros Hbase Ht Hk Hp. revert files.
  induction Ht as [|e t He _ IH]; intros files; [reflexivity|].
  rewrite keeps_below_cons in Hk. apply andb_prop in Hk as [Hke Hkt].
  cbn [Fs.apply_trace fold_left].
  change (fold_left (Fs.apply_event cwd) t) with (Fs.apply_trace cwd t).
  rewrite (IH Hkt). now apply (confined_frame cfg).
Qed.

Section WithCollaborators.
Context `{Collaborators}.

(** X20.  A run of [generateContent] leaves every file that is not
    beneath the content root as it was, neither removed nor written,
    when the content root has a segment that is not empty and no file
    the run writes adds to the content root a step [..] to the parent
    directory.  (A file is told by the segments of its absolute path:
    the segments handed to a primitive are joined and normalised, and
    resolved against the working directory.)  A page whose sorted path
    holds such a step is written outside the content root. *)
Theorem generateContent_frame (cfg0 : Config) (apiBaseUrl' : string)
    (contentRootFolder : option string)
    (excludeLabelKeyPrefixes : option (list string))
    (cwd : string) (files : gmap (list string) string) (p : list string) :
  let cfg := configure cfg0 apiBaseUrl' contentRootFolder in
  let run :=
    generateContent cfg0 apiBaseUrl' contentRootFolder excludeLabelKeyPrefixes in
  List.filter Js.truthy (contentBasePath cfg) <> [] ->
  keeps_below cfg (trace run) = true ->
  Fs.under (Path.resolve cwd (path_join (contentBasePath cfg))) p = false ->
  Fs.apply_trace cwd (trace run) files !! p = files !! p
  /\ (let escape := trace (dumpFile config "text" "/../escape" "md") in
      keeps_below config escape = false
      /\ Fs.apply_trace "/srv/site" escape ∅ !! ["srv"; "site"; "escape.md"]%string
         = Some "text"%string).
Proof.
  intros cfg run Hbase Hk Hp. split; [|split; reflexivity].
  apply (trace_frame cfg); [exact Hbase | | exact Hk | exact Hp].
  subst run.
  destruct (RunFacts.generateContent_quiet cfg0 apiBaseUrl' contentRootFolder
              excludeLabelKeyPrefixes) as (rest & -> & Hq).
  constructor; [reflexivity|].
  apply (List.Forall_impl (P := quiet (configure cfg0 apiBaseUrl' contentRootFolder)));
    [intros e He; exact (proj2 He) | exact Hq].
Qed.

(** X21.  The [ready] hook does nothing at all, no removal, no request
    and no write, unless content generation is enabled and the API base
    URL is not empty; in that case it runs [generateContent], whose first
    action is the removal of the content root.  With the default options
    it does nothing. *)
Theorem ready_guard (cfg0 : Config) (options : Hook.GenerateContentOptions) :
  let on :=
    Hook.enabled options = Some true
    /\ exists url, Hook.apiBaseUrl options = Some url /\ url <> ""%string in
  (~ on -> Hook.ready cfg0 options = ret tt)
  /\ (forall url,
        Hook.enabled options = Some true ->
        Hook.apiBaseUrl options = Some url -> url <> ""%string ->
        Hook.ready cfg0 options
        = generateContent cfg0 url (Hook.contentRootFolder options)
                          (Hook.excludeLabelKeyPrefixes options)
        /\ exists rest,
            trace (Hook.ready cfg0 options)
            = Rm (contentBasePath
                    (configure cfg0 url (Hook.contentRootFolder options)))
              :: rest)
  /\ trace (Hook.ready cfg0 Hook.defaults) = [].
Proof.
  intros on. split; [|split].
  - intros Hoff. unfold Hook.ready.
    destruct (Hook.enabled options) as [[|]|] eqn:He; cbn [default]; try reflexivity.
    destruct (Hook.apiBaseUrl options) as [url|] eqn:Hu; cbn [default]; [|reflexivity].
    destruct url as [|c url]; [reflexivity|].
    exfalso. apply Hoff. split; [reflexivity|]. eexists. split; [reflexivity|].
    discriminate.
  - intros url He Hu Hne.
    assert (Hrun : Hook.ready cfg0 options
                   = generateContent cfg0 url (Hook.contentRootFolder options)
                                     (Hook.excludeLabelKeyPrefixes options)).
    { unfold Hook.ready. rewrite He, Hu. cbn [default].
      destruct url; [congruence | reflexivity]. }
    split; [exact Hrun|]. rewrite Hrun.
    unfold generateContent. rewrite EffectFacts.bind_emit. cbn [trace].
    eexists. reflexivity.
  - reflexivity.
Qed.

End WithCollaborators.

#[local] Existing Instance Demo.collaborators.

(** A run into [out], from the working directory [/srv/site], next to
    a file of the sources. *)
Lemma generateContent_frame_witness :
  let source := ["srv"; "site"; "src"; "app.vue"]%string in
  let files : gmap (list string) string := {[ source := "app"%string ]} in
  Fs.apply_trace "/srv/site"
                 (trace (generateContent config "http://cms" (Some "out"%string) None))
                 files !! source
  = Some "app"%string.
Proof.
  intros source files.
  destruct (generateContent_frame config "http://cms" (Some "out"%string) None
              "/srv/site" files source) as [Hframe _];
    [discriminate | reflexivity | reflexivity|].
  rewrite Hframe. reflexivity.
Defined.

(** The hook with generation switched on for [http://cms]. *)
Lemma ready_guard_witness :
  exists rest,
    trace (Hook.ready config
             {| Hook.enabled := Some true; Hook.apiBaseUrl := Some "http://cms"%string;
                Hook.contentRootFolder := Some "content"%string;
                Hook.excludeLabelKeyPrefixes := None |})
    = Rm ["content"%string] :: rest.
Proof.
  destruct (ready_guard config
              {| Hook.enabled := Some true; Hook.apiBaseUrl := Some "http://cms"%string;
                 Hook.contentRootFolder := Some "content"%string;
                 Hook.excludeLabelKeyPrefixes := None |}) as (_ & Hon & _).
  destruct (Hon "http://cms"%string eq_refl eq_refl ltac:(discriminate))
    as (_ & rest & Hrest).
  exists rest. exact Hrest.
Defined.

End FrameFacts.

Module LangFacts.

Import Langs Notions.

Lemma or_else_truthy (a b : string) : b <> ""%string -> Js.or_else a b <> ""%string.
Proof. destruct a; [now cbn | discriminate]. Qed.

Lemma currentLangCode_first_segment (c rest : string) :
  lacks "/" c ->
  match rest with
  | EmptyString => True
  | String d _ => d = "/"%char
  end ->
  currentLangCode ("/" +:+ c +:+ rest) = Some c.
Proof.
  intros Hs Hrest. unfold currentLangCode. cbn [append Js.split].
  rewrite Ascii.eqb_refl. destruct rest as [|d rest].
  - rewrite JsFacts.app_nil_r, (SplitFacts.split_lacks _ _ Hs). reflexivity.
  - subst d. rewrite SplitFacts.split_app_sep, (SplitFacts.split_lacks _ _ Hs).
    reflexivity.
Qed.

(** X22.  The language of a route is its first path segment: for the
    route [/code] or [/code/...] it is [code].  The language code the
    navigation is loaded for is that segment when it is not empty,
    otherwise the code of the default language, otherwise [en]; it is
    never empty. *)
Theorem langCode_of_route :
  (forall st c rest,
      c <> ""%string -> lacks "/" c ->
      match rest with
      | EmptyString => True
      | String d _ => d = "/"%char
      end ->
      currentLangCode ("/" +:+ c +:+ rest) = Some c
      /\ langCode st ("/" +:+ c +:+ rest) = c)
  /\ (forall st route, langCode st route <> ""%string)
  /\ (forall st route,
        default EmptyString (currentLangCode route) = ""%string ->
        langCode st route
        = match defaultLang st with
          | Some lang => Js.or_else (code lang) "en"
          | None => "en"%string
          end).
Proof.
  split; [|split].
  - intros st c rest Hc Hs Hrest.
    pose proof (currentLangCode_first_segment c rest Hs Hrest) as Hcode.
    split; [exact Hcode|]. unfold langCode. rewrite Hcode. cbn [default].
    now apply JsFacts.or_else_nonempty.
  - intros st route. unfold langCode.
    destruct (default EmptyString (currentLangCode route)) as [|d s]; [|discriminate].
    cbn [Js.or_else Js.truthy]. now apply or_else_truthy.
  - intros st route Hnone. unfold langCode. rewrite Hnone.
    cbn [Js.or_else Js.truthy]. now destruct (defaultLang st).
Qed.

(** X23.  After a list of languages is loaded, the current language of
    a route [/code] or [/code/...] is the first loaded language with that
    code; when there is none it is the default language, which is the
    first loaded language flagged as default and, when the list has
    none, the default language of before the load, even if that one is
    not in the list. *)
Theorem currentLang_after_load (found : list Lang) (st : LangStore)
    (c rest : string) :
  lacks "/" c ->
  match rest with
  | EmptyString => True
  | String d _ => d = "/"%char
  end ->
  currentLang (_loadLangs (Some found) st) ("/" +:+ c +:+ rest)
  = match List.find (fun lang => String.eqb (code lang) c) found with
    | Some lang => Some lang
    | None =>
        match List.find isDefault found with
        | Some lang => Some lang
        | None => defaultLang st
        end
    end.
Proof.
  intros Hs Hrest. unfold currentLang.
  rewrite (currentLangCode_first_segment c rest Hs Hrest). reflexivity.
Qed.

(** The routes [/fr/about] and [/]. *)
Lemma langCode_of_route_witness :
  langCode {| langs := [Samples.english; Samples.french];
              defaultLang := Some Samples.english |} "/fr/about"
  = "fr"%string
  /\ langCode {| langs := [Samples.english; Samples.french];
                 defaultLang := Some Samples.english |} "/"
     = "en"%string.
Proof.
  destruct langCode_of_route as (Hroute & _ & Hdefault).
  split.
  - exact (proj2 (Hroute {| langs := [Samples.english; Samples.french];
                            defaultLang := Some Samples.english |}
                         "fr"%string "/about"%string
                         ltac:(discriminate) eq_refl eq_refl)).
  - rewrite Hdefault; reflexivity.
Defined.

(** The route [/fr/about] and the route [/de] of a language that is not
    loaded. *)
Lemma currentLang_after_load_witness :
  currentLang (_loadLangs (Some [Samples.english; Samples.french])
                          {| langs := []; defaultLang := None |}) "/fr/about"
  = Some Samples.french
  /\ currentLang (_loadLangs (Some [Samples.english; Samples.french])
                             {| langs := []; defaultLang := None |}) "/de"
     = Some Samples.english.
Proof.
  split.
  - exact (currentLang_after_load [Samples.english; Samples.french]
             {| langs := []; defaultLang := None |} "fr" "/about" eq_refl eq_refl).
  - exact (currentLang_after_load [Samples.english; Samples.french]
             {| langs := []; defaultLang := None |} "de" "" eq_refl I).
Defined.

End LangFacts.

(* ================================================================== *)
(** * Objects written key by key *)
(* ================================================================== *)

Module ObjectFacts.

Import Notions.

Section WithValues.
Context {V : Type}.

Implicit Types (o : list (string * V)) (key : string) (v : V).

Lemma existsb_key o key :
  existsb (fun kw => String.eqb (fst kw) key) o = true <-> In key (map fst o).
Proof.
  rewrite existsb_exists, in_map_iff. split.
  - intros (x & Hx & He). apply String.eqb_eq in He. now exists x.
  - intros (x & He & Hx). exists x. split; [exact Hx | now apply String.eqb_eq].
Qed.

(** ** A property written in place *)

Lemma keys_replace o key v :
  map fst (map (fun kw => if String.eqb (fst kw) key then (key, v) else kw) o)
  = map fst o.
Proof.
  rewrite map_map. apply map_ext. intros [k w]. cbn [fst].
  destruct (String.eqb_spec k key) as [-> |]; reflexivity.
Qed.

Lemma In_replace o key v k w :
  In key (map fst o) ->
  In (k, w) (map (fun kw => if String.eqb (fst kw) key then (key, v) else kw) o)
  <-> (k = key /\ w = v) \/ (k <> key /\ In (k, w) o).
Proof.
  intros Hkey. rewrite in_map_iff. split.
  - intros ([k0 w0] & Hf & Hin). cbn [fst] in Hf.
    destruct (String.eqb_spec k0 key) as [-> | Hne].
    + injection Hf as <- <-. now left.
    + injection Hf as -> ->. right. now split.
  - intros [[-> ->] | [Hne Hin]].
    + apply in_map_iff in Hkey as ([k0 w0] & Hk & Hin). cbn [fst] in Hk. subst k0.
      exists (key, w0). cbn [fst]. now rewrite String.eqb_refl.
    + exists (k, w). cbn [fst]. apply String.eqb_neq in Hne. now rewrite Hne.
Qed.

(** ** A property created *)

Lemma In_insert_index key v o x :
  In x (Js.insert_index key v o) <-> x = (key, v) \/ In x o.
Proof.
  induction o as [|[k w] o IH]; cbn [Js.insert_index In].
  - intuition congruence.
  - destruct (Js.is_array_index k && _); cbn [In]; [rewrite IH|]; intuition congruence.
Qed.

Lemma keys_insert_index key v o k :
  In k (map fst (Js.insert_index key v o)) <-> k = key \/ In k (map fst o).
Proof.
  rewrite !in_map_iff. split.
  - intros (x & Hk & Hx). apply In_insert_index in Hx as [-> | Hx]; [now left|].
    right. now exists x.
  - intros [-> | (x & Hk & Hx)].
    + exists (key, v). split; [reflexivity|]. apply In_insert_index. now left.
    + exists x. split; [exact Hk|]. apply In_insert_index. now right.
Qed.

Lemma NoDup_insert_index key v o :
  ~ In key (map fst o) -> List.NoDup (map fst o) ->
  List.NoDup (map fst (Js.insert_index key v o)).
Proof.
  induction o as [|[k w] o IH]; intros Hkey Hnd; cbn [Js.insert_index map fst].
  - constructor; [intros [] | constructor].
  - cbn [map fst] in Hkey, Hnd. apply List.NoDup_cons_iff in Hnd as [Hk Hnd].
    destruct (Js.is_array_index k && _); cbn [map fst].
    + constructor.
      * intros Hin. apply keys_insert_index in Hin as [-> | Hin]; [|contradiction].
        apply Hkey. now left.
      * apply IH; [|exact Hnd]. intros Hin. apply Hkey. now right.
    + constructor; [exact Hkey|]. now constructor.
Qed.

(** The array indices come first, in ascending order. *)
Lemma insert_index_sorted key v o (indices others : list string) :
  Js.is_array_index key = true ->
  map fst o = indices ++ others ->
  Forall (fun k => Js.is_array_index k = true) indices ->
  Forall (fun k => Js.is_array_index k = false) others ->
  StronglySorted (fun a b => (Js.digits_value a <= Js.digits_value b)%Z) indices ->
  exists indices',
    map fst (Js.insert_index key v o) = indices' ++ others
    /\ Forall (fun k => Js.is_array_index k = true) indices'
    /\ Forall (fun k => k = key \/ In k indices) indices'
    /\ StronglySorted (fun a b => (Js.digits_value a <= Js.digits_value b)%Z) indices'.
Proof.
  intros Hkey. revert indices.
  induction o as [|[k w] o IH]; intros indices Ho Hidx Hothers Hsorted.
  - cbn [map] in Ho. symmetry in Ho. apply app_eq_nil in Ho as [-> ->].
    exists [key]. cbn [Js.insert_index map fst app].
    split; [reflexivity|]. split; [now repeat constructor|].
    split; [constructor; [now left | constructor] | repeat constructor].
  - cbn [map fst] in Ho. destruct indices as [|k0 indices].
    + cbn [app] in Ho. subst others. apply Forall_inv in Hothers as Hk.
      cbn [Js.insert_index]. rewrite Hk. cbn [andb map fst].
      exists [key]. split; [reflexivity|]. split; [now repeat constructor|].
      split; [constructor; [now left | constructor] | repeat constructor].
    + cbn [app] in Ho. injection Ho as <- Ho.
      apply Forall_cons_1 in Hidx as [Hk Hidx].
      apply StronglySorted_inv in Hsorted as [Hsorted Hle].
      cbn [Js.insert_index]. rewrite Hk. cbn [andb].
      destruct (Z.ltb_spec (Js.digits_value k) (Js.digits_value key)) as [Hlt | Hge].
      * destruct (IH indices Ho Hidx Hothers Hsorted) as (ind' & Hmap & Hi' & Hfrom & Hs').
        exists (k :: ind'). cbn [map fst app]. rewrite Hmap.
        split; [reflexivity|]. split; [now constructor|]. split.
        -- constructor; [right; now left|].
           eapply List.Forall_impl; [|exact Hfrom]. intros x [-> | Hx]; [now left|].
           right. now right.
        -- constructor; [exact Hs'|].
           rewrite List.Forall_forall in Hfrom, Hle |- *. intros x Hx.
           destruct (Hfrom x Hx) as [-> | Hin]; [lia | now apply Hle].
      * exists (key :: k :: indices). cbn [map fst app]. rewrite Ho.
        split; [reflexivity|]. split; [now repeat constructor|]. split.
        -- constructor; [now left|]. apply List.Forall_forall. intros x Hx. now right.
        -- constructor; [now constructor|]. constructor; [exact Hge|].
           rewrite List.Forall_forall in Hle |- *. intros x Hx.
           specialize (Hle x Hx). cbv beta in Hle. lia.
Qed.

(** ** One write *)

Lemma obj_set_proto o v : Js.obj_set o "__proto__" v = o.
Proof. reflexivity. Qed.

Lemma obj_set_new o key v :
  key <> "__proto__"%string -> ~ In key (map fst o) ->
  Js.obj_set o key v
  = if Js.is_array_index key then Js.insert_index key v o else o ++ [(key, v)].
Proof.
  intros Hp Hnew. unfold Js.obj_set. apply String.eqb_neq in Hp. rewrite Hp.
  destruct (existsb _ o) eqn:He; [|reflexivity].
  apply existsb_key in He. contradiction.
Qed.

Lemma obj_set_old o key v :
  key <> "__proto__"%string -> In key (map fst o) ->
  Js.obj_set o key v
  = map (fun kw => if String.eqb (fst kw) key then (key, v) else kw) o.
Proof.
  intros Hp Hold. unfold Js.obj_set. apply String.eqb_neq in Hp. rewrite Hp.
  apply existsb_key in Hold. now rewrite Hold.
Qed.

Lemma In_obj_set o key v k w :
  key <> "__proto__"%string -> List.NoDup (map fst o) ->
  In (k, w) (Js.obj_set o key v)
  <-> (k = key /\ w = v) \/ (k <> key /\ In (k, w) o).
Proof.
  intros Hp Hnd. destruct (in_dec string_dec key (map fst o)) as [Hold | Hnew].
  - rewrite (obj_set_old _ _ _ Hp Hold). now apply In_replace.
  - rewrite (obj_set_new _ _ _ Hp Hnew).
    assert (Hiff : In (k, w) (if Js.is_array_index key
                              then Js.insert_index key v o else o ++ [(key, v)])
                   <-> (k, w) = (key, v) \/ In (k, w) o).
    { destruct (Js.is_array_index key); [apply In_insert_index|].
      rewrite in_app_iff. cbn [In]. intuition congruence. }
    rewrite Hiff. split.
    + intros [[= -> ->] | Hin]; [now left|]. right. split; [|exact Hin].
      intros ->. apply Hnew. apply in_map_iff. now exists (key, w).
    + intros [[-> ->] | [_ Hin]]; [now left | now right].
Qed.

Lemma NoDup_obj_set o key v :
  List.NoDup (map fst o) -> List.NoDup (map fst (Js.obj_set o key v)).
Proof.
  intros Hnd. destruct (String.eqb_spec key "__proto__") as [-> | Hp]; [exact Hnd|].
  destruct (in_dec string_dec key (map fst o)) as [Hold | Hnew].
  - rewrite (obj_set_old _ _ _ Hp Hold). now rewrite keys_replace.
  - rewrite (obj_set_new _ _ _ Hp Hnew). destruct (Js.is_array_index key).
    + now apply NoDup_insert_index.
    + rewrite List.map_app. cbn [map fst].
      apply List.NoDup_app; [exact Hnd | repeat constructor; intros [] |].
      intros x Hx [<- | []]. contradiction.
Qed.

Lemma obj_set_sorted o key v (indices others : list string) :
  map fst o = indices ++ others ->
  Forall (fun k => Js.is_array_index k = true) indices ->
  Forall (fun k => Js.is_array_index k = false) others ->
  StronglySorted (fun a b => (Js.digits_value a <= Js.digits_value b)%Z) indices ->
  exists indices' others',
    map fst (Js.obj_set o key v) = indices' ++ others'
    /\ Forall (fun k => Js.is_array_index k = true) indices'
    /\ Forall (fun k => Js.is_array_index k = false) others'
    /\ StronglySorted (fun a b => (Js.digits_value a <= Js.digits_value b)%Z) indices'.
Proof.
  intros Ho Hidx Hothers Hsorted.
  destruct (String.eqb_spec key "__proto__") as [-> | Hp]; [now exists indices, others|].
  destruct (in_dec string_dec key (map fst o)) as [Hold | Hnew].
  - rewrite (obj_set_old _ _ _ Hp Hold), keys_replace. now exists indices, others.
  - rewrite (obj_set_new _ _ _ Hp Hnew). destruct (Js.is_array_index key) eqn:Hkey.
    + destruct (insert_index_sorted key v o indices others Hkey Ho Hidx Hothers Hsorted)
        as (ind' & Hmap & Hi' & _ & Hs').
      now exists ind', others.
    + exists indices, (others ++ [key]).
      rewrite List.map_app, Ho, <- app_assoc. cbn [map fst].
      repeat split; try assumption.
      apply Forall_app. split; [exact Hothers | now repeat constructor].
Qed.

(** ** A list of writes *)

Lemma written_object_snoc (writes : list (string * V)) key v :
  written_object (writes ++ [(key, v)]) = Js.obj_set (written_object writes) key v.
Proof. unfold written_object. now rewrite fold_left_app. Qed.

Lemma last_value_snoc (writes : list (string * V)) key v k :
  last_value (writes ++ [(key, v)]) k
  = if String.eqb key k then Some v else last_value writes k.
Proof.
  unfold last_value. rewrite rev_app_distr. cbn [rev app List.find fst].
  now destruct (String.eqb key k).
Qed.

Lemma NoDup_written_object (writes : list (string * V)) :
  List.NoDup (map fst (written_object writes)).
Proof.
  induction writes as [|[key v] writes IH] using rev_ind; [constructor|].
  rewrite written_object_snoc. now apply NoDup_obj_set.
Qed.

(** The entries of the object: each key but [__proto__], with the value
    it was given last. *)
Lemma In_written_object (writes : list (string * V)) k w :
  In (k, w) (written_object writes)
  <-> k <> "__proto__"%string /\ last_value writes k = Some w.
Proof.
  revert k w. induction writes as [|[key v] writes IH] using rev_ind; intros k w.
  - cbn. split; [intros [] | intros [_ [=]]].
  - rewrite written_object_snoc, last_value_snoc.
    destruct (String.eqb_spec key "__proto__") as [-> | Hp].
    + rewrite obj_set_proto, IH. split.
      * intros [Hk Hl]. split; [exact Hk|].
        destruct (String.eqb_spec "__proto__" k) as [<- |]; [congruence | exact Hl].
      * intros [Hk Hl]. split; [exact Hk|].
        destruct (String.eqb_spec "__proto__" k) as [<- |]; [congruence | exact Hl].
    + rewrite (In_obj_set _ _ _ _ _ Hp (NoDup_written_object writes)), IH.
      destruct (String.eqb_spec key k) as [<- | Hne]; split.
      * intros [[_ ->] | [Hc _]]; [now split | congruence].
      * intros [_ [= ->]]. now left.
      * intros [[-> _] | [_ Hin]]; [congruence | exact Hin].
      * intros Hin. right. split; [congruence | exact Hin].
Qed.

Lemma written_object_sorted (writes : list (string * V)) :
  exists indices others,
    map fst (written_object writes) = indices ++ others
    /\ Forall (fun k => Js.is_array_index k = true) indices
    /\ Forall (fun k => Js.is_array_index k = false) others
    /\ StronglySorted (fun a b => (Js.digits_value a <= Js.digits_value b)%Z) indices.
Proof.
  induction writes as [|[key v] writes IH] using rev_ind.
  - exists [], []. repeat split; constructor.
  - destruct IH as (indices & others & Ho & Hi & Hot & Hs).
    rewrite written_object_snoc. now apply (obj_set_sorted _ _ _ indices others).
Qed.

(** Distinct keys, none an array index, none [__proto__]: the object
    has the entries in the order of the writes. *)
Lemma written_object_plain (writes : list (string * V)) :
  List.NoDup (map fst writes) ->
  Forall (fun item => Js.is_array_index (fst item) = false
                      /\ fst item <> "__proto__"%string) writes ->
  written_object writes = writes.
Proof.
  induction writes as [|[key v] writes IH] using rev_ind; intros Hnd Hplain;
    [reflexivity|].
  rewrite List.map_app in Hnd. cbn [map fst] in Hnd.
  apply Forall_app in Hplain as [Hplain Hlast].
  apply Forall_inv in Hlast as [Hidx Hp]. cbn [fst] in Hidx, Hp.
  rewrite written_object_snoc, IH; [|now apply List.NoDup_app_remove_r in Hnd | exact Hplain].
  rewrite obj_set_new, Hidx; [reflexivity | exact Hp |].
  intros Hin. apply List.NoDup_remove_2 in Hnd. rewrite app_nil_r in Hnd.
  contradiction.
Qed.

(** Writing the entries that pass a test is writing the entries left by
    the filter. *)
Lemma fold_filter (keep : string * V -> bool) (items : list (string * V)) :
  forall o,
    fold_left (fun acc item => if keep item then Js.obj_set acc (fst item) (snd item)
                               else acc) items o
    = fold_left (fun acc item => Js.obj_set acc (fst item) (snd item))
                (List.filter keep items) o.
Proof.
  induction items as [|item items IH]; intros o; [reflexivity|].
  cbn [fold_left List.filter]. destruct (keep item); cbn [fold_left]; apply IH.
Qed.

End WithValues.

End ObjectFacts.

(* ================================================================== *)
(** * First-level pages, the labels, the outcome of a run *)
(* ================================================================== *)

Module LevelFacts.

Import Navigation Notions.

Lemma length_split (sep : ascii) (s : string) :
  length (Js.split sep s) = S (occurrences sep s).
Proof.
  induction s as [|c s IH]; [reflexivity|].
  cbn [Js.split occurrences]. destruct (Ascii.eqb c sep).
  - cbn [length]. now rewrite IH.
  - pose proof (SplitFacts.split_nonempty sep s) as Hne.
    destruct (Js.split sep s) as [|seg segs]; [congruence|].
    cbn [length] in *. exact IH.
Qed.

(** X24.  A page is a first-level page exactly when its path holds
    exactly two slashes, wherever they stand: [/en/a] is one, the home
    page [/en] is not, and neither is [/en/a/] with a trailing slash. *)
Theorem isFirstLevel_iff (page : HcPage) :
  isFirstLevel page = true <-> occurrences "/" (path page) = 2.
Proof.
  unfold isFirstLevel. rewrite Nat.eqb_eq, length_split. lia.
Qed.

(** The pages [/en/a], [/en] and [/en/a/]. *)
Lemma isFirstLevel_iff_witness :
  isFirstLevel (Demo.nav_page 2 "/en/a") = true
  /\ isFirstLevel (Demo.nav_page 1 "/en") <> true
  /\ isFirstLevel (Demo.nav_page 2 "/en/a/") <> true.
Proof.
  split; [|split].
  - apply (isFirstLevel_iff (Demo.nav_page 2 "/en/a")). reflexivity.
  - intros Hf. apply (isFirstLevel_iff (Demo.nav_page 1 "/en")) in Hf. discriminate.
  - intros Hf. apply (isFirstLevel_iff (Demo.nav_page 2 "/en/a/")) in Hf. discriminate.
Defined.

End LevelFacts.

Module OutcomeFacts.

Import Cms Notions.


Section WithCollaborators.
Context `{Collaborators}.

Lemma bind_dumpFile {B} cfg content path ext (f : unit -> outcome B) :
  bind (dumpFile cfg content path ext) f
  = Outcome (trace (dumpFile cfg content path ext) ++ trace (f tt)) (result (f tt)).
Proof. reflexivity. Qed.

Lemma bind_fetchEndpoint {B} cfg path query (f : Json * string -> outcome B) :
  bind (fetchEndpoint cfg path query) f
  = Outcome (Fetch (apiBaseUrl cfg +:+ path +:+ query)
             :: trace (f (http_json (apiBaseUrl cfg +:+ path +:+ query),
                          apiBaseUrl cfg +:+ path +:+ query)))
            (result (f (http_json (apiBaseUrl cfg +:+ path +:+ query),
                        apiBaseUrl cfg +:+ path +:+ query))).
Proof. reflexivity. Qed.

(** X25.  For each language, the labels file [labels.json] holds the
    object built from the labels fetched for the language, taken in
    their order, but those whose key starts with one of the excluded
    prefixes: each label kept is written as a property, its key the
    name and its value the value.  So the object holds each key once,
    but [__proto__], which makes no property, with the value of the last
    label kept that has the key; the keys that are array indices come
    first, in ascending order, the other keys after them; and when the
    keys of the labels kept are distinct, none an array index and none
    [__proto__], the object holds the labels kept in their order.
    [generateContent] always puts [hc_] first among the excluded
    prefixes, so that no label whose key starts with [hc_] is ever
    written, whatever prefixes the caller gives. *)
Theorem labels_are_filtered (cfg : Config) (extra : list string)
    (pageLinks : list string) (lang : HcLang) :
  let labels :=
    as_labels (json_items (http_json (apiBaseUrl cfg +:+ label_list_path lang +:+ ""))) in
  let kept := kept_labels ("hc_"%string :: extra) labels in
  let object := written_object kept in
  (exists before dirs after,
      trace (generateLang cfg ("hc_"%string :: extra) pageLinks lang)
      = before
        ++ WriteFile (contentBasePath cfg ++ dirs ++ ["labels.json"%string])
                     (stringify_entries object)
           :: after)
  /\ (forall key value,
        In (key, value) object
        <-> key <> "__proto__"%string /\ last_value kept key = Some value)
  /\ List.NoDup (map fst object)
  /\ (exists indices others,
        map fst object = indices ++ others
        /\ List.Forall (fun k => Js.is_array_index k = true) indices
        /\ List.Forall (fun k => Js.is_array_index k = false) others
        /\ StronglySorted (fun a b => (Js.digits_value a <= Js.digits_value b)%Z) indices)
  /\ (List.NoDup (map fst kept) ->
      List.Forall (fun item => Js.is_array_index (fst item) = false
                               /\ fst item <> "__proto__"%string) kept ->
      object = kept)
  /\ List.Forall
       (fun item =>
          Js.startsWith (fst item) "hc_" = false
          /\ List.Forall (fun prefix => Js.startsWith (fst item) prefix = false) extra)
       kept
  /\ (forall item,
        In item labels ->
        Js.startsWith (fst item) "hc_" = false ->
        List.Forall (fun prefix => Js.startsWith (fst item) prefix = false) extra ->
        In item kept).
Proof.
  intros labels kept object.
  split; [|split; [|split; [|split; [|split; [|split]]]]].
  - unfold generateLang. rewrite EffectFacts.bind_emit, bind_fetchEndpoint.
    cbn [trace fst]. fold labels. rewrite ObjectFacts.fold_filter.
    fold (kept_labels ("hc_"%string :: extra) labels). fold kept.
    fold (written_object kept). fold object.
    unfold dumpJson at 1. rewrite bind_dumpFile. cbn [trace].
    unfold dumpFile at 1. cbn [bind emit trace result app].
    replace (apiBasePath cfg ++ [lang_code lang; "labels"%string])
      with ((apiBasePath cfg ++ [lang_code lang]) ++ ["labels"%string])
      by (now rewrite <- app_assoc).
    destruct (JoinFacts.join_file (apiBasePath cfg ++ [lang_code lang]) "labels" "json"
                eq_refl eq_refl eq_refl) as (dirs & Hdirs).
    unfold path_join. rewrite Hdirs.
    eexists [_; _; _], dirs, _. cbn [app]. reflexivity.
  - intros key value. apply ObjectFacts.In_written_object.
  - apply ObjectFacts.NoDup_written_object.
  - apply ObjectFacts.written_object_sorted.
  - apply ObjectFacts.written_object_plain.
  - apply List.Forall_forall. intros item Hin. unfold kept, kept_labels in Hin.
    apply List.filter_In in Hin as [_ Hin]. apply negb_true_iff in Hin.
    cbn [existsb] in Hin. apply orb_false_iff in Hin as [Hhc Hextra].
    split; [exact Hhc|]. apply List.Forall_forall. intros prefix Hp.
    destruct (Js.startsWith (fst item) prefix) eqn:Es; [|reflexivity].
    assert (Hex : existsb (fun prefix => Js.startsWith (fst item) prefix) extra = true).
    { apply existsb_exists. now exists prefix. }
    congruence.
  - intros item Hin Hhc Hextra. unfold kept, kept_labels.
    apply List.filter_In. split; [exact Hin|]. apply negb_true_iff.
    cbn [existsb]. rewrite Hhc. cbn [orb].
    apply not_true_is_false. intros Hex. apply existsb_exists in Hex as (prefix & Hp & Hs).
    rewrite List.Forall_forall in Hextra. rewrite (Hextra _ Hp) in Hs. discriminate.
Qed.

(** ** Errors *)








End WithCollaborators.

#[local] Existing Instance Demo.collaborators.

(** A list of four labels filtered with the prefixes of a caller who
    excludes [admin_]; labels with a key given twice, keys that are
    array indices and the key [__proto__]; and the labels file of the
    demo. *)
Lemma labels_are_filtered_witness :
  kept_labels ["hc_"; "admin_"]%string
    [("hc_title", "T"); ("menu", "Menu"); ("admin_x", "X"); ("footer", "F")]%string
  = [("menu", "Menu"); ("footer", "F")]%string
  /\ written_object
       [("menu", "Menu"); ("2", "two"); ("menu", "Again"); ("10", "ten");
        ("__proto__", "x"); ("1", "one")]%string
     = [("1", "one"); ("2", "two"); ("10", "ten"); ("menu", "Again")]%string
  /\ exists before dirs after,
      trace (generateLang (H := Demo.collaborators) config
               ["hc_"; "admin_"]%string [] "en"%string)
      = before
        ++ WriteFile (["content"%string] ++ dirs ++ ["labels.json"%string]) "{}"
           :: after.
Proof.
  split; [reflexivity | split; [reflexivity|]].
  destruct (labels_are_filtered (H := Demo.collaborators) config
              ["admin_"%string] [] "en"%string)
    as ((before & dirs & after & Ht) & _).
  exists before, dirs, after. exact Ht.
Defined.


End OutcomeFacts.

Module FrontMatterFacts.

Import Notions.

Lemma lines_cons (line rest : string) :
  lacks line_feed line ->
  lines (line +:+ Cms.newline +:+ rest) = line :: lines rest.
Proof.
  intros Hl. unfold lines.
  change (line +:+ Cms.newline +:+ rest) with (line +:+ String line_feed rest).
  now rewrite SplitFacts.split_app_sep, (SplitFacts.split_lacks _ _ Hl).
Qed.

Lemma lines_cons2 (a b rest : string) :
  lacks line_feed a -> lacks line_feed b ->
  lines (a +:+ b +:+ Cms.newline +:+ rest) = (a +:+ b) :: lines rest.
Proof.
  intros Ha Hb. rewrite <- (JsFacts.app_assoc a b). apply lines_cons.
  now apply SplitFacts.lacks_app.
Qed.

(** X27.  The front matter of a page is made of the lines [---], then
    [navigation: false] unless the page is always shown, then the access
    level, the API URL, [---] and an empty line.  In the cms module the
    access level of a page that has none, or an empty one, is [all]; in
    the base module it is printed as it is, [undefined] when the page
    has none.  (The access level and the URL hold no line feed.) *)
Theorem frontMatter_lines :
  (forall (page : Cms.ImportingPage) (apiUrl : string),
      lacks line_feed (default EmptyString (Cms.access page)) ->
      lacks line_feed apiUrl ->
      lines (Cms.getFrontMatter page apiUrl)
      = "---"%string
        :: (if String.eqb (Cms.show page) "always" then []
            else ["navigation: false"%string])
        ++ ["access: " +:+ (match Cms.access page with
                            | Some (String c level) => String c level
                            | _ => "all"
                            end);
            "apiUrl: " +:+ apiUrl; "---"; ""; ""]%string)
  /\ (forall (page : BasePages.Page) (apiUrl : string),
        lacks line_feed (Js.toString (BasePages.access page)) ->
        lacks line_feed apiUrl ->
        lines (BasePages.getFrontMatter page apiUrl)
        = "---"%string
          :: (if String.eqb (BasePages.show page) "always" then []
              else ["navigation: false"%string])
          ++ ["access: " +:+ (match BasePages.access page with
                              | Some level => level
                              | None => "undefined"
                              end);
              "apiUrl: " +:+ apiUrl; "---"; ""; ""]%string).
Proof.
  split.
  - intros page apiUrl Hacc Hurl. unfold Cms.getFrontMatter.
    assert (Hlevel : Js.or_else (default EmptyString (Cms.access page)) "all"
                     = match Cms.access page with
                       | Some (String c level) => String c level
                       | _ => "all"%string
                       end).
    { destruct (Cms.access page) as [[|c level]|]; reflexivity. }
    assert (Hl : lacks line_feed
                   (Js.or_else (default EmptyString (Cms.access page)) "all")).
    { destruct (Cms.access page) as [[|c level]|]; [reflexivity | exact Hacc | reflexivity]. }
    rewrite <- Hlevel.
    destruct (String.eqb (Cms.show page) "always"); cbn [negb app];
      rewrite ?JsFacts.app_assoc;
      repeat first [rewrite lines_cons by reflexivity
                   | rewrite lines_cons2 by first [reflexivity | assumption]];
      reflexivity.
  - intros page apiUrl Hacc Hurl. unfold BasePages.getFrontMatter.
    change (match BasePages.access page with
            | Some level => level
            | None => "undefined"%string
            end) with (Js.toString (BasePages.access page)).
    destruct (String.eqb (BasePages.show page) "always"); cbn [negb app];
      rewrite ?JsFacts.app_assoc;
      repeat first [rewrite lines_cons by reflexivity
                   | rewrite lines_cons2 by first [reflexivity | assumption]];
      reflexivity.
Qed.

(** A hidden page without access level, served from [http://cms/p]. *)
Lemma frontMatter_lines_witness :
  lines (Cms.getFrontMatter (Demo.page "/en/a" "/en/1.a" "never") "http://cms/p")
  = ["---"; "navigation: false"; "access: all"; "apiUrl: http://cms/p"; "---"; ""; ""]%string
  /\ lines (BasePages.getFrontMatter
              {| BasePages.show := "always"; BasePages.access := None |} "http://cms/p")
     = ["---"; "access: undefined"; "apiUrl: http://cms/p"; "---"; ""; ""]%string.
Proof.
  destruct frontMatter_lines as (Hcms & Hbase).
  split.
  - exact (Hcms (Demo.page "/en/a" "/en/1.a" "never") "http://cms/p"%string
                eq_refl eq_refl).
  - exact (Hbase {| BasePages.show := "always"; BasePages.access := None |}
                 "http://cms/p"%string eq_refl eq_refl).
Defined.

End FrontMatterFacts.
